(** * OpenCall signaling backend: a shallow embedding of the session hub

    The development follows the Go packages of the repository:
    - [internal/websocket] : messages.go (message buffer, connection state),
      the hub (Client, Session, Hub) and the package errors;
    - [internal/repositories] : the video_sessions table;
    - [internal/services]     : the session lifecycle service;
    - [internal/handlers]     : the websocket handler (join, read pump,
      write pump, signaling dispatch).

    Go values that are reached through pointers and mutated in place
    (clients, sessions, the backing arrays of slices) live in explicit
    stores; every Go function becomes a computation in a state monad whose
    outcome is either a value or a run-time panic.  State changes made
    before a panic persist, as they do in Go. *)

From stdpp Require Import base option list gmap strings.
From Stdlib Require Import ZArith Lia Ascii.

Open Scope string_scope.
Open Scope list_scope.
Open Scope Z_scope.

(** ** The Go run time: outcomes, the state monad, channels *)

Inductive Outcome (A : Type) : Type :=
  | Ret (a : A)
  | Panic (msg : string).
Arguments Ret {A} a.
Arguments Panic {A} msg.

Definition Go (S A : Type) : Type := S → S * Outcome A.

Definition ret {S A} (a : A) : Go S A := λ s, (s, Ret a).

Definition bind {S A B} (m : Go S A) (k : A → Go S B) : Go S B :=
  λ s, match m s with
       | (s', Ret a) => k a s'
       | (s', Panic msg) => (s', Panic msg)
       end.

Definition panic {S A} (msg : string) : Go S A := λ s, (s, Panic msg).
Definition get {S} : Go S S := λ s, (s, Ret s).
Definition modify {S} (f : S → S) : Go S unit := λ s, (f s, Ret tt).

Declare Scope go_scope.
Delimit Scope go_scope with go.
Notation "x <- m ;; k" := (bind m (λ x, k))
  (at level 100, m at next level, right associativity) : go_scope.
Notation "m ;;; k" := (bind m (λ _, k))
  (at level 100, k at level 200, right associativity) : go_scope.
Open Scope go_scope.

(** Run-time panic messages of the Go run time. *)
Definition panic_send_closed : string := "send on closed channel".
Definition panic_close_closed : string := "close of closed channel".
Definition panic_nil_deref : string :=
  "invalid memory address or nil pointer dereference".
Definition panic_makeslice : string := "makeslice: cap out of range".

(** A channel is kept as the history of the values ever enqueued ([sent],
    oldest first) and the number of values already received; the values
    waiting in the buffer are [drop recvd sent]. *)
Record Chan (T : Type) : Type := mkChan {
  sent : list T;
  recvd : nat;
  chan_cap : nat;
  closed : bool
}.
Arguments mkChan {T}.
Arguments sent {T}.
Arguments recvd {T}.
Arguments chan_cap {T}.
Arguments closed {T}.

Definition make_chan {T} (capacity : nat) : Chan T :=
  mkChan [] 0 capacity false.

Definition pending {T} (ch : Chan T) : list T := drop (recvd ch) (sent ch).

Definition chan_full {T} (ch : Chan T) : bool :=
  bool_decide (chan_cap ch ≤ length (pending ch))%nat.

(** [select { case ch <- v: ...; default: ... }].  The run time panics on a
    closed channel before it looks at the buffer; a full buffer selects
    the default branch. *)
Inductive TrySend (T : Type) : Type :=
  | SendPanics
  | SendDefault
  | Sent (ch' : Chan T).
Arguments SendPanics {T}.
Arguments SendDefault {T}.
Arguments Sent {T} ch'.

Definition chan_try_send {T} (ch : Chan T) (v : T) : TrySend T :=
  if closed ch then SendPanics
  else if chan_full ch then SendDefault
  else Sent (mkChan (sent ch ++ [v]) (recvd ch) (chan_cap ch) false).

(** [close(ch)]: [None] is the panic of closing a closed channel. *)
Definition chan_close {T} (ch : Chan T) : option (Chan T) :=
  if closed ch then None
  else Some (mkChan (sent ch) (recvd ch) (chan_cap ch) true).

(** [v, ok := <-ch] when it can proceed: a buffered value, or the zero
    value with [ok = false] once the channel is closed and drained.
    [None]: the receive would block. *)
Definition chan_try_recv {T} (ch : Chan T) : option (option T * Chan T) :=
  match pending ch with
  | v :: _ => Some (Some v, mkChan (sent ch) (S (recvd ch)) (chan_cap ch) (closed ch))
  | [] => if closed ch then Some (None, ch) else None
  end.

(** ** Package websocket: errors *)

Inductive error : Type :=
  | ErrMessageBufferFull
  | ErrSessionNotFound
  | ErrClientNotFound
  | errors_New (text : string).

(** ** Package websocket: messages.go *)

(** [json.RawMessage]: the bytes of a JSON document. *)
Definition RawMessage : Type := string.

(** WebSocketMessage is the standard message format for all WebSocket
    communication ([Type_] is the Go field [Type]). *)
Module WebSocketMessage.
Record t : Type := mk { Type_ : string; Payload : RawMessage }.
End WebSocketMessage.

Module SessionReadyPayload.
Record t : Type := mk { OtherPartyName : string; Role : string }.
End SessionReadyPayload.

Module RTCOfferPayload.
Record t : Type := mk { SDP : string }.
End RTCOfferPayload.

Module RTCAnswerPayload.
Record t : Type := mk { SDP : string }.
End RTCAnswerPayload.

Module ICECandidatePayload.
Record t : Type := mk {
  Candidate : string;
  SDPMid : option string;
  SDPMLineIndex : option Z
}.
End ICECandidatePayload.

(** The zero value of [WebSocketMessage], which fills the unused cells of
    a freshly made backing array. *)
Definition zeroMessage : WebSocketMessage.t := WebSocketMessage.mk "" "".

(** *** Slices of [WebSocketMessage]

    A slice is a window on a backing array; the arrays live in a store so
    that two slices on one array see each other's writes. *)
Record Slice : Type := mkSlice { arr : positive; len : nat; cap : nat }.

Abbreviation Arrays := (gmap positive (list WebSocketMessage.t)).

(** [make([]WebSocketMessage, 0, n)] *)
Definition make (n : Z) : Go Arrays Slice :=
  if decide (n < 0) then panic panic_makeslice
  else λ A, let a := fresh (dom A) in
            (<[a := replicate (Z.to_nat n) zeroMessage]> A,
             Ret (mkSlice a 0 (Z.to_nat n))).

(** Capacity chosen by the run time when [append] has to reallocate. *)
Definition growcap (c : nat) : nat := if decide (c = 0)%nat then 1%nat else (2 * c)%nat.

(** [append(s, x)]: in place while there is room, else into a new array. *)
Definition append (s : Slice) (x : WebSocketMessage.t) : Go Arrays Slice :=
  λ A, if decide (len s < cap s)%nat then
         (alter (λ cells, <[len s := x]> cells) (arr s) A,
          Ret (mkSlice (arr s) (S (len s)) (cap s)))
       else
         let a := fresh (dom A) in
         let c := growcap (cap s) in
         (<[a := take (len s) (default [] (A !! arr s)) ++ x ::
                 replicate (c - S (len s)) zeroMessage]> A,
          Ret (mkSlice a (S (len s)) c)).

(** The elements a slice denotes in a store. *)
Definition contents (A : Arrays) (s : Slice) : list WebSocketMessage.t :=
  take (len s) (default [] (A !! arr s)).

(** *** MessageBuffer *)

Module MessageBuffer.
Record t : Type := mk { messages : Slice; maxSize : Z }.
End MessageBuffer.

Definition NewMessageBuffer (maxSize : Z) : Go Arrays MessageBuffer.t :=
  s <- make maxSize ;;
  ret (MessageBuffer.mk s maxSize).

Definition MessageBuffer_Add (msg : WebSocketMessage.t) (mb : MessageBuffer.t)
  : Go Arrays (MessageBuffer.t * option error) :=
  if decide (Z.of_nat (len (MessageBuffer.messages mb)) >= MessageBuffer.maxSize mb)
  then ret (mb, Some ErrMessageBufferFull)
  else
    s <- append (MessageBuffer.messages mb) msg ;;
    ret (MessageBuffer.mk s (MessageBuffer.maxSize mb), None).

Definition MessageBuffer_Flush (mb : MessageBuffer.t)
  : Go Arrays (MessageBuffer.t * Slice) :=
  let messages := MessageBuffer.messages mb in
  s <- make (MessageBuffer.maxSize mb) ;;
  ret (MessageBuffer.mk s (MessageBuffer.maxSize mb), messages).

Definition MessageBuffer_IsEmpty (mb : MessageBuffer.t) : bool :=
  bool_decide (len (MessageBuffer.messages mb) = 0%nat).

Definition MessageBuffer_Size (mb : MessageBuffer.t) : Z :=
  Z.of_nat (len (MessageBuffer.messages mb)).

(** A run of [Add] calls on one buffer; the result lists, in call order,
    the messages whose [Add] returned [nil]. *)
Fixpoint MessageBuffer_AddAll (msgs : list WebSocketMessage.t) (mb : MessageBuffer.t)
  : Go Arrays (MessageBuffer.t * list WebSocketMessage.t) :=
  match msgs with
  | [] => ret (mb, [])
  | msg :: rest =>
      r <- MessageBuffer_Add msg mb ;;
      r' <- MessageBuffer_AddAll rest (fst r) ;;
      ret (fst r', match snd r with
                   | None => msg :: snd r'
                   | Some _ => snd r'
                   end)
  end.

(** *** ConnectionState *)

Module ConnectionState.
Record t : Type := mk {
  PeerConnectionReady : bool;
  SessionReadySent : bool;
  MessageBufferActive : bool;
  messageBuffer : MessageBuffer.t
}.
End ConnectionState.

Definition NewConnectionState : Go Arrays ConnectionState.t :=
  mb <- NewMessageBuffer 100 ;;
  ret (ConnectionState.mk false false true mb).

Definition IsPeerConnectionReady (cs : ConnectionState.t) : bool :=
  ConnectionState.PeerConnectionReady cs.

Definition SetPeerConnectionReady (ready : bool) (cs : ConnectionState.t)
  : ConnectionState.t :=
  ConnectionState.mk ready
    (ConnectionState.SessionReadySent cs)
    (if ready then false else ConnectionState.MessageBufferActive cs)
    (ConnectionState.messageBuffer cs).

Definition HasSessionReadySent (cs : ConnectionState.t) : bool :=
  ConnectionState.SessionReadySent cs.

Definition SetSessionReadySent (sent : bool) (cs : ConnectionState.t)
  : ConnectionState.t :=
  ConnectionState.mk (ConnectionState.PeerConnectionReady cs) sent
    (ConnectionState.MessageBufferActive cs)
    (ConnectionState.messageBuffer cs).

Definition BufferMessage (msg : WebSocketMessage.t) (cs : ConnectionState.t)
  : Go Arrays (ConnectionState.t * bool) :=
  let isBuffering := ConnectionState.MessageBufferActive cs in
  if negb isBuffering then ret (cs, false)
  else
    r <- MessageBuffer_Add msg (ConnectionState.messageBuffer cs) ;;
    ret (ConnectionState.mk (ConnectionState.PeerConnectionReady cs)
           (ConnectionState.SessionReadySent cs)
           (ConnectionState.MessageBufferActive cs) (fst r),
         bool_decide (snd r = None)).

Definition FlushBuffer (cs : ConnectionState.t)
  : Go Arrays (ConnectionState.t * Slice) :=
  r <- MessageBuffer_Flush (ConnectionState.messageBuffer cs) ;;
  ret (ConnectionState.mk (ConnectionState.PeerConnectionReady cs)
         (ConnectionState.SessionReadySent cs)
         (ConnectionState.MessageBufferActive cs) (fst r),
       snd r).

(** ** Package websocket: the hub (Client, Session, Hub) *)

(** [uuid.UUID], a 128-bit value. *)
Definition UUID : Type := N.

(** [time.Time]: an instant, in nanoseconds since the epoch. *)
Definition Time : Type := Z.

(** Addresses of [Client] and [Session] objects. *)
Definition cptr : Type := positive.
Definition sptr : Type := positive.

(** The values the server puts on a client's [Send] channel: always a
    [map[string]interface{}] with the keys "type" and "payload". *)
Inductive PayloadValue : Type :=
  | PSessionReady (p : SessionReadyPayload.t)
      (* json.RawMessage: the encoding of a SessionReadyPayload *)
  | POffer (p : RTCOfferPayload.t)
  | PAnswer (p : RTCAnswerPayload.t)
  | PICECandidate (p : ICECandidatePayload.t)
  | PEmpty                              (* map[string]interface{}{} *)
  | PBookingID (booking_id : UUID).     (* {"booking_id": bookingID.String()} *)

Module OutMessage.
Record t : Type := mk { type : string; payload : PayloadValue }.
End OutMessage.

(** What has been written on the physical connection. *)
Inductive WireFrame : Type :=
  | WriteJSON (message : OutMessage.t)
  | PingMessage
  | CloseMessage.

Module Conn.
Record t : Type := mk { closed : bool; written : list WireFrame }.
End Conn.

(** Client represents a WebSocket client.  The [Hub] back pointer of the
    Go struct is left out: the process has one hub, kept in the world. *)
Module Client.
Record t : Type := mk {
  ID : UUID;
  BookingID : UUID;
  Role : string;
  UserID : UUID;
  MentorID : UUID;
  Username : string;
  Conn : Conn.t;
  Send : Chan OutMessage.t;
  Done : Chan unit;
  ConnectionState : ConnectionState.t
}.
Definition set_Conn (f : Conn.t → Conn.t) (c : t) : t :=
  mk (ID c) (BookingID c) (Role c) (UserID c) (MentorID c) (Username c)
     (f (Conn c)) (Send c) (Done c) (ConnectionState c).
Definition set_Send (f : Chan OutMessage.t → Chan OutMessage.t) (c : t) : t :=
  mk (ID c) (BookingID c) (Role c) (UserID c) (MentorID c) (Username c)
     (Conn c) (f (Send c)) (Done c) (ConnectionState c).
Definition set_Done (f : Chan unit → Chan unit) (c : t) : t :=
  mk (ID c) (BookingID c) (Role c) (UserID c) (MentorID c) (Username c)
     (Conn c) (Send c) (f (Done c)) (ConnectionState c).
Definition set_ConnectionState (f : ConnectionState.t → ConnectionState.t) (c : t) : t :=
  mk (ID c) (BookingID c) (Role c) (UserID c) (MentorID c) (Username c)
     (Conn c) (Send c) (Done c) (f (ConnectionState c)).
End Client.

(** Session represents an active video session with both parties; a nil
    slot is [None]. *)
Module Session.
Record t : Type := mk {
  BookingID : UUID;
  Mentor : option cptr;
  User : option cptr;
  StartTime : Time;
  MaxDuration : Z;
  Done : Chan unit
}.
Definition set_Mentor (v : option cptr) (s : t) : t :=
  mk (BookingID s) v (User s) (StartTime s) (MaxDuration s) (Done s).
Definition set_User (v : option cptr) (s : t) : t :=
  mk (BookingID s) (Mentor s) v (StartTime s) (MaxDuration s) (Done s).
Definition set_Done (v : Chan unit) (s : t) : t :=
  mk (BookingID s) (Mentor s) (User s) (StartTime s) (MaxDuration s) v.
End Session.

(** ** Package models: the persisted video session record *)

Inductive VideoSessionStatus : Type :=
  | VideoSessionStatusWaiting
  | VideoSessionStatusActive
  | VideoSessionStatusCompleted.

Module VideoSession.
Record t : Type := mk {
  ID : UUID;
  BookingID : UUID;
  MentorID : UUID;
  UserID : UUID;
  SessionStartedAt : option Time;
  SessionEndedAt : option Time;
  MentorJoinedAt : option Time;
  UserJoinedAt : option Time;
  MentorLeftAt : option Time;
  UserLeftAt : option Time;
  DurationSeconds : Z;
  Status : VideoSessionStatus;
  CreatedAt : Time;
  UpdatedAt : Time
}.
End VideoSession.

(** ** The state of the process

    [hub] is the map [Hub.sessions]; [video_sessions] is the table of the
    persistence layer, one row per booking_id; [clock] is the wall clock
    read by [time.Now()] and by SQL's [NOW()]. *)
Record World : Type := mkWorld {
  arrays : Arrays;
  clients : gmap cptr Client.t;
  sessions : gmap sptr Session.t;
  hub : gmap UUID sptr;
  video_sessions : gmap UUID VideoSession.t;
  clock : Time
}.

Definition set_arrays (A : Arrays) (w : World) : World :=
  mkWorld A (clients w) (sessions w) (hub w) (video_sessions w) (clock w).
Definition set_clients (f : gmap cptr Client.t → gmap cptr Client.t) (w : World) : World :=
  mkWorld (arrays w) (f (clients w)) (sessions w) (hub w) (video_sessions w) (clock w).
Definition set_sessions (f : gmap sptr Session.t → gmap sptr Session.t) (w : World) : World :=
  mkWorld (arrays w) (clients w) (f (sessions w)) (hub w) (video_sessions w) (clock w).
Definition set_hub (f : gmap UUID sptr → gmap UUID sptr) (w : World) : World :=
  mkWorld (arrays w) (clients w) (sessions w) (f (hub w)) (video_sessions w) (clock w).
Definition set_video_sessions
    (f : gmap UUID VideoSession.t → gmap UUID VideoSession.t) (w : World) : World :=
  mkWorld (arrays w) (clients w) (sessions w) (hub w) (f (video_sessions w)) (clock w).
Definition set_clock (t : Time) (w : World) : World :=
  mkWorld (arrays w) (clients w) (sessions w) (hub w) (video_sessions w) t.

Abbreviation M := (Go World).

(** Run a computation on the array store inside the world. *)
Definition liftA {A} (m : Go Arrays A) : M A :=
  λ w, let (A', r) := m (arrays w) in (set_arrays A' w, r).

(** Dereference and update through a pointer. *)
Definition getClient (c : cptr) : M Client.t :=
  λ w, match clients w !! c with
       | Some cl => (w, Ret cl)
       | None => (w, Panic panic_nil_deref)
       end.

Definition updClient (c : cptr) (f : Client.t → Client.t) : M unit :=
  cl <- getClient c ;;
  modify (set_clients <[c := f cl]>).

Definition getSession (s : sptr) : M Session.t :=
  λ w, match sessions w !! s with
       | Some se => (w, Ret se)
       | None => (w, Panic panic_nil_deref)
       end.

Definition updSession (s : sptr) (f : Session.t → Session.t) : M unit :=
  se <- getSession s ;;
  modify (set_sessions <[s := f se]>).

Definition time_Now : M Time := w <- get ;; ret (clock w).

(** [select { case c.Send <- message: (true) default: (false) }] *)
Definition try_send (c : cptr) (message : OutMessage.t) : M bool :=
  cl <- getClient c ;;
  match chan_try_send (Client.Send cl) message with
  | SendPanics => panic panic_send_closed
  | SendDefault => ret false
  | Sent ch' => updClient c (Client.set_Send (λ _, ch')) ;;; ret true
  end.

(** [close(ch)] on a channel field of a client. *)
Definition close_Send (c : cptr) : M unit :=
  cl <- getClient c ;;
  match chan_close (Client.Send cl) with
  | None => panic panic_close_closed
  | Some ch' => updClient c (Client.set_Send (λ _, ch'))
  end.

Definition close_Done (c : cptr) : M unit :=
  cl <- getClient c ;;
  match chan_close (Client.Done cl) with
  | None => panic panic_close_closed
  | Some ch' => updClient c (Client.set_Done (λ _, ch'))
  end.

(** [c.Conn.Close()] of the transport library: closing twice is an error
    value, which every caller drops. *)
Definition Conn_Close (c : cptr) : M unit :=
  updClient c (Client.set_Conn (λ cn, Conn.mk true (Conn.written cn))).

(** Close closes the client connection *)
Definition Client_Close (c : cptr) : M unit :=
  close_Send c ;;;
  Conn_Close c ;;;
  close_Done c.

(** IsConnected checks if client is still connected *)
Definition Client_IsConnected (c : cptr) : M bool :=
  cl <- getClient c ;;
  ret (negb (closed (Client.Done cl))).

Definition NewSession (bookingID : UUID) (maxDuration : Z) : M sptr :=
  now <- time_Now ;;
  w <- get ;;
  let s := fresh (dom (sessions w)) in
  modify (set_sessions <[s := Session.mk bookingID None None now maxDuration (make_chan 0)]>) ;;;
  ret s.

(** AddClient adds a client to a session.
    If a client already exists for this (user, booking), close the old one first *)
Definition Hub_AddClient (bookingID : UUID) (client : cptr) : M sptr :=
  w <- get ;;
  session <- match hub w !! bookingID with
             | Some session => ret session
             | None =>
                 session <- NewSession bookingID (30 * 60) ;;
                 modify (set_hub <[bookingID := session]>) ;;;
                 ret session
             end ;;
  cl <- getClient client ;;
  (if decide (Client.Role cl = "mentor") then
     se <- getSession session ;;
     match Session.Mentor se with
     | Some old =>
         o <- getClient old ;;
         if decide (Client.ID o ≠ Client.ID cl) then Client_Close old else ret tt
     | None => ret tt
     end ;;;
     updSession session (Session.set_Mentor (Some client))
   else
     se <- getSession session ;;
     match Session.User se with
     | Some old =>
         o <- getClient old ;;
         if decide (Client.ID o ≠ Client.ID cl) then Client_Close old else ret tt
     | None => ret tt
     end ;;;
     updSession session (Session.set_User (Some client))) ;;;
  ret session.

(** GetSession gets a session by booking ID ([None] is the nil pointer). *)
Definition Hub_GetSession (bookingID : UUID) : M (option sptr) :=
  w <- get ;;
  ret (hub w !! bookingID).

(** RemoveClient removes a client from a session *)
Definition Hub_RemoveClient (bookingID : UUID) (role : string) : M unit :=
  w <- get ;;
  match hub w !! bookingID with
  | None => ret tt
  | Some session =>
      (if decide (role = "mentor")
       then updSession session (Session.set_Mentor None)
       else updSession session (Session.set_User None)) ;;;
      se <- getSession session ;;
      if decide (Session.Mentor se = None ∧ Session.User se = None)
      then modify (set_hub (delete bookingID))
      else ret tt
  end.

(** BothJoined checks if both parties have joined *)
Definition Session_BothJoined (s : sptr) : M bool :=
  se <- getSession s ;;
  ret (bool_decide (Session.Mentor se ≠ None) && bool_decide (Session.User se ≠ None)).

(** GetOtherClient gets the other party *)
Definition Session_GetOtherClient (s : sptr) (role : string) : M (option cptr) :=
  se <- getSession s ;;
  if decide (role = "mentor") then ret (Session.User se) else ret (Session.Mentor se).

(** Broadcast sends a message to both parties *)
Definition Session_Broadcast (s : sptr) (message : OutMessage.t) : M unit :=
  se <- getSession s ;;
  let mentor := Session.Mentor se in
  let user := Session.User se in
  match mentor with
  | Some c => _ <- try_send c message ;; ret tt
  | None => ret tt
  end ;;;
  match user with
  | Some c => _ <- try_send c message ;; ret tt
  | None => ret tt
  end.

(** SendToRole sends a message to a specific role *)
Definition Session_SendToRole (s : sptr) (role : string) (message : OutMessage.t) : M unit :=
  se <- getSession s ;;
  let client := if decide (role = "mentor") then Session.Mentor se else Session.User se in
  match client with
  | Some c => _ <- try_send c message ;; ret tt
  | None => ret tt
  end.

(** Close closes the session *)
Definition Session_Close (s : sptr) : M unit :=
  se <- getSession s ;;
  match chan_close (Session.Done se) with
  | None => panic panic_close_closed
  | Some ch' => updSession s (Session.set_Done ch')
  end ;;;
  se <- getSession s ;;
  let mentor := Session.Mentor se in
  let user := Session.User se in
  match mentor with
  | Some c => Client_Close c
  | None => ret tt
  end ;;;
  match user with
  | Some c => Client_Close c
  | None => ret tt
  end.

(** ** Library interfaces

    Two computations of the Go standard library are kept abstract.
    [Seconds_Since now t] is [int(now.Sub(t).Seconds())], the whole seconds
    elapsed between [t] and [now] (a float64 conversion inside package
    time).  The [unmarshal_*] functions are [json.Unmarshal] at the four
    target types the handler uses; [None] is a decoding error. *)
Class TimeLib : Type := {
  Seconds_Since : Time → Time → Z
}.

Class JSON : Type := {
  unmarshal_message : RawMessage → option WebSocketMessage.t;
  unmarshal_offer : RawMessage → option RTCOfferPayload.t;
  unmarshal_answer : RawMessage → option RTCAnswerPayload.t;
  unmarshal_ice : RawMessage → option ICECandidatePayload.t
}.

(** ** Package repositories: video_session_repository.go

    Every statement is an [UPDATE ... WHERE booking_id = $n]: it rewrites
    the row of that booking when there is one and does nothing otherwise.
    Failures of the database connection are outside the model: a statement
    always returns a nil error. *)

Definition sql_update (bookingID : UUID) (f : Time → VideoSession.t → VideoSession.t)
  : M (option error) :=
  now <- time_Now ;;
  modify (set_video_sessions (alter (f now) bookingID)) ;;;
  ret None.

(** Get session by booking ID *)
Definition Repo_GetByBookingID (bookingID : UUID) : M (VideoSession.t + error) :=
  w <- get ;;
  match video_sessions w !! bookingID with
  | Some r => ret (inl r)
  | None => ret (inr (errors_New "video session not found"))
  end.

(** Update session status *)
Definition Repo_UpdateStatus (bookingID : UUID) (status : VideoSessionStatus)
  : M (option error) :=
  sql_update bookingID (λ now r,
    VideoSession.mk (VideoSession.ID r) (VideoSession.BookingID r)
      (VideoSession.MentorID r) (VideoSession.UserID r)
      (VideoSession.SessionStartedAt r) (VideoSession.SessionEndedAt r)
      (VideoSession.MentorJoinedAt r) (VideoSession.UserJoinedAt r)
      (VideoSession.MentorLeftAt r) (VideoSession.UserLeftAt r)
      (VideoSession.DurationSeconds r) status
      (VideoSession.CreatedAt r) now).

(** Record when mentor joined *)
Definition Repo_RecordMentorJoined (bookingID : UUID) : M (option error) :=
  sql_update bookingID (λ now r,
    VideoSession.mk (VideoSession.ID r) (VideoSession.BookingID r)
      (VideoSession.MentorID r) (VideoSession.UserID r)
      (VideoSession.SessionStartedAt r) (VideoSession.SessionEndedAt r)
      (Some now) (VideoSession.UserJoinedAt r)
      (VideoSession.MentorLeftAt r) (VideoSession.UserLeftAt r)
      (VideoSession.DurationSeconds r) (VideoSession.Status r)
      (VideoSession.CreatedAt r) now).

(** Record when user joined *)
Definition Repo_RecordUserJoined (bookingID : UUID) : M (option error) :=
  sql_update bookingID (λ now r,
    VideoSession.mk (VideoSession.ID r) (VideoSession.BookingID r)
      (VideoSession.MentorID r) (VideoSession.UserID r)
      (VideoSession.SessionStartedAt r) (VideoSession.SessionEndedAt r)
      (VideoSession.MentorJoinedAt r) (Some now)
      (VideoSession.MentorLeftAt r) (VideoSession.UserLeftAt r)
      (VideoSession.DurationSeconds r) (VideoSession.Status r)
      (VideoSession.CreatedAt r) now).

(** Record when mentor left *)
Definition Repo_RecordMentorLeft (bookingID : UUID) : M (option error) :=
  sql_update bookingID (λ now r,
    VideoSession.mk (VideoSession.ID r) (VideoSession.BookingID r)
      (VideoSession.MentorID r) (VideoSession.UserID r)
      (VideoSession.SessionStartedAt r) (VideoSession.SessionEndedAt r)
      (VideoSession.MentorJoinedAt r) (VideoSession.UserJoinedAt r)
      (Some now) (VideoSession.UserLeftAt r)
      (VideoSession.DurationSeconds r) (VideoSession.Status r)
      (VideoSession.CreatedAt r) now).

(** Record when user left *)
Definition Repo_RecordUserLeft (bookingID : UUID) : M (option error) :=
  sql_update bookingID (λ now r,
    VideoSession.mk (VideoSession.ID r) (VideoSession.BookingID r)
      (VideoSession.MentorID r) (VideoSession.UserID r)
      (VideoSession.SessionStartedAt r) (VideoSession.SessionEndedAt r)
      (VideoSession.MentorJoinedAt r) (VideoSession.UserJoinedAt r)
      (VideoSession.MentorLeftAt r) (Some now)
      (VideoSession.DurationSeconds r) (VideoSession.Status r)
      (VideoSession.CreatedAt r) now).

(** End session and record duration.  The statement binds the duration,
    the completed status and the booking id; [reason] is not bound. *)
Definition Repo_EndSession (bookingID : UUID) (durationSeconds : Z) (reason : string)
  : M (option error) :=
  sql_update bookingID (λ now r,
    VideoSession.mk (VideoSession.ID r) (VideoSession.BookingID r)
      (VideoSession.MentorID r) (VideoSession.UserID r)
      (VideoSession.SessionStartedAt r) (Some now)
      (VideoSession.MentorJoinedAt r) (VideoSession.UserJoinedAt r)
      (VideoSession.MentorLeftAt r) (VideoSession.UserLeftAt r)
      durationSeconds VideoSessionStatusCompleted
      (VideoSession.CreatedAt r) now).

(** Mark session as active (only a row that is still waiting). *)
Definition Repo_MarkActive (bookingID : UUID) : M (option error) :=
  sql_update bookingID (λ now r,
    match VideoSession.Status r with
    | VideoSessionStatusWaiting =>
        VideoSession.mk (VideoSession.ID r) (VideoSession.BookingID r)
          (VideoSession.MentorID r) (VideoSession.UserID r)
          (Some now) (VideoSession.SessionEndedAt r)
          (VideoSession.MentorJoinedAt r) (VideoSession.UserJoinedAt r)
          (VideoSession.MentorLeftAt r) (VideoSession.UserLeftAt r)
          (VideoSession.DurationSeconds r) VideoSessionStatusActive
          (VideoSession.CreatedAt r) now
    | _ => r
    end).

(** ** Package middlewares: the authenticated context of a connection

    The fields the handler reads (the [Booking] pointer is not among
    them). *)

Module WebSocketAuthContext.
Record t : Type := mk {
  UserID : UUID;
  Username : string;
  BookingID : UUID;
  Role : string;
  MentorID : UUID
}.
End WebSocketAuthContext.

(** ** Package services and package handlers *)

(** What [client.Conn.ReadJSON] hands to the read pump.  Read deadlines
    and the pong handler are not modelled: an expired deadline is a
    [ReadError]. *)
Inductive ReadResult : Type :=
  | ReadError                        (* ReadJSON failed: close, deadline, ... *)
  | ReadJSON (rawMsg : RawMessage).

Inductive WriteEvent : Type :=
  | SendReady                        (* case message, ok := <-client.Send *)
  | TickerC                          (* case <-ticker.C *)
  | DoneClosed.                      (* case <-client.Done *)

Inductive LoopCtl : Type := Continue | Return.

(** [defer d] around a body: [d] runs when the body returns and also when
    it panics; a panic of the body goes on after [d] has run. *)
Definition with_defer {A} (d : M unit) (body : M A) : M A :=
  λ w, match body w with
       | (w', Ret a) =>
           match d w' with
           | (w'', Ret _) => (w'', Ret a)
           | (w'', Panic msg) => (w'', Panic msg)
           end
       | (w', Panic msg) =>
           match d w' with
           | (w'', Ret _) => (w'', Panic msg)
           | (w'', Panic msg') => (w'', Panic msg')
           end
       end.

Section Service.
Context `{!TimeLib} `{!JSON}.

(** EndSession marks session as completed and updates booking *)
Definition EndSession (bookingID : UUID) (reason : string) : M (option error) :=
  r <- Repo_GetByBookingID bookingID ;;
  match r with
  | inr err => ret (Some err)
  | inl session =>
      now <- time_Now ;;
      let duration :=
        match VideoSession.SessionStartedAt session, VideoSession.SessionEndedAt session with
        | Some started, None => Seconds_Since now started
        | _, _ => 0
        end in
      err <- Repo_EndSession bookingID duration reason ;;
      match err with
      | Some e => ret (Some e)
      | None => ret None
      end
  end.

(** HandleClientJoined handles when a client joins the WebSocket *)
Definition HandleClientJoined (client : cptr) (username : string) : M (option error) :=
  cl <- getClient client ;;
  (if decide (Client.Role cl = "mentor")
   then Repo_RecordMentorJoined (Client.BookingID cl)
   else Repo_RecordUserJoined (Client.BookingID cl)) ;;;
  ret None.

(** HandleClientLeft handles when a client disconnects *)
Definition HandleClientLeft (bookingID : UUID) (role : string) : M (option error) :=
  (if decide (role = "mentor")
   then Repo_RecordMentorLeft bookingID
   else Repo_RecordUserLeft bookingID) ;;;
  session <- Hub_GetSession bookingID ;;
  match session with
  | Some session =>
      otherParty <- Session_GetOtherClient session role ;;
      match otherParty with
      | Some otherParty =>
          let response := OutMessage.mk "other_party_left" (PBookingID bookingID) in
          _ <- try_send otherParty response ;;
          Client_Close otherParty
      | None => ret tt
      end ;;;
      _ <- EndSession bookingID "party_left" ;;
      ret tt
  | None => ret tt
  end ;;;
  Hub_RemoveClient bookingID role ;;;
  ret None.

(** ForwardMessage forwards a WebRTC message to the other party *)
Definition ForwardMessage (bookingID : UUID) (senderRole : string)
    (messageType : string) (payload : PayloadValue) : M (option error) :=
  session <- Hub_GetSession bookingID ;;
  match session with
  | None => ret (Some (errors_New "session not found"))
  | Some session =>
      let response := OutMessage.mk messageType payload in
      let otherRole := if decide (senderRole = "user") then "mentor" else "user" in
      Session_SendToRole session otherRole response ;;;
      ret None
  end.

(** sendSessionReady sends session_ready message to both clients when both have joined *)
Definition sendSessionReady (session : sptr) (newClient : cptr)
    (auth : WebSocketAuthContext.t) : M unit :=
  both <- Session_BothJoined session ;;
  if negb both then ret tt
  else
    otherClient <- Session_GetOtherClient session (WebSocketAuthContext.Role auth) ;;
    match otherClient with
    | None => ret tt
    | Some otherClient =>
        oc <- getClient otherClient ;;
        let otherUsername := Client.Username oc in
        nc <- getClient newClient ;;
        (if negb (HasSessionReadySent (Client.ConnectionState nc)) then
           let payload := SessionReadyPayload.mk otherUsername (WebSocketAuthContext.Role auth) in
           ok <- try_send newClient (OutMessage.mk "session_ready" (PSessionReady payload)) ;;
           if ok then updClient newClient (Client.set_ConnectionState (SetSessionReadySent true))
           else ret tt
         else ret tt) ;;;
        oc <- getClient otherClient ;;
        (if negb (HasSessionReadySent (Client.ConnectionState oc)) then
           let payload := SessionReadyPayload.mk (WebSocketAuthContext.Username auth) (Client.Role oc) in
           ok <- try_send otherClient (OutMessage.mk "session_ready" (PSessionReady payload)) ;;
           if ok then updClient otherClient (Client.set_ConnectionState (SetSessionReadySent true))
           else ret tt
         else ret tt)
    end.

(** HandleWebSocket, from the successful upgrade to the start of the two
    pumps.  [id] is the value drawn by [uuid.New()]. *)
Definition HandleWebSocket (auth : WebSocketAuthContext.t) (id : UUID) : M (cptr * sptr) :=
  cs <- liftA NewConnectionState ;;
  w <- get ;;
  let client := fresh (dom (clients w)) in
  modify (set_clients <[client :=
    Client.mk id (WebSocketAuthContext.BookingID auth) (WebSocketAuthContext.Role auth)
      (WebSocketAuthContext.UserID auth) (WebSocketAuthContext.MentorID auth)
      (WebSocketAuthContext.Username auth)
      (Conn.mk false []) (make_chan 256) (make_chan 0) cs]>) ;;;
  session <- Hub_AddClient (WebSocketAuthContext.BookingID auth) client ;;
  _ <- HandleClientJoined client (WebSocketAuthContext.Username auth) ;;
  sendSessionReady session client auth ;;;
  ret (client, session).

Definition otherRole_of (role : string) : string :=
  if decide (role = "user") then "mentor" else "user".

(** handleOfferMessage handles incoming SDP offer *)
Definition handleOfferMessage (client : cptr) (session : sptr) (payload : RawMessage)
  : M unit :=
  match unmarshal_offer payload with
  | None => ret tt
  | Some offerPayload =>
      if decide (RTCOfferPayload.SDP offerPayload = "") then ret tt
      else
        cl <- getClient client ;;
        let response := OutMessage.mk "offer" (POffer offerPayload) in
        let otherRole := otherRole_of (Client.Role cl) in
        Session_SendToRole session otherRole response
  end.

(** handleAnswerMessage handles incoming SDP answer *)
Definition handleAnswerMessage (client : cptr) (session : sptr) (payload : RawMessage)
  : M unit :=
  match unmarshal_answer payload with
  | None => ret tt
  | Some answerPayload =>
      if decide (RTCAnswerPayload.SDP answerPayload = "") then ret tt
      else
        cl <- getClient client ;;
        let response := OutMessage.mk "answer" (PAnswer answerPayload) in
        let otherRole := otherRole_of (Client.Role cl) in
        Session_SendToRole session otherRole response
  end.

(** handleICECandidateMessage handles incoming ICE candidate *)
Definition handleICECandidateMessage (client : cptr) (session : sptr) (payload : RawMessage)
  : M unit :=
  match unmarshal_ice payload with
  | None => ret tt
  | Some icePayload =>
      if decide (ICECandidatePayload.Candidate icePayload = "") then ret tt
      else
        cl <- getClient client ;;
        let response := OutMessage.mk "ice_candidate" (PICECandidate icePayload) in
        let otherRole := otherRole_of (Client.Role cl) in
        Session_SendToRole session otherRole response
  end.

(** One iteration of the loop of readPump on the outcome [r] of
    [client.Conn.ReadJSON]. *)
Definition readPump_body (client : cptr) (session : sptr) (r : ReadResult) : M LoopCtl :=
  match r with
  | ReadError => ret Return
  | ReadJSON rawMsg =>
      match unmarshal_message rawMsg with
      | None => ret Continue
      | Some msg =>
          let type := WebSocketMessage.Type_ msg in
          if decide (type = "offer") then
            handleOfferMessage client session (WebSocketMessage.Payload msg) ;;; ret Continue
          else if decide (type = "answer") then
            handleAnswerMessage client session (WebSocketMessage.Payload msg) ;;; ret Continue
          else if decide (type = "ice_candidate") then
            handleICECandidateMessage client session (WebSocketMessage.Payload msg) ;;; ret Continue
          else if decide (type = "leave_call") then ret Return
          else if decide (type = "ping") then
            _ <- try_send client (OutMessage.mk "pong" PEmpty) ;;
            ret Continue
          else ret Continue
      end
  end.

(** The deferred cleanup of readPump. *)
Definition readPump_deferred (client : cptr) : M unit :=
  cl <- getClient client ;;
  _ <- HandleClientLeft (Client.BookingID cl) (Client.Role cl) ;;
  Hub_RemoveClient (Client.BookingID cl) (Client.Role cl) ;;;
  Conn_Close client.

(** The loop of readPump on the read outcomes still to come; [Continue]
    when they are used up and the pump is waiting in ReadJSON. *)
Fixpoint readPump_loop (client : cptr) (session : sptr) (inputs : list ReadResult)
  : M LoopCtl :=
  match inputs with
  | [] => ret Continue
  | r :: rest =>
      ctl <- readPump_body client session r ;;
      match ctl with
      | Return => ret Return
      | Continue => readPump_loop client session rest
      end
  end.

(** readPump reads messages from the WebSocket and forwards them appropriately *)
Definition readPump (client : cptr) (session : sptr) (inputs : list ReadResult) : M unit :=
  λ w, match readPump_loop client session inputs w with
       | (w', Ret Continue) => (w', Ret tt)
       | (w', Ret Return) => readPump_deferred client w'
       | (w', Panic msg) => with_defer (readPump_deferred client) (panic msg) w'
       end.

(** A write on the physical connection; [true] is a write error. *)
Definition Conn_Write (client : cptr) (frame : WireFrame) : M bool :=
  cl <- getClient client ;;
  if Conn.closed (Client.Conn cl) then ret true
  else
    updClient client
      (Client.set_Conn (λ cn, Conn.mk (Conn.closed cn) (Conn.written cn ++ [frame]))) ;;;
    ret false.

(** One iteration of the loop of writePump when the select takes the
    case [ev]; a case that cannot proceed leaves the pump waiting. *)
Definition writePump_body (client : cptr) (ev : WriteEvent) : M LoopCtl :=
  cl <- getClient client ;;
  match ev with
  | SendReady =>
      match chan_try_recv (Client.Send cl) with
      | None => ret Continue
      | Some (None, _) =>
          _ <- Conn_Write client CloseMessage ;;
          ret Return
      | Some (Some message, ch') =>
          updClient client (Client.set_Send (λ _, ch')) ;;;
          err <- Conn_Write client (WriteJSON message) ;;
          if err then ret Return else ret Continue
      end
  | TickerC =>
      err <- Conn_Write client PingMessage ;;
      if err then ret Return else ret Continue
  | DoneClosed =>
      if closed (Client.Done cl) then ret Return else ret Continue
  end.

(** writePump writes messages to the WebSocket: one iteration and, when
    the loop ends, the deferred close of the connection. *)
Definition writePump_step (client : cptr) (ev : WriteEvent) : M unit :=
  ctl <- writePump_body client ev ;;
  match ctl with
  | Continue => ret tt
  | Return => Conn_Close client
  end.

(** A panic of an HTTP handler is recovered by the server, which drops
    the connection and goes on serving; what the handler had done to the
    shared state stays done. *)
Definition recovered {A} (handler : M A) : M unit :=
  λ w, (fst (handler w), Ret tt).

(** ** Executions

    The goroutines of the process interleave at the granularity of the
    operations below: a connection being accepted, one read outcome being
    processed by a read pump (with its cleanup when the pump ends), one
    iteration of a write pump, time passing.  A panic in a pump is a panic
    of its goroutine and ends the execution. *)
Inductive Op : Type :=
  | Connect (auth : WebSocketAuthContext.t) (id : UUID)
  | Read (client : cptr) (session : sptr) (r : ReadResult)
  | Write (client : cptr) (ev : WriteEvent)
  | Tick (d : Z).

Definition step (op : Op) : M unit :=
  match op with
  | Connect auth id => recovered (HandleWebSocket auth id)
  | Read client session r => readPump client session [r]
  | Write client ev => writePump_step client ev
  | Tick d => modify (λ w, set_clock (clock w + d) w)
  end.

Fixpoint run (ops : list Op) : M unit :=
  match ops with
  | [] => ret tt
  | op :: rest => step op ;;; run rest
  end.

End Service.

(** The two operations on the registry, as a caller of package websocket
    can issue them. *)
Inductive HubOp : Type :=
  | AddClient (bookingID : UUID) (client : cptr)
  | RemoveClient (bookingID : UUID) (role : string).

Definition hub_step (op : HubOp) (w : World) : World :=
  match op with
  | AddClient bookingID client => fst (Hub_AddClient bookingID client w)
  | RemoveClient bookingID role => fst (Hub_RemoveClient bookingID role w)
  end.

Definition hub_run (ops : list HubOp) (w : World) : World :=
  foldl (λ w op, hub_step op w) w ops.

(** The process at start-up: an empty registry ([NewHub]) and no client;
    the table and the clock are whatever they are. *)
Definition NewWorld (table : gmap UUID VideoSession.t) (t : Time) : World :=
  mkWorld ∅ ∅ ∅ ∅ table t.

(** ** Runs of calls on one buffer, one connection state, one write pump *)

(** A run of [BufferMessage] calls on one connection state; the result
    lists the return values in call order. *)
Fixpoint BufferMessage_all (msgs : list WebSocketMessage.t) (cs : ConnectionState.t)
  : Go Arrays (ConnectionState.t * list bool) :=
  match msgs with
  | [] => ret (cs, [])
  | msg :: rest =>
      r <- BufferMessage msg cs ;;
      r' <- BufferMessage_all rest (fst r) ;;
      ret (fst r', snd r :: snd r')
  end.

(** The calls a holder of a [*ConnectionState] can make on it. *)
Inductive StateOp : Type :=
  | CallSetPeerConnectionReady (ready : bool)
  | CallSetSessionReadySent (sent : bool)
  | CallBufferMessage (msg : WebSocketMessage.t)
  | CallFlushBuffer.

Definition state_step (op : StateOp) (cs : ConnectionState.t) : Go Arrays ConnectionState.t :=
  match op with
  | CallSetPeerConnectionReady ready => ret (SetPeerConnectionReady ready cs)
  | CallSetSessionReadySent sent => ret (SetSessionReadySent sent cs)
  | CallBufferMessage msg => r <- BufferMessage msg cs ;; ret (fst r)
  | CallFlushBuffer => r <- FlushBuffer cs ;; ret (fst r)
  end.

Fixpoint state_run (ops : list StateOp) (cs : ConnectionState.t) : Go Arrays ConnectionState.t :=
  match ops with
  | [] => ret cs
  | op :: rest => cs' <- state_step op cs ;; state_run rest cs'
  end.

(** The loop of writePump on the select cases still to come, in the
    order in which the select takes them; [Continue] when they are used up
    and the pump is waiting in its select. *)
Fixpoint writePump_loop (client : cptr) (evs : list WriteEvent) : M LoopCtl :=
  match evs with
  | [] => ret Continue
  | ev :: rest =>
      ctl <- writePump_body client ev ;;
      match ctl with
      | Return => ret Return
      | Continue => writePump_loop client rest
      end
  end.

(** writePump writes messages to the WebSocket; its deferred function
    closes the connection when the loop ends. *)
Definition writePump (client : cptr) (evs : list WriteEvent) : M unit :=
  λ w, match writePump_loop client evs w with
       | (w', Ret Continue) => (w', Ret tt)
       | (w', Ret Return) => Conn_Close client w'
       | (w', Panic msg) => with_defer (Conn_Close client) (panic msg) w'
       end.

(** ** Package repositories: calls on the table

    The statements a caller of the repository can issue on the table,
    each for the booking it names. *)
Inductive RepoCall : Type :=
  | CallRecordMentorJoined (bookingID : UUID)
  | CallRecordUserJoined (bookingID : UUID)
  | CallRecordMentorLeft (bookingID : UUID)
  | CallRecordUserLeft (bookingID : UUID)
  | CallEndSession (bookingID : UUID) (durationSeconds : Z) (reason : string)
  | CallMarkActive (bookingID : UUID)
  | CallNow (t : Time).                 (* the clock moves to [t] *)

Definition repo_step (call : RepoCall) : M unit :=
  match call with
  | CallRecordMentorJoined b => _ <- Repo_RecordMentorJoined b ;; ret tt
  | CallRecordUserJoined b => _ <- Repo_RecordUserJoined b ;; ret tt
  | CallRecordMentorLeft b => _ <- Repo_RecordMentorLeft b ;; ret tt
  | CallRecordUserLeft b => _ <- Repo_RecordUserLeft b ;; ret tt
  | CallEndSession b d reason => _ <- Repo_EndSession b d reason ;; ret tt
  | CallMarkActive b => _ <- Repo_MarkActive b ;; ret tt
  | CallNow t => modify (set_clock t)
  end.

Fixpoint repo_run (calls : list RepoCall) : M unit :=
  match calls with
  | [] => ret tt
  | call :: rest => repo_step call ;;; repo_run rest
  end.

(** ** Package dtos and the service's GetSessionInfo *)

Module VideoSessionResponse.
Record t : Type := mk {
  ID : UUID;
  BookingID : UUID;
  MentorID : UUID;
  UserID : UUID;
  Status : string;
  DurationSeconds : Z
}.
End VideoSessionResponse.

(** [string(session.Status)]: the constants of package models. *)
Definition VideoSessionStatus_string (status : VideoSessionStatus) : string :=
  match status with
  | VideoSessionStatusWaiting => "waiting"
  | VideoSessionStatusActive => "active"
  | VideoSessionStatusCompleted => "completed"
  end.

(** GetSessionInfo returns info about a video session *)
Definition GetSessionInfo (bookingID : UUID) : M (VideoSessionResponse.t + error) :=
  r <- Repo_GetByBookingID bookingID ;;
  match r with
  | inr err => ret (inr err)
  | inl session =>
      ret (inl (VideoSessionResponse.mk
                  (VideoSession.ID session) (VideoSession.BookingID session)
                  (VideoSession.MentorID session) (VideoSession.UserID session)
                  (VideoSessionStatus_string (VideoSession.Status session))
                  (VideoSession.DurationSeconds session)))
  end.

(** ** Collaborators that are not among the sources

    The authentication middleware and ValidateAndStartSession call the
    booking, mentor and user repositories, the token parser and the time
    helpers of package utils, and packages uuid and time.  None of them is
    among the sources, so they are taken as parameters; of the records
    they return, the fields the callers read are kept.  The repositories
    are read, never written, by the code below, so a lookup is a function of
    its key; [ValidateSessionTime] is given the wall clock, which it has to
    read to decide whether the session window is open. *)

Module Booking.
Record t : Type := mk {
  UserID : UUID;
  MentorID : UUID;
  Status : string;
  BookingDate : Time;
  StartTime : Time;
  EndTime : Time
}.
End Booking.

Module MentorProfile.
Record t : Type := mk { ID : UUID }.
End MentorProfile.

Module User.
Record t : Type := mk { Username : string }.
End User.

Module Claims.
Record t : Type := mk { UserID : UUID }.
End Claims.

(** [*time.Location] *)
Definition Location : Type := N.

Class Collaborators : Type := {
  (* utils.ParseAccessToken(token, jwtSecret) *)
  ParseAccessToken : string → string → Claims.t + error;
  (* uuid.Parse *)
  uuid_Parse : string → UUID + error;
  (* bookingRepo.GetByID *)
  Booking_GetByID : UUID → Booking.t + error;
  (* mentorRepo.FindByUserID: the profile (nil is None) and the error *)
  Mentor_FindByUserID : UUID → option MentorProfile.t * option error;
  (* userRepo.FindByID: the user (nil is None) and the error *)
  User_FindByID : UUID → option User.t * option error;
  (* models.BookingStatusConfirmed *)
  BookingStatusConfirmed : string;
  (* time.LoadLocation *)
  time_LoadLocation : string → Location + error;
  (* time.Date(date.Year(), date.Month(), date.Day(), t.Hour(), t.Minute(),
     t.Second(), t.Nanosecond(), loc): the day of [date] with the time of
     day of [t], in the location *)
  time_Date_at : Time → Time → Location → Time;
  (* utils.ValidateSessionTime(start, end, timezone), at the wall clock *)
  ValidateSessionTime : Time → Time → Time → string → bool * string * option error;
  (* utils.FormatTimeInTimezone *)
  FormatTimeInTimezone : Time → string → string * option error;
  (* the value of the column duration_seconds in a row inserted without it *)
  duration_seconds_default : Z
}.

(** ** Package middlewares: WebSocketAuthMiddleware *)

(** The status codes of package net/http that the middleware uses. *)
Inductive StatusCode : Type :=
  | StatusUnauthorized
  | StatusBadRequest
  | StatusForbidden
  | StatusInternalServerError.

(** What the middleware does with a request: it aborts with a status
    and an error text, or stores the authentication context and calls the
    next handler. *)
Inductive MiddlewareResult : Type :=
  | AbortWithStatusJSON (code : StatusCode) (error : string)
  | Next (authCtx : WebSocketAuthContext.t).

Section Middleware.
Context `{!Collaborators}.

(** WebSocketAuthMiddleware authenticates WebSocket connections.
    [query] is [c.Query]; [mentorRepo] tells whether the mentor repository
    it was built with is non-nil. *)
Definition WebSocketAuthMiddleware (jwtSecret : string) (mentorRepo : bool)
    (query : string → string) : MiddlewareResult :=
  let token := query "token" in
  if decide (token = "") then
    AbortWithStatusJSON StatusUnauthorized "authentication required"
  else
    match ParseAccessToken token jwtSecret with
    | inr _ => AbortWithStatusJSON StatusUnauthorized "invalid or expired token"
    | inl claims =>
        let userID := Claims.UserID claims in
        let bookingIDStr := query "booking_id" in
        if decide (bookingIDStr = "") then
          AbortWithStatusJSON StatusBadRequest "booking_id required"
        else
          match uuid_Parse bookingIDStr with
          | inr _ => AbortWithStatusJSON StatusBadRequest "invalid booking_id format"
          | inl bookingID =>
              match Booking_GetByID bookingID with
              | inr _ => AbortWithStatusJSON StatusBadRequest "booking not found"
              | inl booking =>
                  let role := "" in
                  let role :=
                    if mentorRepo then
                      match Mentor_FindByUserID userID with
                      | (Some mentorProfile, None) =>
                          if decide (Booking.MentorID booking = MentorProfile.ID mentorProfile)
                          then "mentor" else role
                      | _ => role
                      end
                    else role in
                  let role :=
                    if decide (role = "" ∧ Booking.UserID booking = userID)
                    then "user" else role in
                  if decide (role = "") then
                    AbortWithStatusJSON StatusForbidden "not authorized for this booking"
                  else
                    match User_FindByID userID with
                    | (_, Some _) =>
                        AbortWithStatusJSON StatusInternalServerError "user not found"
                    | (None, None) =>
                        AbortWithStatusJSON StatusInternalServerError "invalid user profile"
                    | (Some user, None) =>
                        if decide (User.Username user = "") then
                          AbortWithStatusJSON StatusInternalServerError "invalid user profile"
                        else
                          Next (WebSocketAuthContext.mk userID (User.Username user)
                                  bookingID role (Booking.MentorID booking))
                    end
              end
          end
    end.

End Middleware.

(** ** Package repositories: Create; package services: ValidateAndStartSession *)

Module SessionInfoResponse.
Record t : Type := mk {
  CanJoin : bool;
  Message : string;
  StartTimeInTZ : string;
  EndTimeInTZ : string;
  OtherPartyJoined : bool;
  OtherPartyName : string
}.
End SessionInfoResponse.

Section Validation.
Context `{!Collaborators}.

(** Create a new video session: the INSERT names the four identifiers
    and the status, and stamps the creation and update times; the other
    columns take their defaults (NULL for the six timestamps).  It returns
    the record with the two times the statement returns.  The table holds
    one row per booking: an INSERT for a booking that has a row is refused
    by the table and changes nothing. *)
Definition Repo_Create (session : VideoSession.t) : M (VideoSession.t * option error) :=
  w <- get ;;
  match video_sessions w !! VideoSession.BookingID session with
  | Some _ => ret (session, Some (errors_New "duplicate key value"))
  | None =>
      now <- time_Now ;;
      let row :=
        VideoSession.mk (VideoSession.ID session) (VideoSession.BookingID session)
          (VideoSession.MentorID session) (VideoSession.UserID session)
          None None None None None None
          duration_seconds_default (VideoSession.Status session) now now in
      modify (set_video_sessions <[VideoSession.BookingID session := row]>) ;;;
      ret (VideoSession.mk (VideoSession.ID session) (VideoSession.BookingID session)
             (VideoSession.MentorID session) (VideoSession.UserID session)
             (VideoSession.SessionStartedAt session) (VideoSession.SessionEndedAt session)
             (VideoSession.MentorJoinedAt session) (VideoSession.UserJoinedAt session)
             (VideoSession.MentorLeftAt session) (VideoSession.UserLeftAt session)
             (VideoSession.DurationSeconds session) (VideoSession.Status session) now now,
           None)
  end.

(** ValidateAndStartSession validates booking time and creates/returns
    video session.  [id] is the value drawn by [uuid.New()]; [confirmed]
    is the part of the function that follows the two ownership checks. *)
Definition ValidateAndStartSession (bookingID userID : UUID) (role timezone : string)
    (id : UUID) : M (SessionInfoResponse.t + error) :=
  match Booking_GetByID bookingID with
  | inr _ => ret (inr (errors_New "booking not found"))
  | inl booking =>
      let confirmed : M (SessionInfoResponse.t + error) :=
        if decide (Booking.Status booking ≠ BookingStatusConfirmed) then
          ret (inr (errors_New "booking must be confirmed"))
        else
          let date := Booking.BookingDate booking in
          let start := Booking.StartTime booking in
          let end_ := Booking.EndTime booking in
          match time_LoadLocation timezone with
          | inr _ => ret (inr (errors_New "invalid timezone"))
          | inl loc =>
              let bookingStart := time_Date_at date start loc in
              let bookingEnd := time_Date_at date end_ loc in
              now <- time_Now ;;
              match ValidateSessionTime now bookingStart bookingEnd timezone with
              | (_, _, Some _) => ret (inr (errors_New "invalid timezone"))
              | (false, msg, None) =>
                  ret (inl (SessionInfoResponse.mk false msg "" "" false ""))
              | (true, _, None) =>
                  let startStr := fst (FormatTimeInTimezone bookingStart timezone) in
                  let endStr := fst (FormatTimeInTimezone bookingEnd timezone) in
                  existingSession <- Repo_GetByBookingID bookingID ;;
                  match existingSession with
                  | inl _ =>
                      session <- Hub_GetSession bookingID ;;
                      other <- match session with
                               | Some session =>
                                   otherParty <- Session_GetOtherClient session role ;;
                                   match otherParty with
                                   | Some otherParty =>
                                       oc <- getClient otherParty ;;
                                       ret (true, Client.Username oc)
                                   | None => ret (false, "")
                                   end
                               | None => ret (false, "")
                               end ;;
                      ret (inl (SessionInfoResponse.mk true "" startStr endStr
                                  (fst other) (snd other)))
                  | inr _ =>
                      let videoSession :=
                        VideoSession.mk id bookingID (Booking.MentorID booking)
                          (Booking.UserID booking) None None None None None None
                          0 VideoSessionStatusWaiting 0 0 in
                      r <- Repo_Create videoSession ;;
                      match snd r with
                      | Some _ => ret (inr (errors_New "failed to create video session"))
                      | None =>
                          ret (inl (SessionInfoResponse.mk true "" startStr endStr false ""))
                      end
                  end
              end
          end in
      if decide (role = "user" ∧ Booking.UserID booking ≠ userID) then
        ret (inr (errors_New "unauthorized"))
      else if decide (role = "mentor") then
        match Mentor_FindByUserID userID with
        | (Some mentorProfile, None) =>
            if decide (Booking.MentorID booking ≠ MentorProfile.ID mentorProfile)
            then ret (inr (errors_New "unauthorized"))
            else confirmed
        | _ => ret (inr (errors_New "unauthorized"))
        end
      else confirmed
  end.

End Validation.

(** ** Vocabulary of the statements *)

(** The shape every buffer has between calls: its slice sits on an
    allocated array of exactly [maxSize] cells. *)
Definition mb_ok (A : Arrays) (mb : MessageBuffer.t) : Prop :=
  let s := MessageBuffer.messages mb in
  ∃ cells, A !! arr s = Some cells ∧ length cells = cap s ∧
           (len s ≤ cap s)%nat ∧ Z.of_nat (cap s) = MessageBuffer.maxSize mb.

(** The duration EndSession persists for a row read at time [now]. *)
Definition persisted_duration `{!TimeLib} (r : VideoSession.t) (now : Time) : Z :=
  match VideoSession.SessionStartedAt r, VideoSession.SessionEndedAt r with
  | Some started, None => Seconds_Since now started
  | _, _ => 0
  end.

(** The row after it has been marked completed at time [now]. *)
Definition completed_row (r : VideoSession.t) (now : Time) (duration : Z) : VideoSession.t :=
  VideoSession.mk (VideoSession.ID r) (VideoSession.BookingID r)
    (VideoSession.MentorID r) (VideoSession.UserID r)
    (VideoSession.SessionStartedAt r) (Some now)
    (VideoSession.MentorJoinedAt r) (VideoSession.UserJoinedAt r)
    (VideoSession.MentorLeftAt r) (VideoSession.UserLeftAt r)
    duration VideoSessionStatusCompleted
    (VideoSession.CreatedAt r) now.

(** A client's outbound queue after [message] has been enqueued. *)
Definition enqueued (message : OutMessage.t) (cl : Client.t) : Client.t :=
  Client.set_Send (λ ch, mkChan (sent ch ++ [message]) (recvd ch) (chan_cap ch) false) cl.

(** The occupant of the slot of a role, as AddClient and SendToRole
    select it. *)
Definition slot_of (role : string) (se : Session.t) : option cptr :=
  if decide (role = "mentor") then Session.Mentor se else Session.User se.

(** The session_ready envelope. *)
Definition session_ready (other_party_name role : string) : OutMessage.t :=
  OutMessage.mk "session_ready"
    (PSessionReady (SessionReadyPayload.mk other_party_name role)).

(** What sendSessionReady does to one party: nothing when the party is
    already flagged or its queue is full, else the notice is enqueued and
    the party flagged. *)
Definition notice_due (cl : Client.t) : bool :=
  negb (HasSessionReadySent (Client.ConnectionState cl)) &&
  negb (chan_full (Client.Send cl)).

Definition notified (notice : OutMessage.t) (cl : Client.t) : Client.t :=
  if notice_due cl
  then Client.set_ConnectionState (SetSessionReadySent true) (enqueued notice cl)
  else cl.

(** Every slot holds an allocated client of the slot's role: the mentor
    slot a client whose role is "mentor", the user slot one whose role is
    not (AddClient files every other role under the user slot). *)
Definition slot_roles (w : World) : Prop :=
  ∀ s se, sessions w !! s = Some se →
    (∀ c, Session.Mentor se = Some c →
          ∃ cl, clients w !! c = Some cl ∧ Client.Role cl = "mentor") ∧
    (∀ c, Session.User se = Some c →
          ∃ cl, clients w !! c = Some cl ∧ Client.Role cl ≠ "mentor").


(** The slot opposite to a role: the user slot for the mentor, the
    mentor slot for the user. *)
Definition opposite_slot (role : string) (se : Session.t) : option cptr :=
  if decide (role = "mentor") then Session.User se else Session.Mentor se.

(** The number of session_ready notices ever enqueued for a client. *)
Definition is_session_ready (message : OutMessage.t) : bool :=
  bool_decide (OutMessage.type message = "session_ready").

Definition ready_count (cl : Client.t) : nat :=
  length (filter (λ message, is_session_ready message = true) (sent (Client.Send cl))).

(** A client has been sent at most one notice, and none while its flag
    is still false. *)
Definition ready_ok (cl : Client.t) : Prop :=
  (ready_count cl ≤ 1)%nat ∧
  (HasSessionReadySent (Client.ConnectionState cl) = false → ready_count cl = 0%nat).

Definition ready_once (w : World) : Prop :=
  ∀ c cl, clients w !! c = Some cl → ready_ok cl.

Definition wf (w : World) : Prop := slot_roles w ∧ ready_once w.

(** Clients are never deallocated and a client's role never changes. *)
Definition evolves (w w' : World) : Prop :=
  ∀ c cl, clients w !! c = Some cl →
    ∃ cl', clients w' !! c = Some cl' ∧ Client.Role cl' = Client.Role cl.

(** [keeps_from P m]: from a well-formed world that satisfies [P], the
    computation [m] ends (by a return or by a panic) in a well-formed world
    that evolves from it. *)
Definition keeps_from {A} (P : World → Prop) (m : M A) : Prop :=
  ∀ w, P w → wf w → ∀ w' r, m w = (w', r) → wf w' ∧ evolves w w'.

Definition keeps {A} (m : M A) : Prop := keeps_from (λ _, True) m.

Definition is_mentor (c : cptr) (w : World) : Prop :=
  ∃ cl, clients w !! c = Some cl ∧ Client.Role cl = "mentor".

Definition not_mentor (c : cptr) (w : World) : Prop :=
  ∃ cl, clients w !! c = Some cl ∧ Client.Role cl ≠ "mentor".

(** An update of a client that leaves its role, its count of notices and
    a raised flag alone. *)
Definition quiet_at (f : Client.t → Client.t) (cl : Client.t) : Prop :=
  Client.Role (f cl) = Client.Role cl ∧
  ready_count (f cl) = ready_count cl ∧
  (HasSessionReadySent (Client.ConnectionState (f cl)) = false →
   HasSessionReadySent (Client.ConnectionState cl) = false).

(** An update of a client that keeps its role and its notice discipline. *)
Definition tame_at (f : Client.t → Client.t) (cl : Client.t) : Prop :=
  Client.Role (f cl) = Client.Role cl ∧ (ready_ok cl → ready_ok (f cl)).


(** The registry invariant: every registered Session is allocated, is
    registered under its own booking identifier, and has an occupied
    slot. *)
Definition registry_inv (w : World) : Prop :=
  ∀ b s, hub w !! b = Some s →
    ∃ se, sessions w !! s = Some se ∧ Session.BookingID se = b ∧
          (Session.Mentor se ≠ None ∨ Session.User se ≠ None).

(** The client pointers handed to AddClient are allocated. *)
Definition clients_allocated (w : World) (ops : list HubOp) : Prop :=
  Forall (λ op, match op with
                | AddClient _ c => is_Some (clients w !! c)
                | RemoveClient _ _ => True
                end) ops.

(** [only_clients m]: the computation [m] changes neither the sessions nor
    the registry, and deallocates no client. *)
Definition only_clients {A} (m : M A) : Prop :=
  ∀ w w' r, m w = (w', r) →
    sessions w' = sessions w ∧ hub w' = hub w ∧
    (∀ c, is_Some (clients w !! c) → is_Some (clients w' !! c)).

(** A client after Close: both channels and the connection closed. *)
Definition closed_client (cl : Client.t) : Client.t :=
  Client.mk (Client.ID cl) (Client.BookingID cl) (Client.Role cl) (Client.UserID cl)
    (Client.MentorID cl) (Client.Username cl)
    (Conn.mk true (Conn.written (Client.Conn cl)))
    (mkChan (sent (Client.Send cl)) (recvd (Client.Send cl)) (chan_cap (Client.Send cl)) true)
    (mkChan (sent (Client.Done cl)) (recvd (Client.Done cl)) (chan_cap (Client.Done cl)) true)
    (Client.ConnectionState cl).

(** The session after AddClient has given the slot of a role to a client. *)
Definition fill_slot_of (role : string) (client : cptr) (se : Session.t) : Session.t :=
  if decide (role = "mentor") then Session.set_Mentor (Some client) se
  else Session.set_User (Some client) se.

(** The envelopes the server builds itself. *)
Definition other_party_left (bookingID : UUID) : OutMessage.t :=
  OutMessage.mk "other_party_left" (PBookingID bookingID).

Definition pong : OutMessage.t := OutMessage.mk "pong" PEmpty.

(** The session after RemoveClient has emptied the slot of a role. *)
Definition clear_slot_of (role : string) (se : Session.t) : Session.t :=
  if decide (role = "mentor") then Session.set_Mentor None se else Session.set_User None se.

(** The row after the departure of a role has been recorded at [now]. *)
Definition left_row (role : string) (now : Time) (r : VideoSession.t) : VideoSession.t :=
  VideoSession.mk (VideoSession.ID r) (VideoSession.BookingID r)
    (VideoSession.MentorID r) (VideoSession.UserID r)
    (VideoSession.SessionStartedAt r) (VideoSession.SessionEndedAt r)
    (VideoSession.MentorJoinedAt r) (VideoSession.UserJoinedAt r)
    (if decide (role = "mentor") then Some now else VideoSession.MentorLeftAt r)
    (if decide (role = "mentor") then VideoSession.UserLeftAt r else Some now)
    (VideoSession.DurationSeconds r) (VideoSession.Status r)
    (VideoSession.CreatedAt r) now.

(** A client whose write pump has taken every message waiting in its
    queue and written it on the connection. *)
Definition delivered (cl : Client.t) : Client.t :=
  Client.set_Conn
    (λ cn, Conn.mk (Conn.closed cn)
             (Conn.written cn ++ map WriteJSON (pending (Client.Send cl))))
    (Client.set_Send
       (λ ch, mkChan (sent ch) (recvd ch + length (pending ch)) (chan_cap ch) (closed ch))
       cl).


(** The two ways in which the loop of the read pump ends: a failed read,
    and a frame of type leave_call. *)
Definition ends_pump `{!JSON} (r : ReadResult) : Prop :=
  match r with
  | ReadError => True
  | ReadJSON rawMsg =>
      ∃ msg, unmarshal_message rawMsg = Some msg ∧
             WebSocketMessage.Type_ msg = "leave_call"
  end.

(** The row after the arrival of a role has been recorded at [now]. *)
Definition joined_row (role : string) (now : Time) (r : VideoSession.t) : VideoSession.t :=
  VideoSession.mk (VideoSession.ID r) (VideoSession.BookingID r)
    (VideoSession.MentorID r) (VideoSession.UserID r)
    (VideoSession.SessionStartedAt r) (VideoSession.SessionEndedAt r)
    (if decide (role = "mentor") then Some now else VideoSession.MentorJoinedAt r)
    (if decide (role = "mentor") then VideoSession.UserJoinedAt r else Some now)
    (VideoSession.MentorLeftAt r) (VideoSession.UserLeftAt r)
    (VideoSession.DurationSeconds r) (VideoSession.Status r)
    (VideoSession.CreatedAt r) now.

(** The client object HandleWebSocket creates for an authenticated
    connection, with its message buffer on the array [a]. *)
Definition new_client (auth : WebSocketAuthContext.t) (id : UUID) (a : positive) : Client.t :=
  Client.mk id (WebSocketAuthContext.BookingID auth) (WebSocketAuthContext.Role auth)
    (WebSocketAuthContext.UserID auth) (WebSocketAuthContext.MentorID auth)
    (WebSocketAuthContext.Username auth)
    (Conn.mk false []) (make_chan 256) (make_chan 0)
    (ConnectionState.mk false false true (MessageBuffer.mk (mkSlice a 0 100) 100)).

(** *** Histories

    [chan_grows ch ch']: the channel [ch'] is a later state of [ch].  What
    was enqueued stays enqueued, in the same order; the capacity is fixed;
    a closed channel stays closed and takes nothing more. *)
Definition chan_grows {T} (ch ch' : Chan T) : Prop :=
  sent ch `prefix_of` sent ch' ∧
  (recvd ch ≤ recvd ch')%nat ∧
  chan_cap ch' = chan_cap ch ∧
  (closed ch = true → closed ch' = true ∧ sent ch' = sent ch).

(** A later state of a connection: what was written stays written, and
    nothing is written once the connection is closed. *)
Definition conn_grows (cn cn' : Conn.t) : Prop :=
  Conn.written cn `prefix_of` Conn.written cn' ∧
  (Conn.closed cn = true → Conn.closed cn' = true ∧ Conn.written cn' = Conn.written cn).

(** A later state of a connection state in which nothing but the
    session_ready flag has been touched, and that flag has not been
    lowered. *)
Definition state_grows (cs cs' : ConnectionState.t) : Prop :=
  ConnectionState.PeerConnectionReady cs' = ConnectionState.PeerConnectionReady cs ∧
  ConnectionState.MessageBufferActive cs' = ConnectionState.MessageBufferActive cs ∧
  ConnectionState.messageBuffer cs' = ConnectionState.messageBuffer cs ∧
  (ConnectionState.SessionReadySent cs = true → ConnectionState.SessionReadySent cs' = true).

(** A later state of a client: the same identity, and grown channels,
    connection and connection state. *)
Definition client_grows (cl cl' : Client.t) : Prop :=
  Client.ID cl' = Client.ID cl ∧
  Client.BookingID cl' = Client.BookingID cl ∧
  Client.Role cl' = Client.Role cl ∧
  Client.UserID cl' = Client.UserID cl ∧
  Client.MentorID cl' = Client.MentorID cl ∧
  Client.Username cl' = Client.Username cl ∧
  conn_grows (Client.Conn cl) (Client.Conn cl') ∧
  chan_grows (Client.Send cl) (Client.Send cl') ∧
  chan_grows (Client.Done cl) (Client.Done cl') ∧
  state_grows (Client.ConnectionState cl) (Client.ConnectionState cl').

(** A later state of a Session: only its two slots may differ. *)
Definition session_grows (se se' : Session.t) : Prop :=
  Session.BookingID se' = Session.BookingID se ∧
  Session.StartTime se' = Session.StartTime se ∧
  Session.MaxDuration se' = Session.MaxDuration se ∧
  Session.Done se' = Session.Done se.

(** A later state of a row of the table: the identifiers, the creation
    time and the start time are what they were; either the status, the
    duration and the end time are untouched, or the row has been completed,
    and then with duration zero unless it had a start time and no end
    time. *)
Definition row_grows (r r' : VideoSession.t) : Prop :=
  VideoSession.ID r' = VideoSession.ID r ∧
  VideoSession.BookingID r' = VideoSession.BookingID r ∧
  VideoSession.MentorID r' = VideoSession.MentorID r ∧
  VideoSession.UserID r' = VideoSession.UserID r ∧
  VideoSession.CreatedAt r' = VideoSession.CreatedAt r ∧
  VideoSession.SessionStartedAt r' = VideoSession.SessionStartedAt r ∧
  ((VideoSession.Status r' = VideoSession.Status r ∧
    VideoSession.DurationSeconds r' = VideoSession.DurationSeconds r ∧
    VideoSession.SessionEndedAt r' = VideoSession.SessionEndedAt r) ∨
   (VideoSession.Status r' = VideoSessionStatusCompleted ∧
    is_Some (VideoSession.SessionEndedAt r') ∧
    (VideoSession.SessionStartedAt r = None ∨ is_Some (VideoSession.SessionEndedAt r) →
     VideoSession.DurationSeconds r' = 0))).

(** [advances w w']: the world [w'] is a later state of [w].  The arrays
    of [w] hold what they held; every client and Session of [w] is still
    allocated, in a later state; a client of [w'] that [w] did not have is
    a later state of a client as HandleWebSocket creates it; the table has
    the same bookings, each row in a later state. *)
Definition advances (w w' : World) : Prop :=
  (∀ a cells, arrays w !! a = Some cells → arrays w' !! a = Some cells) ∧
  (∀ c cl, clients w !! c = Some cl →
     ∃ cl', clients w' !! c = Some cl' ∧ client_grows cl cl') ∧
  (∀ c cl', clients w' !! c = Some cl' → clients w !! c = None →
     ∃ auth id a, arrays w !! a = None ∧ client_grows (new_client auth id a) cl') ∧
  (∀ s se, sessions w !! s = Some se →
     ∃ se', sessions w' !! s = Some se' ∧ session_grows se se') ∧
  (∀ b, match video_sessions w !! b, video_sessions w' !! b with
        | Some r, Some r' => row_grows r r'
        | None, None => True
        | _, _ => False
        end).

(** [adv m]: the computation [m] only advances the world, whether it
    returns or panics. *)
Definition adv {A} (m : M A) : Prop :=
  ∀ w w' r, m w = (w', r) → advances w w'.

(** [keeps_registry m]: the computation [m] keeps the registry
    invariant, whether it returns or panics. *)
Definition keeps_registry {A} (m : M A) : Prop :=
  ∀ w w' r, m w = (w', r) → registry_inv w → registry_inv w'.

(** The order in which a session goes through its statuses. *)
Definition status_rank (status : VideoSessionStatus) : nat :=
  match status with
  | VideoSessionStatusWaiting => 0
  | VideoSessionStatusActive => 1
  | VideoSessionStatusCompleted => 2
  end.


(** The mentor of a booking, as the middleware establishes it: the
    mentor profile of the user is the booking's mentor. *)
Definition owns_as_mentor `{!Collaborators} (userID : UUID) (booking : Booking.t) : Prop :=
  ∃ mentorProfile, Mentor_FindByUserID userID = (Some mentorProfile, None) ∧
                   Booking.MentorID booking = MentorProfile.ID mentorProfile.

(** ** Sample data for the examples

    A stand-in for the two library interfaces, so that executions can be
    evaluated: elapsed whole seconds by integer division, and a frame
    format in which the first character selects the message type and the
    rest of the text is the SDP or candidate string. *)
Definition sample_time : TimeLib :=
  {| Seconds_Since := λ now t, (now - t) `quot` 1000000000 |}.

Definition sample_type (tag : Ascii.ascii) : string :=
  if decide (tag = "o"%char) then "offer"
  else if decide (tag = "a"%char) then "answer"
  else if decide (tag = "i"%char) then "ice_candidate"
  else if decide (tag = "l"%char) then "leave_call"
  else if decide (tag = "p"%char) then "ping"
  else "unknown".

Definition sample_json : JSON :=
  {| unmarshal_message := λ raw,
       match raw with
       | String tag rest => Some (WebSocketMessage.mk (sample_type tag) rest)
       | EmptyString => None
       end;
     unmarshal_offer := λ raw, Some (RTCOfferPayload.mk raw);
     unmarshal_answer := λ raw, Some (RTCAnswerPayload.mk raw);
     unmarshal_ice := λ raw, Some (ICECandidatePayload.mk raw None None) |}.

Definition booking_X : UUID := 7%N.

Definition auth_alice : WebSocketAuthContext.t :=
  WebSocketAuthContext.mk 101%N "alice" booking_X "mentor" 55%N.
Definition auth_bob : WebSocketAuthContext.t :=
  WebSocketAuthContext.mk 102%N "bob" booking_X "user" 55%N.
Definition auth_alice_again : WebSocketAuthContext.t :=
  WebSocketAuthContext.mk 101%N "alice" booking_X "mentor" 55%N.

Definition sample_run (ops : list Op) (w : World) : World * Outcome unit :=
  @run sample_time sample_json ops w.

(** Alice (mentor) and Bob (user) join booking X: their clients are at
    addresses 1 and 2, the session at address 1. *)
Definition trace_both_joined : list Op :=
  [Connect auth_alice 1001%N; Connect auth_bob 1002%N].

Definition world_both_joined : World :=
  fst (sample_run trace_both_joined (NewWorld ∅ 0)).

(** Then Alice's read pump fails: its cleanup notifies and closes Bob,
    who stays in the user slot until his own read pump cleans up. *)
Definition trace_peer_closed : list Op :=
  trace_both_joined ++ [Read 1%positive 1%positive ReadError].

Definition world_peer_closed : World :=
  fst (sample_run trace_peer_closed (NewWorld ∅ 0)).

(** Rows of the table for booking X: one that is waiting, and one that
    has been started at second 10 and not yet ended. *)
Definition row_waiting : VideoSession.t :=
  VideoSession.mk 900%N booking_X 55%N 102%N
    None None None None None None
    0 VideoSessionStatusWaiting 0 0.

Definition row_started : VideoSession.t :=
  VideoSession.mk 900%N booking_X 55%N 102%N
    (Some 10000000000) None None None None None
    0 VideoSessionStatusActive 0 10000000000.

Definition sample_message : OutMessage.t :=
  OutMessage.mk "offer" (POffer (RTCOfferPayload.mk "v=0")).

(** The table after the session of booking X has been marked active at
    second 10 and ended a first time at second 50 (duration 40), read again
    at second 60. *)
Definition world_row_ended : World :=
  fst ((Repo_MarkActive booking_X ;;;
        modify (set_clock 50000000000) ;;;
        @EndSession sample_time booking_X "party_left" ;;;
        modify (set_clock 60000000000))
         (NewWorld {[booking_X := row_waiting]} 10000000000)).

(** Bob's browser reconnects while his closed client is still in the
    user slot: the world in which his second connection has been accepted
    and its client object (address 3) created. *)
Definition world_bob_rejoining : World :=
  fst (HandleWebSocket auth_bob 1003%N world_peer_closed).

(** Two clients that have been created but not registered, and the world
    in which AddClient has put both in the slots of booking X. *)
Definition sample_client (auth : WebSocketAuthContext.t) (id : UUID) (a : positive)
  : Client.t :=
  Client.mk id (WebSocketAuthContext.BookingID auth) (WebSocketAuthContext.Role auth)
    (WebSocketAuthContext.UserID auth) (WebSocketAuthContext.MentorID auth)
    (WebSocketAuthContext.Username auth)
    (Conn.mk false []) (make_chan 256) (make_chan 0)
    (ConnectionState.mk false false true (MessageBuffer.mk (mkSlice a 0 100) 100)).

Definition world_two_clients : World :=
  set_clients (λ _, {[ 1%positive := sample_client auth_alice 1001%N 1;
                       2%positive := sample_client auth_bob 1002%N 2 ]})
    (NewWorld ∅ 0).

Definition world_in_slots : World :=
  hub_run [AddClient booking_X 1%positive; AddClient booking_X 2%positive]
    world_two_clients.

(** Alice reconnects as the mentor of booking X after her first
    connection has left, while Bob's closed client still holds the user
    slot and keeps the Session registered. *)
Definition trace_mentor_rejoins : list Op :=
  trace_peer_closed ++ [Connect auth_alice_again 1003%N].

(** Alice opens a second mentor connection while the first is in its
    slot (the first is closed by AddClient), and the read pump of the first
    connection then runs its cleanup. *)
Definition trace_preempted : list Op :=
  trace_both_joined ++ [Connect auth_alice_again 1003%N].

Definition trace_preempted_cleanup : list Op :=
  trace_preempted ++ [Read 1%positive 1%positive ReadError].

(** A buffer of capacity two on an empty array store. *)
Definition sample_arrays : Arrays := fst (NewMessageBuffer 2 ∅).

Definition sample_buffer : MessageBuffer.t :=
  MessageBuffer.mk (mkSlice 1 0 2) 2.

Definition sample_hub_ops : list HubOp :=
  [AddClient booking_X 1%positive; AddClient booking_X 2%positive;
   RemoveClient booking_X "mentor"; AddClient 8%N 1%positive;
   RemoveClient booking_X "user"].

(** Three signaling messages, and a connection state whose buffer is the
    sample buffer. *)
Definition sample_msgs : list WebSocketMessage.t :=
  [WebSocketMessage.mk "offer" "a"; WebSocketMessage.mk "answer" "b";
   WebSocketMessage.mk "ice_candidate" "c"].

Definition sample_state : ConnectionState.t :=
  ConnectionState.mk false false true sample_buffer.

Definition sample_state_ops : list StateOp :=
  [CallSetPeerConnectionReady false; CallBufferMessage (WebSocketMessage.mk "offer" "a");
   CallSetSessionReadySent true; CallFlushBuffer].

(** The state after the calls above have been made on the sample state
    with buffering switched off: the flag of the third call is set, and the
    flush has moved the buffer to a new array. *)
Definition sample_state_final : ConnectionState.t :=
  ConnectionState.mk false true false (MessageBuffer.mk (mkSlice 2 0 2) 2).

(** The registry after Alice alone has been registered for booking X,
    and after both roles have been removed again. *)
Definition world_alice_in_slot : World :=
  hub_run [AddClient booking_X 1%positive] world_two_clients.

Definition world_slots_emptied : World :=
  hub_run [RemoveClient booking_X "mentor"; RemoveClient booking_X "user"] world_in_slots.

(** What happens after Alice's departure has closed Bob: his write pump
    takes the select case of the queue, and time passes. *)
Definition trace_after_close : list Op :=
  [Write 2%positive SendReady; Tick 5000000000; Write 2%positive TickerC].

(** Alice relays an offer to Bob, whose write pump writes it. *)
Definition trace_relay : list Op :=
  [Read 1%positive 1%positive (ReadJSON "ov=0"); Write 2%positive SendReady;
   Write 2%positive SendReady].

(** A stand-in for the collaborators: Alice (user 101) has the mentor
    profile 55, Bob (user 102) has none; booking X is Bob's with mentor 55
    and is confirmed; the session window is open between the start and the
    end of the booking. *)
Definition sample_booking : Booking.t :=
  Booking.mk 102%N 55%N "confirmed" 0 36000000000000 37800000000000.

Definition sample_collaborators : Collaborators :=
  {| ParseAccessToken := λ token jwtSecret,
       if decide (jwtSecret ≠ "s3cret") then inr (errors_New "signature is invalid")
       else if decide (token = "alice") then inl (Claims.mk 101%N)
       else if decide (token = "bob") then inl (Claims.mk 102%N)
       else inr (errors_New "token is malformed");
     uuid_Parse := λ s,
       if decide (s = "X") then inl booking_X else inr (errors_New "invalid UUID");
     Booking_GetByID := λ bookingID,
       if decide (bookingID = booking_X) then inl sample_booking
       else inr (errors_New "booking not found");
     Mentor_FindByUserID := λ userID,
       if decide (userID = 101%N) then (Some (MentorProfile.mk 55%N), None)
       else (None, None);
     User_FindByID := λ userID,
       if decide (userID = 101%N) then (Some (User.mk "alice"), None)
       else if decide (userID = 102%N) then (Some (User.mk "bob"), None)
       else (None, None);
     BookingStatusConfirmed := "confirmed";
     time_LoadLocation := λ name,
       if decide (name = "") then inr (errors_New "unknown time zone") else inl 0%N;
     time_Date_at := λ date t loc, date + t;
     ValidateSessionTime := λ now start end_ timezone,
       if decide (now < start) then (false, "session has not started", None)
       else if decide (end_ < now) then (false, "session has ended", None)
       else (true, "", None);
     FormatTimeInTimezone := λ t timezone, (timezone, None);
     duration_seconds_default := 0 |}.

(** The query of Alice's request for booking X. *)
Definition query_alice (key : string) : string :=
  if decide (key = "token") then "alice"
  else if decide (key = "booking_id") then "X"
  else "".

(** The table is used for booking X: the session is started, time
    passes, it is ended after 40 seconds, and a late MarkActive follows. *)
Definition sample_calls : list RepoCall :=
  [CallRecordMentorJoined booking_X; CallMarkActive booking_X; CallNow 40000000000;
   CallEndSession booking_X 40 "party_left"; CallMarkActive booking_X].

(** * Properties *)

(** ** The message buffer *)

Lemma NewMessageBuffer_ok (n : Z) (A : Arrays) :
  0 ≤ n →
  ∃ A' mb, NewMessageBuffer n A = (A', Ret mb) ∧ mb_ok A' mb ∧
           len (MessageBuffer.messages mb) = 0%nat ∧ MessageBuffer.maxSize mb = n ∧
           (arr (MessageBuffer.messages mb) ∉ dom A) ∧
           (∀ a, a ∈ dom A → A' !! a = A !! a).
Proof.
  intros Hn. unfold NewMessageBuffer, bind, make.
  destruct (decide (n < 0)) as [?|_]; [lia|].
  eexists _, _. split; [reflexivity|]. cbn.
  repeat split.
  - exists (replicate (Z.to_nat n) zeroMessage). cbn.
    rewrite lookup_insert_eq, length_replicate. repeat split; [lia | lia].
  - apply is_fresh.
  - intros a Ha. rewrite lookup_insert_ne; [done|].
    intros <-. by apply is_fresh in Ha.
Qed.

Lemma MessageBuffer_Add_full (msg : WebSocketMessage.t) (mb : MessageBuffer.t) (A : Arrays) :
  Z.of_nat (len (MessageBuffer.messages mb)) >= MessageBuffer.maxSize mb →
  MessageBuffer_Add msg mb A = (A, Ret (mb, Some ErrMessageBufferFull)).
Proof.
  intros H. unfold MessageBuffer_Add. by destruct (decide _).
Qed.

Lemma MessageBuffer_Add_room (msg : WebSocketMessage.t) (mb : MessageBuffer.t) (A : Arrays) :
  mb_ok A mb →
  Z.of_nat (len (MessageBuffer.messages mb)) < MessageBuffer.maxSize mb →
  ∃ A' mb', MessageBuffer_Add msg mb A = (A', Ret (mb', None)) ∧ mb_ok A' mb' ∧
    contents A' (MessageBuffer.messages mb') = contents A (MessageBuffer.messages mb) ++ [msg] ∧
    arr (MessageBuffer.messages mb') = arr (MessageBuffer.messages mb) ∧
    (∀ a, a ≠ arr (MessageBuffer.messages mb) → A' !! a = A !! a).
Proof.
  intros (cells & Hc & Hlen & Hle & Hcap) Hroom.
  unfold MessageBuffer_Add. destruct (decide _) as [?|_]; [lia|].
  unfold bind, append. destruct (decide _) as [Hlt|?]; [|lia].
  eexists _, _. split; [reflexivity|]. cbn. repeat split.
  - exists (<[len (MessageBuffer.messages mb) := msg]> cells). cbn.
    rewrite lookup_alter_eq, Hc. cbn. rewrite length_insert. repeat split; [done | lia | done].
  - unfold contents. cbn. rewrite lookup_alter_eq, Hc. cbn.
    erewrite take_S_r; [|apply list_lookup_insert_eq; lia].
    by rewrite take_insert_ge.
  - intros a Ha. by rewrite lookup_alter_ne.
Qed.

Lemma MessageBuffer_AddAll_spec (msgs : list WebSocketMessage.t) :
  ∀ (mb : MessageBuffer.t) (A : Arrays),
  mb_ok A mb →
  ∃ A' mb' added, MessageBuffer_AddAll msgs mb A = (A', Ret (mb', added)) ∧ mb_ok A' mb' ∧
    contents A' (MessageBuffer.messages mb') = contents A (MessageBuffer.messages mb) ++ added ∧
    added = take (Z.to_nat (MessageBuffer.maxSize mb) - len (MessageBuffer.messages mb)) msgs ∧
    arr (MessageBuffer.messages mb') = arr (MessageBuffer.messages mb) ∧
    MessageBuffer.maxSize mb' = MessageBuffer.maxSize mb ∧
    (∀ a, a ≠ arr (MessageBuffer.messages mb) → A' !! a = A !! a).
Proof.
  induction msgs as [|msg rest IH]; intros mb A Hok.
  - eexists A, mb, []. cbn. rewrite app_nil_r, take_nil. done.
  - destruct (decide (Z.of_nat (len (MessageBuffer.messages mb)) >= MessageBuffer.maxSize mb))
      as [Hfull|Hroom].
    + destruct (IH mb A Hok) as (A' & mb' & added & Hrun & Hok' & Hc & Hadd & Harr & Hmax & Hfr).
      exists A', mb', added. cbn [MessageBuffer_AddAll]. unfold bind at 1.
      rewrite (MessageBuffer_Add_full _ _ _ Hfull). cbn [fst snd].
      unfold bind at 1. rewrite Hrun. cbn. repeat split; try done.
      rewrite Hadd.
      replace (Z.to_nat (MessageBuffer.maxSize mb) - len (MessageBuffer.messages mb))%nat
        with 0%nat by lia.
      by rewrite !take_0.
    + destruct (MessageBuffer_Add_room msg mb A Hok ltac:(lia))
        as (A1 & mb1 & Hadd1 & Hok1 & Hc1 & Harr1 & Hfr1).
      destruct (IH mb1 A1 Hok1) as (A' & mb' & added & Hrun & Hok' & Hc & Hadd & Harr & Hmax & Hfr).
      exists A', mb', (msg :: added). cbn [MessageBuffer_AddAll]. unfold bind at 1.
      rewrite Hadd1. cbn [fst snd]. unfold bind at 1. rewrite Hrun. cbn.
      assert (Hlen1 : len (MessageBuffer.messages mb1) = S (len (MessageBuffer.messages mb))).
      { revert Hadd1. unfold MessageBuffer_Add. destruct (decide _); [lia|].
        unfold bind, append. destruct (decide _); cbn; intros [= <- <-]; done. }
      assert (Hmax1 : MessageBuffer.maxSize mb1 = MessageBuffer.maxSize mb).
      { revert Hadd1. unfold MessageBuffer_Add. destruct (decide _); [lia|].
        unfold bind, append. destruct (decide _); cbn; intros [= <- <-]; done. }
      repeat split; try done.
      * rewrite Hc, Hc1, <- app_assoc. done.
      * rewrite Hadd, Hlen1, Hmax1.
        replace (Z.to_nat (MessageBuffer.maxSize mb) - len (MessageBuffer.messages mb))%nat
          with (S (Z.to_nat (MessageBuffer.maxSize mb) - S (len (MessageBuffer.messages mb))))
          by lia.
        done.
      * congruence.
      * congruence.
      * intros a Ha. rewrite Hfr by congruence. by apply Hfr1.
Qed.

Lemma MessageBuffer_Flush_spec (mb : MessageBuffer.t) (A : Arrays) :
  mb_ok A mb →
  ∃ A' mb', MessageBuffer_Flush mb A = (A', Ret (mb', MessageBuffer.messages mb)) ∧
    contents A' (MessageBuffer.messages mb) = contents A (MessageBuffer.messages mb) ∧
    mb_ok A' mb' ∧ len (MessageBuffer.messages mb') = 0%nat ∧
    contents A' (MessageBuffer.messages mb') = [] ∧
    MessageBuffer.maxSize mb' = MessageBuffer.maxSize mb ∧
    arr (MessageBuffer.messages mb') ≠ arr (MessageBuffer.messages mb).
Proof.
  intros (cells & Hc & Hlen & Hle & Hcap).
  unfold MessageBuffer_Flush, bind, make.
  destruct (decide _) as [?|_]; [lia|].
  assert (Hne : fresh (dom A) ≠ arr (MessageBuffer.messages mb)).
  { intros Heq. apply (is_fresh (dom A)). rewrite Heq. apply elem_of_dom. eauto. }
  eexists _, _. split; [reflexivity|]. cbn. repeat split.
  - unfold contents. by rewrite lookup_insert_ne.
  - eexists. cbn. rewrite lookup_insert_eq. repeat split; [|lia|lia].
    by rewrite length_replicate.
  - done.
Qed.

(** C6: Add on a buffer at capacity fails with ErrMessageBufferFull and
    changes neither the buffer nor the array store; from an empty buffer
    (just created or just flushed), after any run of Add calls, Flush
    returns exactly the messages whose Add succeeded, in insertion order,
    and leaves an empty buffer on a different backing array, so that no
    later run of Add calls changes what the returned slice holds. *)
Theorem MessageBuffer_Add_Flush (A : Arrays) (mb : MessageBuffer.t) :
  mb_ok A mb →
  (∀ msg, Z.of_nat (len (MessageBuffer.messages mb)) >= MessageBuffer.maxSize mb →
     MessageBuffer_Add msg mb A = (A, Ret (mb, Some ErrMessageBufferFull))) ∧
  (len (MessageBuffer.messages mb) = 0%nat →
   ∀ msgs, ∃ A1 mb1 added A2 mb2 flushed,
     MessageBuffer_AddAll msgs mb A = (A1, Ret (mb1, added)) ∧
     MessageBuffer_Flush mb1 A1 = (A2, Ret (mb2, flushed)) ∧
     contents A2 flushed = added ∧
     mb_ok A2 mb2 ∧
     MessageBuffer_IsEmpty mb2 = true ∧
     contents A2 (MessageBuffer.messages mb2) = [] ∧
     arr (MessageBuffer.messages mb2) ≠ arr flushed ∧
     ∀ later, ∃ A3 mb3 added',
       MessageBuffer_AddAll later mb2 A2 = (A3, Ret (mb3, added')) ∧
       contents A3 flushed = added ∧
       contents A3 (MessageBuffer.messages mb3) = added').
Proof.
  intros Hok. split.
  - intros msg Hfull. by apply MessageBuffer_Add_full.
  - intros Hempty msgs.
    destruct (MessageBuffer_AddAll_spec msgs mb A Hok)
      as (A1 & mb1 & added & Hrun & Hok1 & Hc1 & _ & _ & _ & _).
    destruct (MessageBuffer_Flush_spec mb1 A1 Hok1)
      as (A2 & mb2 & Hfl & Hc2 & Hok2 & Hlen2 & Hnil & _ & Hne).
    exists A1, mb1, added, A2, mb2, (MessageBuffer.messages mb1).
    repeat split; try done.
    + rewrite Hc2, Hc1. unfold contents at 1. by rewrite Hempty, take_0.
    + unfold MessageBuffer_IsEmpty. by rewrite Hlen2, bool_decide_eq_true.
    + intros later.
      destruct (MessageBuffer_AddAll_spec later mb2 A2 Hok2)
        as (A3 & mb3 & added' & Hrun3 & _ & Hc3 & _ & _ & _ & Hfr3).
      exists A3, mb3, added'. repeat split; try done.
      * unfold contents. rewrite Hfr3 by done.
        change (contents A2 (MessageBuffer.messages mb1) = added).
        rewrite Hc2, Hc1. unfold contents at 1. by rewrite Hempty, take_0.
      * by rewrite Hc3, Hnil.
Qed.

(** ** Evaluation of the monad *)

Lemma bind_Ret {S A B} (m : Go S A) (k : A → Go S B) (s s' : S) (a : A) :
  m s = (s', Ret a) → bind m k s = k a s'.
Proof. intros H. unfold bind. by rewrite H. Qed.

Lemma bind_Panic {S A B} (m : Go S A) (k : A → Go S B) (s s' : S) (msg : string) :
  m s = (s', Panic msg) → bind m k s = (s', Panic msg).
Proof. intros H. unfold bind. by rewrite H. Qed.

Lemma getClient_Some (c : cptr) (cl : Client.t) (w : World) :
  clients w !! c = Some cl → getClient c w = (w, Ret cl).
Proof. intros H. unfold getClient. by rewrite H. Qed.

Lemma getClient_None (c : cptr) (w : World) :
  clients w !! c = None → getClient c w = (w, Panic panic_nil_deref).
Proof. intros H. unfold getClient. by rewrite H. Qed.

Lemma getSession_Some (s : sptr) (se : Session.t) (w : World) :
  sessions w !! s = Some se → getSession s w = (w, Ret se).
Proof. intros H. unfold getSession. by rewrite H. Qed.

Lemma updClient_Some (c : cptr) (f : Client.t → Client.t) (cl : Client.t) (w : World) :
  clients w !! c = Some cl →
  updClient c f w = (set_clients <[c := f cl]> w, Ret tt).
Proof. intros H. unfold updClient. by rewrite (bind_Ret _ _ _ _ _ (getClient_Some _ _ _ H)). Qed.

Lemma updSession_Some (s : sptr) (f : Session.t → Session.t) (se : Session.t) (w : World) :
  sessions w !! s = Some se →
  updSession s f w = (set_sessions <[s := f se]> w, Ret tt).
Proof. intros H. unfold updSession. by rewrite (bind_Ret _ _ _ _ _ (getSession_Some _ _ _ H)). Qed.

Lemma alter_lookup_insert {K V} `{Countable K} (f : V → V) (k : K) (v : V) (m : gmap K V) :
  m !! k = Some v → alter f k m = <[k := f v]> m.
Proof.
  intros Hk. apply map_eq. intros j. destruct (decide (k = j)) as [<-|Hne].
  - by rewrite lookup_alter_eq, lookup_insert_eq, Hk.
  - by rewrite lookup_alter_ne, lookup_insert_ne.
Qed.

(** The non-blocking send, case by case. *)
Lemma try_send_spec (c : cptr) (message : OutMessage.t) (w : World) (cl : Client.t) :
  clients w !! c = Some cl →
  try_send c message w =
    if closed (Client.Send cl) then (w, Panic panic_send_closed)
    else if chan_full (Client.Send cl) then (w, Ret false)
    else (set_clients <[c := enqueued message cl]> w, Ret true).
Proof.
  intros Hc. unfold try_send.
  rewrite (bind_Ret _ _ _ _ _ (getClient_Some _ _ _ Hc)).
  unfold chan_try_send. destruct (closed (Client.Send cl)); [done|].
  destruct (chan_full (Client.Send cl)); [done|].
  by rewrite (bind_Ret _ _ _ _ _ (updClient_Some _ _ _ _ Hc)).
Qed.


Section Lifecycle.
Context `{!TimeLib} `{!JSON}.

(** ** EndSession *)

Lemma EndSession_no_row (bookingID : UUID) (reason : string) (w : World) :
  video_sessions w !! bookingID = None →
  EndSession bookingID reason w = (w, Ret (Some (errors_New "video session not found"))).
Proof.
  intros Hrow. unfold EndSession, Repo_GetByBookingID, bind, get. cbn. by rewrite Hrow.
Qed.

(** C9 (as amended): for every row of the table, EndSession persists the
    whole seconds elapsed from the recorded start time to now when the row
    has a start time and no end time, and zero otherwise (never started,
    or already ended); it marks the row completed with that duration and
    stamps its end time, for any reason it is given. *)
Theorem EndSession_persists_duration (bookingID : UUID) (reason : string)
    (w : World) (r : VideoSession.t) :
  video_sessions w !! bookingID = Some r →
  EndSession bookingID reason w =
    (set_video_sessions
       <[bookingID := completed_row r (clock w) (persisted_duration r (clock w))]> w,
     Ret None).
Proof.
  intros Hrow. unfold EndSession, Repo_GetByBookingID, Repo_EndSession, sql_update,
    time_Now, bind, get, modify, ret. cbn. rewrite Hrow. cbn.
  unfold set_video_sessions. by rewrite (alter_lookup_insert _ _ _ _ Hrow).
Qed.

End Lifecycle.

(** C9, witness: a started row that has not ended, at second 70. *)
Lemma EndSession_persists_duration_witness :
  @EndSession sample_time booking_X "party_left"
     (NewWorld {[booking_X := row_started]} 70000000000) =
    (set_video_sessions
       <[booking_X := completed_row row_started 70000000000 60]>
       (NewWorld {[booking_X := row_started]} 70000000000),
     Ret None).
Proof.
  apply (@EndSession_persists_duration sample_time booking_X "party_left"
           (NewWorld {[booking_X := row_started]} 70000000000) row_started).
  reflexivity.
Defined.

(** C9, counterexample: a session that was started and has already been
    ended once (with duration 40) is ended again, as happens when the
    second party's cleanup follows the first's.  The row is persisted with
    duration zero although it has a start time, so a zero duration does not
    mean that the session never started; and the table after EndSession is
    the same for two different reasons. *)
Lemma EndSession_duration_counterexample :
  (∃ r r', video_sessions world_row_ended !! booking_X = Some r ∧
           VideoSession.SessionStartedAt r = Some 10000000000 ∧
           VideoSession.DurationSeconds r = 40 ∧
           video_sessions (fst (@EndSession sample_time booking_X "party_left" world_row_ended))
             !! booking_X = Some r' ∧
           ¬ (VideoSession.DurationSeconds r' = 0 ↔
              VideoSession.SessionStartedAt r = None)) ∧
  fst (@EndSession sample_time booking_X "party_left" world_row_ended) =
  fst (@EndSession sample_time booking_X "time_limit_reached" world_row_ended).
Proof.
  split.
  - eexists _, _. split; [vm_compute; reflexivity|].
    split; [reflexivity|]. split; [reflexivity|].
    split; [vm_compute; reflexivity|].
    cbn. intros [Hz _]. specialize (Hz eq_refl). discriminate.
  - reflexivity.
Qed.

(** ** Frames with an empty mandatory field *)

Section Dispatch.
Context `{!TimeLib} `{!JSON}.

(** C8: an offer or answer frame whose SDP is empty, and an ice_candidate
    frame whose candidate is empty, changes nothing: no queue receives a
    message, no connection is closed, and the read pump goes on to the
    next frame without running its cleanup. *)
Theorem empty_mandatory_field_discarded (client : cptr) (session : sptr)
    (rawMsg : RawMessage) (msg : WebSocketMessage.t) (w : World) :
  unmarshal_message rawMsg = Some msg →
  (WebSocketMessage.Type_ msg = "offer" ∧
     ∃ p, unmarshal_offer (WebSocketMessage.Payload msg) = Some p ∧
          RTCOfferPayload.SDP p = "") ∨
  (WebSocketMessage.Type_ msg = "answer" ∧
     ∃ p, unmarshal_answer (WebSocketMessage.Payload msg) = Some p ∧
          RTCAnswerPayload.SDP p = "") ∨
  (WebSocketMessage.Type_ msg = "ice_candidate" ∧
     ∃ p, unmarshal_ice (WebSocketMessage.Payload msg) = Some p ∧
          ICECandidatePayload.Candidate p = "") →
  readPump_body client session (ReadJSON rawMsg) w = (w, Ret Continue) ∧
  readPump client session [ReadJSON rawMsg] w = (w, Ret tt).
Proof.
  intros Hmsg Hcase.
  assert (Hbody : readPump_body client session (ReadJSON rawMsg) w = (w, Ret Continue)).
  { unfold readPump_body. rewrite Hmsg.
    destruct Hcase as [(Hty & p & Hp & Hempty) | [(Hty & p & Hp & Hempty) | (Hty & p & Hp & Hempty)]];
      rewrite Hty; unfold handleOfferMessage, handleAnswerMessage, handleICECandidateMessage;
      rewrite Hp; repeat case_decide; done. }
  split; [done|].
  unfold readPump. cbn [readPump_loop]. by rewrite (bind_Ret _ _ _ _ _ Hbody).
Qed.

End Dispatch.

(** C8, witness: the frame ["o"] of the sample format is an offer whose
    SDP is empty, read by Alice's pump once both have joined. *)
Lemma empty_mandatory_field_discarded_witness :
  @readPump_body sample_json 1%positive 1%positive (ReadJSON "o") world_both_joined
    = (world_both_joined, Ret Continue) ∧
  @readPump sample_time sample_json 1%positive 1%positive [ReadJSON "o"] world_both_joined
    = (world_both_joined, Ret tt).
Proof.
  apply (@empty_mandatory_field_discarded sample_time sample_json 1%positive 1%positive
           "o" (WebSocketMessage.mk "offer" "") world_both_joined).
  - reflexivity.
  - left. split; [reflexivity|]. exists (RTCOfferPayload.mk ""). split; reflexivity.
Defined.

(** ** One-shot channels *)

(** A client that has been closed cannot be closed again: the second
    Close panics on its first statement. *)
Lemma Client_Close_twice_panics (c : cptr) (w w' : World) :
  Client_Close c w = (w', Ret tt) →
  Client_Close c w' = (w', Panic panic_close_closed).
Proof.
  unfold Client_Close, close_Send, close_Done, Conn_Close.
  destruct (clients w !! c) as [cl|] eqn:Hc.
  2:{ unfold bind at 1. unfold bind at 1. by rewrite (getClient_None _ _ Hc). }
  unfold bind at 1. unfold bind at 1. rewrite (getClient_Some _ _ _ Hc).
  unfold chan_close at 1. destruct (closed (Client.Send cl)) eqn:Hsend; [done|].
  rewrite (updClient_Some _ _ _ _ Hc).
  unfold bind at 1. erewrite updClient_Some by (cbn; apply lookup_insert_eq).
  unfold bind at 1. erewrite getClient_Some by (cbn; apply lookup_insert_eq).
  cbn [Client.Done Client.set_Conn Client.set_Send].
  unfold chan_close at 1. destruct (closed (Client.Done cl)) eqn:Hdone; [done|].
  erewrite updClient_Some by (cbn; apply lookup_insert_eq).
  intros [= <-].
  unfold bind at 1. unfold bind at 1.
  erewrite getClient_Some by (cbn; apply lookup_insert_eq).
  reflexivity.
Qed.

(** Close on a client whose channels are open closes both channels and
    the connection. *)
Lemma Client_Close_open (c : cptr) (cl : Client.t) (w : World) :
  clients w !! c = Some cl →
  closed (Client.Send cl) = false →
  closed (Client.Done cl) = false →
  Client_Close c w = (set_clients <[c := closed_client cl]> w, Ret tt).
Proof.
  intros Hc Hsend Hdone. unfold Client_Close, close_Send, close_Done, Conn_Close.
  rewrite (bind_Ret _ _ w (set_clients <[c := Client.set_Send
             (λ _, mkChan (sent (Client.Send cl)) (recvd (Client.Send cl))
                     (chan_cap (Client.Send cl)) true) cl]> w) tt).
  2:{ rewrite (bind_Ret _ _ _ _ _ (getClient_Some _ _ _ Hc)).
      unfold chan_close. rewrite Hsend. by apply updClient_Some. }
  erewrite bind_Ret by (apply updClient_Some; cbn; apply lookup_insert_eq).
  erewrite bind_Ret by (apply getClient_Some; cbn; apply lookup_insert_eq).
  cbn [Client.Done Client.set_Conn Client.set_Send]. unfold chan_close. rewrite Hdone.
  erewrite updClient_Some by (cbn; apply lookup_insert_eq).
  unfold set_clients. cbn. by rewrite !insert_insert_eq.
Qed.

(** AddClient on a registered session whose slot for the client's role
    holds another instance that is still open: the old occupant is closed
    while it still holds the slot, then the slot is given to the new
    client. *)
Lemma Hub_AddClient_preempts (bookingID : UUID) (client old : cptr) (s : sptr)
    (w : World) (se : Session.t) (cl o : Client.t) :
  hub w !! bookingID = Some s →
  sessions w !! s = Some se →
  clients w !! client = Some cl →
  slot_of (Client.Role cl) se = Some old →
  clients w !! old = Some o →
  Client.ID o ≠ Client.ID cl →
  closed (Client.Send o) = false →
  closed (Client.Done o) = false →
  Client_Close old w = (set_clients <[old := closed_client o]> w, Ret tt) ∧
  sessions (set_clients <[old := closed_client o]> w) !! s = Some se ∧
  Hub_AddClient bookingID client w =
    (set_sessions <[s := fill_slot_of (Client.Role cl) client se]>
       (set_clients <[old := closed_client o]> w),
     Ret s).
Proof.
  intros Hhub Hs Hc Hslot Ho Hid Hsend Hdone.
  pose proof (Client_Close_open old o w Ho Hsend Hdone) as Hclose.
  split; [done|]. split; [done|].
  unfold Hub_AddClient, slot_of, fill_slot_of in *.
  rewrite (bind_Ret get _ w w w) by done. rewrite Hhub.
  rewrite (bind_Ret (ret s) _ w w s) by done.
  rewrite (bind_Ret _ _ _ _ _ (getClient_Some _ _ _ Hc)).
  case_decide as Hrole.
  - unfold bind at 1. unfold bind at 1. rewrite (getSession_Some _ _ _ Hs).
    rewrite Hslot. unfold bind at 1.
    rewrite (bind_Ret _ _ _ _ _ (getClient_Some _ _ _ Ho)).
    rewrite decide_True by done. rewrite Hclose.
    by rewrite (updSession_Some s _ se) by (cbn; exact Hs).
  - unfold bind at 1. unfold bind at 1. rewrite (getSession_Some _ _ _ Hs).
    rewrite Hslot. unfold bind at 1.
    rewrite (bind_Ret _ _ _ _ _ (getClient_Some _ _ _ Ho)).
    rewrite decide_True by done. rewrite Hclose.
    by rewrite (updSession_Some s _ se) by (cbn; exact Hs).
Qed.

(** AddClient when the slot holds a client of the same instance id: the
    occupant is not closed. *)
Lemma Hub_AddClient_same_instance (bookingID : UUID) (client old : cptr) (s : sptr)
    (w : World) (se : Session.t) (cl o : Client.t) :
  hub w !! bookingID = Some s →
  sessions w !! s = Some se →
  clients w !! client = Some cl →
  slot_of (Client.Role cl) se = Some old →
  clients w !! old = Some o →
  Client.ID o = Client.ID cl →
  Hub_AddClient bookingID client w =
    (set_sessions <[s := fill_slot_of (Client.Role cl) client se]> w, Ret s).
Proof.
  intros Hhub Hs Hc Hslot Ho Hid.
  unfold Hub_AddClient, slot_of, fill_slot_of in *.
  rewrite (bind_Ret get _ w w w) by done. rewrite Hhub.
  rewrite (bind_Ret (ret s) _ w w s) by done.
  rewrite (bind_Ret _ _ _ _ _ (getClient_Some _ _ _ Hc)).
  case_decide as Hrole.
  - unfold bind at 1. unfold bind at 1. rewrite (getSession_Some _ _ _ Hs).
    rewrite Hslot. unfold bind at 1.
    rewrite (bind_Ret _ _ _ _ _ (getClient_Some _ _ _ Ho)).
    rewrite decide_False by (intros Hne; by apply Hne).
    unfold ret at 1. by rewrite (updSession_Some s _ se) by (cbn; exact Hs).
  - unfold bind at 1. unfold bind at 1. rewrite (getSession_Some _ _ _ Hs).
    rewrite Hslot. unfold bind at 1.
    rewrite (bind_Ret _ _ _ _ _ (getClient_Some _ _ _ Ho)).
    rewrite decide_False by (intros Hne; by apply Hne).
    unfold ret at 1. by rewrite (updSession_Some s _ se) by (cbn; exact Hs).
Qed.

(** C3: in the interleaving in which Bob reconnects after Alice's
    departure closed his first client, and before his read pump has
    cleaned up, accepting the new connection closes that client's outbound
    queue a second time: HandleWebSocket ends in the panic "close of closed
    channel".  In the same execution Alice's own channels are still open
    after her read pump has finished its cleanup: nothing closes the
    channels of the client that leaves. *)
Theorem rejoin_closes_channel_twice :
  snd (HandleWebSocket auth_bob 1003%N world_peer_closed)
    = Panic panic_close_closed ∧
  (closed ∘ Client.Send) <$> clients world_peer_closed !! 2%positive = Some true ∧
  (closed ∘ Client.Send) <$> clients world_peer_closed !! 1%positive = Some false ∧
  (closed ∘ Client.Done) <$> clients world_peer_closed !! 1%positive = Some false.
Proof. vm_compute. done. Qed.

(** C4: AddClient for Bob's second connection, called while the user
    slot holds his first client (another instance id, already closed by
    Alice's departure), panics in Close; the slot still holds the old
    client and the new one is not registered.  And when the old occupant
    is open, so that the preemption itself succeeds, the slot does not keep
    the new client: the cleanup of the preempted connection removes the
    role's occupant, which by then is the new client, still open. *)
Theorem AddClient_closed_occupant_panics :
  (Hub_AddClient booking_X 3%positive world_bob_rejoining
     = (world_bob_rejoining, Panic panic_close_closed) ∧
   Session.User <$> sessions world_bob_rejoining !! 1%positive = Some (Some 2%positive) ∧
   Client.ID <$> clients world_bob_rejoining !! 2%positive = Some 1002%N ∧
   Client.ID <$> clients world_bob_rejoining !! 3%positive = Some 1003%N) ∧
  (Session.Mentor <$> sessions (fst (sample_run trace_preempted (NewWorld ∅ 0)))
     !! 1%positive = Some (Some 3%positive) ∧
   snd (sample_run trace_preempted_cleanup (NewWorld ∅ 0)) = Ret tt ∧
   Session.Mentor <$> sessions (fst (sample_run trace_preempted_cleanup (NewWorld ∅ 0)))
     !! 1%positive = Some None ∧
   (closed ∘ Client.Send) <$> clients (fst (sample_run trace_preempted_cleanup (NewWorld ∅ 0)))
     !! 3%positive = Some false ∧
   (Conn.closed ∘ Client.Conn) <$>
     clients (fst (sample_run trace_preempted_cleanup (NewWorld ∅ 0))) !! 3%positive
     = Some false).
Proof. vm_compute. done. Qed.

(** C5: SendToRole towards the user slot, while it holds the client that
    Alice's departure has closed, panics instead of dropping or enqueuing
    the message; so does the read pump of a mentor who has rejoined in the
    meantime, when it relays her first offer. *)
Theorem SendToRole_closed_queue_panics :
  Session_SendToRole 1%positive "user" sample_message world_peer_closed
    = (world_peer_closed, Panic panic_send_closed) ∧
  snd (sample_run (trace_mentor_rejoins ++ [Read 3%positive 1%positive (ReadJSON "ov=0")])
         (NewWorld ∅ 0))
    = Panic panic_send_closed.
Proof. split; vm_compute; reflexivity. Qed.

(** ** The session_ready notice *)

Section Notice.
Context `{!TimeLib} `{!JSON}.

Lemma notify_block (c : cptr) (notice : OutMessage.t) (cl : Client.t) (w : World) :
  clients w !! c = Some cl →
  closed (Client.Send cl) = false →
  (if negb (HasSessionReadySent (Client.ConnectionState cl)) then
     ok <- try_send c notice ;;
     if ok then updClient c (Client.set_ConnectionState (SetSessionReadySent true))
     else ret tt
   else ret tt) w
  = (set_clients <[c := notified notice cl]> w, Ret tt).
Proof.
  intros Hc Hopen. unfold notified, notice_due.
  assert (Hid : ∀ w, clients w !! c = Some cl → set_clients <[c := cl]> w = w).
  { intros [] Hw. unfold set_clients. cbn in *. by rewrite insert_id. }
  destruct (HasSessionReadySent (Client.ConnectionState cl)); cbn [negb andb].
  { by rewrite Hid. }
  unfold bind. rewrite (try_send_spec _ _ _ _ Hc), Hopen.
  destruct (chan_full (Client.Send cl)); cbn [negb].
  { by rewrite Hid. }
  erewrite updClient_Some by (cbn; apply lookup_insert_eq).
  unfold set_clients. cbn. by rewrite insert_insert_eq.
Qed.

(** sendSessionReady when both slots are occupied and both queues are
    open: each party is notified, the new client with the other party's
    name and the role of [auth], the other party with the name of [auth]
    and its own role. *)
Lemma sendSessionReady_spec (session : sptr) (newClient other : cptr)
    (auth : WebSocketAuthContext.t) (w : World) (se : Session.t) (cn co : Client.t) :
  sessions w !! session = Some se →
  Session.Mentor se ≠ None → Session.User se ≠ None →
  (if decide (WebSocketAuthContext.Role auth = "mentor")
   then Session.User se else Session.Mentor se) = Some other →
  newClient ≠ other →
  clients w !! newClient = Some cn →
  clients w !! other = Some co →
  closed (Client.Send cn) = false →
  closed (Client.Send co) = false →
  sendSessionReady session newClient auth w =
    (set_clients
       (λ m, <[other := notified (session_ready (WebSocketAuthContext.Username auth)
                                     (Client.Role co)) co]>
               (<[newClient := notified (session_ready (Client.Username co)
                                           (WebSocketAuthContext.Role auth)) cn]> m)) w,
     Ret tt).
Proof.
  intros Hs Hm Hu Hother Hne Hn Ho Hopen_n Hopen_o.
  unfold sendSessionReady, Session_BothJoined, Session_GetOtherClient.
  rewrite (bind_Ret _ _ _ _ _ (bind_Ret _ _ _ _ _ (getSession_Some _ _ _ Hs))).
  rewrite !bool_decide_eq_true_2 by done. cbn [negb andb].
  rewrite (bind_Ret _ _ w w (Some other)).
  2:{ rewrite (bind_Ret _ _ _ _ _ (getSession_Some _ _ _ Hs)).
      destruct (decide _); by rewrite <- Hother. }
  rewrite (bind_Ret _ _ _ _ _ (getClient_Some _ _ _ Ho)).
  rewrite (bind_Ret _ _ _ _ _ (getClient_Some _ _ _ Hn)).
  rewrite (bind_Ret _ _ _ _ _ (notify_block _ _ _ _ Hn Hopen_n)).
  erewrite bind_Ret by (apply getClient_Some; cbn; rewrite lookup_insert_ne by done; exact Ho).
  rewrite (notify_block _ _ co) by (cbn; rewrite ?lookup_insert_ne by done; done).
  done.
Qed.

(** C1 (as amended): for a mentor A and a user B in the two slots of one
    session, with open queues, sendSessionReady run for either of them as
    the new client enqueues for each party that is due a notice (not yet
    flagged, queue not full) exactly one session_ready message; A's
    carries B's name and A's own role "mentor", B's carries A's name and
    B's own role "user". *)
Theorem session_ready_names_peer_and_own_role (session : sptr) (a b newClient : cptr)
    (auth : WebSocketAuthContext.t) (w : World) (se : Session.t) (ca cb cn : Client.t) :
  sessions w !! session = Some se →
  Session.Mentor se = Some a → Session.User se = Some b →
  clients w !! a = Some ca → clients w !! b = Some cb →
  Client.Role ca = "mentor" → Client.Role cb = "user" →
  closed (Client.Send ca) = false → closed (Client.Send cb) = false →
  newClient = a ∨ newClient = b →
  clients w !! newClient = Some cn →
  WebSocketAuthContext.Role auth = Client.Role cn →
  WebSocketAuthContext.Username auth = Client.Username cn →
  ∃ w' ca' cb',
    sendSessionReady session newClient auth w = (w', Ret tt) ∧
    clients w' !! a = Some ca' ∧ clients w' !! b = Some cb' ∧
    sent (Client.Send ca') =
      sent (Client.Send ca) ++
      (if notice_due ca then [session_ready (Client.Username cb) "mentor"] else []) ∧
    sent (Client.Send cb') =
      sent (Client.Send cb) ++
      (if notice_due cb then [session_ready (Client.Username ca) "user"] else []).
Proof.
  intros Hs Hm Hu Ha Hb Hra Hrb Hopen_a Hopen_b Hnew Hn Hrole Hname.
  assert (Hab : a ≠ b).
  { intros ->. rewrite Ha in Hb. injection Hb as <-. rewrite Hra in Hrb. discriminate. }
  assert (Hsent : ∀ notice cl, sent (Client.Send (notified notice cl)) =
            sent (Client.Send cl) ++ (if notice_due cl then [notice] else [])).
  { intros notice cl. unfold notified. destruct (notice_due cl); cbn; [done|].
    by rewrite app_nil_r. }
  destruct Hnew as [-> | ->].
  - rewrite Ha in Hn. injection Hn as <-.
    eexists _, _, _. split.
    { eapply (sendSessionReady_spec session a b); try done.
      - by rewrite Hm.
      - by rewrite Hu.
      - rewrite Hrole, Hra. by rewrite decide_True. }
    cbn. rewrite lookup_insert_ne by done. rewrite lookup_insert_eq, lookup_insert_eq.
    repeat split; rewrite Hsent; [by rewrite Hrole, Hra | by rewrite Hname, Hrb].
  - rewrite Hb in Hn. injection Hn as <-.
    eexists _, _, _. split.
    { eapply (sendSessionReady_spec session b a); try done.
      - by rewrite Hm.
      - by rewrite Hu.
      - rewrite Hrole, Hrb. by rewrite decide_False. }
    cbn. rewrite lookup_insert_eq. rewrite lookup_insert_ne by done. rewrite lookup_insert_eq.
    repeat split; rewrite Hsent; [by rewrite Hname, Hra | by rewrite Hrole, Hrb].
Qed.

End Notice.

(** ** Relaying of signaling frames *)

Section Relay.
Context `{!TimeLib} `{!JSON}.



End Relay.

(** ** Well-formed worlds are preserved *)

Lemma evolves_refl (w : World) : evolves w w.
Proof. intros c cl Hc. eauto. Qed.

Lemma evolves_trans (w1 w2 w3 : World) : evolves w1 w2 → evolves w2 w3 → evolves w1 w3.
Proof.
  intros H12 H23 c cl Hc. destruct (H12 _ _ Hc) as (cl2 & Hc2 & Hr2).
  destruct (H23 _ _ Hc2) as (cl3 & Hc3 & Hr3). exists cl3. split; [done|congruence].
Qed.

Lemma is_mentor_stable (c : cptr) (w w' : World) :
  is_mentor c w → evolves w w' → is_mentor c w'.
Proof.
  intros (cl & Hc & Hr) Hev. destruct (Hev _ _ Hc) as (cl' & Hc' & Hr').
  exists cl'. split; [done|congruence].
Qed.

Lemma not_mentor_stable (c : cptr) (w w' : World) :
  not_mentor c w → evolves w w' → not_mentor c w'.
Proof.
  intros (cl & Hc & Hr) Hev. destruct (Hev _ _ Hc) as (cl' & Hc' & Hr').
  exists cl'. split; [done|congruence].
Qed.

Lemma keeps_from_weaken {A} (P P' : World → Prop) (m : M A) :
  (∀ w, P w → P' w) → keeps_from P' m → keeps_from P m.
Proof. intros HP Hm w Hw. apply Hm. by apply HP. Qed.

Lemma keeps_any {A} (P : World → Prop) (m : M A) : keeps m → keeps_from P m.
Proof. by apply keeps_from_weaken. Qed.

Lemma keeps_ret {A} (a : A) : keeps (ret a).
Proof. intros w _ Hwf w' r [= <- _]. split; [done|apply evolves_refl]. Qed.

Lemma keeps_panic {A} (msg : string) : keeps (panic (A:=A) msg).
Proof. intros w _ Hwf w' r [= <- _]. split; [done|apply evolves_refl]. Qed.

Lemma keeps_get : keeps get.
Proof. intros w _ Hwf w' r [= <- _]. split; [done|apply evolves_refl]. Qed.

(** Sequencing: the fact [P'] needed by the continuation must survive the
    evolution made by the first computation. *)
Lemma keeps_bind {A B} (P P' : World → Prop) (m : M A) (k : A → M B) :
  keeps_from P m →
  (∀ w w', P w → evolves w w' → P' w') →
  (∀ a, keeps_from P' (k a)) →
  keeps_from P (bind m k).
Proof.
  intros Hm Hstable Hk w HP Hwf w' r. unfold bind.
  destruct (m w) as [w1 [a|msg]] eqn:Hmw.
  - destruct (Hm w HP Hwf _ _ Hmw) as [Hwf1 Hev1]. intros Hkw.
    destruct (Hk a w1 (Hstable _ _ HP Hev1) Hwf1 _ _ Hkw) as [Hwf2 Hev2].
    split; [done|]. by eapply evolves_trans.
  - intros [= <- _]. by apply (Hm w HP Hwf _ _ Hmw).
Qed.

Lemma keeps_seq {A B} (m : M A) (k : A → M B) :
  keeps m → (∀ a, keeps (k a)) → keeps (bind m k).
Proof. intros Hm Hk. by apply (keeps_bind _ (λ _, True)). Qed.

(** Binding a value read from the world: the continuation may use what
    the read has established. *)
Lemma keeps_bind_get {B} (P : World → Prop) (k : World → M B) :
  (∀ w0, keeps_from (λ w, P w ∧ w = w0) (k w0)) → keeps_from P (bind get k).
Proof.
  intros Hk w HP Hwf w' r. unfold bind, get. intros Hkw.
  by apply (Hk w w (conj HP eq_refl) Hwf _ _ Hkw).
Qed.

Lemma keeps_bind_getClient {B} (P : World → Prop) (c : cptr) (k : Client.t → M B) :
  (∀ cl, keeps_from (λ w, P w ∧ clients w !! c = Some cl) (k cl)) →
  keeps_from P (bind (getClient c) k).
Proof.
  intros Hk w HP Hwf w' r. unfold bind, getClient.
  destruct (clients w !! c) as [cl|] eqn:Hc.
  - intros Hkw. by apply (Hk cl w (conj HP Hc) Hwf _ _ Hkw).
  - intros [= <- _]. split; [done|apply evolves_refl].
Qed.

Lemma keeps_bind_getSession {B} (P : World → Prop) (s : sptr) (k : Session.t → M B) :
  (∀ se, keeps_from (λ w, P w ∧ sessions w !! s = Some se) (k se)) →
  keeps_from P (bind (getSession s) k).
Proof.
  intros Hk w HP Hwf w' r. unfold bind, getSession.
  destruct (sessions w !! s) as [se|] eqn:Hs.
  - intros Hkw. by apply (Hk se w (conj HP Hs) Hwf _ _ Hkw).
  - intros [= <- _]. split; [done|apply evolves_refl].
Qed.

Lemma keeps_getClient (c : cptr) : keeps (getClient c).
Proof.
  intros w _ Hwf w' r. unfold getClient.
  destruct (clients w !! c); intros [= <- _]; (split; [done|apply evolves_refl]).
Qed.

Lemma keeps_getSession (s : sptr) : keeps (getSession s).
Proof.
  intros w _ Hwf w' r. unfold getSession.
  destruct (sessions w !! s); intros [= <- _]; (split; [done|apply evolves_refl]).
Qed.

(** State changes outside the clients and the sessions. *)
Lemma keeps_modify_outside (f : World → World) :
  (∀ w, clients (f w) = clients w ∧ sessions (f w) = sessions w) →
  keeps (modify f).
Proof.
  intros Hf w _ [Hsl Hro] w' r [= <- _]. destruct (Hf w) as [Hc Hs].
  split; [split|].
  - intros s se. rewrite Hs. intros Hse. destruct (Hsl _ _ Hse) as [HM HU].
    split; intros c Hslot; rewrite Hc; eauto.
  - intros c cl. rewrite Hc. apply Hro.
  - intros c cl. rewrite Hc. eauto.
Qed.

Lemma keeps_liftA {A} (m : Go Arrays A) : keeps (liftA m).
Proof.
  intros w _ [Hsl Hro] w' r. unfold liftA. destruct (m (arrays w)) as [A' r'].
  intros [= <- _]. split; [split|]; [exact Hsl | exact Hro | exact (evolves_refl w)].
Qed.

(** A tame update of one client. *)
Lemma keeps_updClient_tame (c : cptr) (f : Client.t → Client.t) (cl : Client.t) :
  tame_at f cl → keeps_from (λ w, clients w !! c = Some cl) (updClient c f).
Proof.
  intros (Hrole & Hready) w Hc [Hsl Hro] w' r.
  rewrite (updClient_Some _ _ _ _ Hc). intros [= <- _].
  assert (Hev : evolves w (set_clients <[c := f cl]> w)).
  { intros c0 cl0 Hc0. cbn. destruct (decide (c = c0)) as [<-|Hne].
    - rewrite lookup_insert_eq. exists (f cl). split; [done|congruence].
    - rewrite lookup_insert_ne by done. eauto. }
  split; [split|done].
  - intros s se Hse. destruct (Hsl _ _ Hse) as [HM HU]. split; intros c0 Hslot.
    + by apply (is_mentor_stable c0 w); [apply HM|].
    + by apply (not_mentor_stable c0 w); [apply HU|].
  - intros c0 cl0. cbn. destruct (decide (c = c0)) as [<-|Hne].
    + rewrite lookup_insert_eq. intros [= <-]. by apply Hready, (Hro c).
    + rewrite lookup_insert_ne by done. apply Hro.
Qed.

Lemma quiet_tame (f : Client.t → Client.t) (cl : Client.t) : quiet_at f cl → tame_at f cl.
Proof.
  intros (Hrole & Hcount & Hflag). split; [done|]. intros [Hle Hz].
  split; rewrite Hcount; [done|]. intros Hfl. by apply Hz, Hflag.
Qed.

Lemma keeps_updClient_at (c : cptr) (f : Client.t → Client.t) (cl : Client.t) :
  quiet_at f cl → keeps_from (λ w, clients w !! c = Some cl) (updClient c f).
Proof. intros Hq. by apply keeps_updClient_tame, quiet_tame. Qed.

Lemma keeps_updClient (c : cptr) (f : Client.t → Client.t) :
  (∀ cl, quiet_at f cl) → keeps (updClient c f).
Proof.
  intros Hq w _ Hwf w' r. destruct (clients w !! c) as [cl|] eqn:Hc.
  - by apply (keeps_updClient_at c f cl (Hq cl) w Hc Hwf).
  - unfold updClient. rewrite (bind_Panic _ _ _ _ _ (getClient_None _ _ Hc)).
    intros [= <- _]. split; [done|apply evolves_refl].
Qed.

Lemma quiet_set_Conn (g : Conn.t → Conn.t) (cl : Client.t) :
  quiet_at (Client.set_Conn g) cl.
Proof. by destruct cl. Qed.

Lemma quiet_set_Done (g : Chan unit → Chan unit) (cl : Client.t) :
  quiet_at (Client.set_Done g) cl.
Proof. by destruct cl. Qed.

Lemma quiet_set_flag (cl : Client.t) :
  quiet_at (Client.set_ConnectionState (SetSessionReadySent true)) cl.
Proof. by destruct cl. Qed.

Lemma quiet_set_Send (g : Chan OutMessage.t → Chan OutMessage.t) (cl : Client.t) :
  length (filter (λ m, is_session_ready m = true) (sent (g (Client.Send cl)))) =
  length (filter (λ m, is_session_ready m = true) (sent (Client.Send cl))) →
  quiet_at (Client.set_Send g) cl.
Proof. intros Hg. destruct cl. unfold quiet_at, ready_count. cbn in *. by rewrite Hg. Qed.

Lemma quiet_enqueued (message : OutMessage.t) (cl : Client.t) :
  is_session_ready message = false → quiet_at (enqueued message) cl.
Proof.
  intros Hm. apply quiet_set_Send. cbn.
  rewrite filter_app, length_app.
  rewrite (filter_cons_False _ message []) by (by rewrite Hm).
  rewrite filter_nil. cbn. lia.
Qed.

Lemma keeps_try_send (c : cptr) (message : OutMessage.t) :
  is_session_ready message = false → keeps (try_send c message).
Proof.
  intros Hm w _ Hwf w' r. destruct (clients w !! c) as [cl|] eqn:Hc.
  - rewrite (try_send_spec _ _ _ _ Hc).
    destruct (closed (Client.Send cl)); [intros [= <- _]; split; [done|apply evolves_refl]|].
    destruct (chan_full (Client.Send cl)); [intros [= <- _]; split; [done|apply evolves_refl]|].
    intros [= <- _].
    apply (keeps_updClient_at c (enqueued message) cl (quiet_enqueued _ _ Hm) w Hc Hwf _ (Ret tt)).
    by apply updClient_Some.
  - unfold try_send. rewrite (bind_Panic _ _ _ _ _ (getClient_None _ _ Hc)).
    intros [= <- _]. split; [done|apply evolves_refl].
Qed.

Lemma keeps_close_Send (c : cptr) : keeps (close_Send c).
Proof.
  unfold close_Send. apply keeps_bind_getClient. intros cl.
  destruct (chan_close (Client.Send cl)) as [ch'|] eqn:Hclose; [|apply keeps_any, keeps_panic].
  eapply keeps_from_weaken; [|apply (keeps_updClient_at c _ cl)].
  - by intros w [_ Hc].
  - apply quiet_set_Send. unfold chan_close in Hclose.
    destruct (closed (Client.Send cl)); [done|]. by injection Hclose as <-.
Qed.

Lemma keeps_close_Done (c : cptr) : keeps (close_Done c).
Proof.
  unfold close_Done. apply keeps_seq; [apply keeps_getClient|]. intros cl.
  destruct (chan_close (Client.Done cl)); [|apply keeps_panic].
  apply keeps_updClient. intros cl'. apply quiet_set_Done.
Qed.

Lemma keeps_Conn_Close (c : cptr) : keeps (Conn_Close c).
Proof. apply keeps_updClient. intros cl. apply quiet_set_Conn. Qed.

Lemma keeps_Client_Close (c : cptr) : keeps (Client_Close c).
Proof.
  unfold Client_Close.
  apply keeps_seq; [apply keeps_close_Send|]. intros _.
  apply keeps_seq; [apply keeps_Conn_Close|]. intros _.
  apply keeps_close_Done.
Qed.

(** Sessions: allocation and slot updates. *)
Lemma keeps_insert_session (s : sptr) (se' : Session.t) :
  keeps_from (λ w, (∀ c, Session.Mentor se' = Some c → is_mentor c w) ∧
                   (∀ c, Session.User se' = Some c → not_mentor c w))
    (modify (set_sessions <[s := se']>)).
Proof.
  intros w [HM' HU'] [Hsl Hro] w' r [= <- _]. split; [split|].
  - intros s0 se0. cbn. destruct (decide (s = s0)) as [<-|Hne].
    + rewrite lookup_insert_eq. intros [= <-]. split; [apply HM'|apply HU'].
    + rewrite lookup_insert_ne by done. apply Hsl.
  - exact Hro.
  - exact (evolves_refl w).
Qed.

Lemma keeps_NewSession (bookingID : UUID) (maxDuration : Z) :
  keeps (NewSession bookingID maxDuration).
Proof.
  unfold NewSession, time_Now.
  apply keeps_seq; [apply keeps_seq; [apply keeps_get|intros; apply keeps_ret]|]. intros now.
  apply keeps_seq; [apply keeps_get|]. intros w0.
  apply keeps_seq; [|intros; apply keeps_ret].
  eapply keeps_from_weaken; [|apply keeps_insert_session]. cbn. done.
Qed.

Lemma keeps_set_Mentor (s : sptr) (c : cptr) :
  keeps_from (is_mentor c) (updSession s (Session.set_Mentor (Some c))).
Proof.
  unfold updSession. apply keeps_bind_getSession. intros se w [Hc Hs] Hwf.
  apply keeps_insert_session; [|done]. cbn. split.
  - by intros c0 [= <-].
  - intros c0 Hu. by apply (proj1 Hwf _ _ Hs).
Qed.

Lemma keeps_set_User (s : sptr) (c : cptr) :
  keeps_from (not_mentor c) (updSession s (Session.set_User (Some c))).
Proof.
  unfold updSession. apply keeps_bind_getSession. intros se w [Hc Hs] Hwf.
  apply keeps_insert_session; [|done]. cbn. split.
  - intros c0 Hm. by apply (proj1 Hwf _ _ Hs).
  - by intros c0 [= <-].
Qed.

Lemma keeps_clear_Mentor (s : sptr) : keeps (updSession s (Session.set_Mentor None)).
Proof.
  unfold updSession. apply keeps_bind_getSession. intros se w [_ Hs] Hwf.
  apply keeps_insert_session; [|done]. cbn. split; [done|].
  intros c0 Hu. by apply (proj1 Hwf _ _ Hs).
Qed.

Lemma keeps_clear_User (s : sptr) : keeps (updSession s (Session.set_User None)).
Proof.
  unfold updSession. apply keeps_bind_getSession. intros se w [_ Hs] Hwf.
  apply keeps_insert_session; [|done]. cbn. split; [|done].
  intros c0 Hm. by apply (proj1 Hwf _ _ Hs).
Qed.

Lemma keeps_set_Done (s : sptr) (ch : Chan unit) :
  keeps (updSession s (Session.set_Done ch)).
Proof.
  unfold updSession. apply keeps_bind_getSession. intros se w [_ Hs] Hwf.
  apply keeps_insert_session; [|done]. cbn. split.
  - intros c0 Hm. by apply (proj1 Hwf _ _ Hs).
  - intros c0 Hu. by apply (proj1 Hwf _ _ Hs).
Qed.

Lemma keeps_set_hub (f : gmap UUID sptr → gmap UUID sptr) : keeps (modify (set_hub f)).
Proof. by apply keeps_modify_outside. Qed.

Lemma keeps_close_old (slot : option cptr) (cl : Client.t) :
  keeps (match slot with
         | Some old =>
             o <- getClient old ;;
             if decide (Client.ID o ≠ Client.ID cl) then Client_Close old else ret tt
         | None => ret tt
         end).
Proof.
  destruct slot as [old|]; [|apply keeps_ret].
  apply keeps_seq; [apply keeps_getClient|]. intros o.
  case_decide; [apply keeps_Client_Close|apply keeps_ret].
Qed.

Lemma keeps_Hub_AddClient (bookingID : UUID) (client : cptr) :
  keeps (Hub_AddClient bookingID client).
Proof.
  unfold Hub_AddClient.
  apply keeps_seq; [apply keeps_get|]. intros w0.
  apply keeps_seq.
  { destruct (hub w0 !! bookingID); [apply keeps_ret|].
    apply keeps_seq; [apply keeps_NewSession|]. intros s.
    apply keeps_seq; [apply keeps_set_hub|]. intros _. apply keeps_ret. }
  intros session. apply keeps_bind_getClient. intros cl.
  apply (keeps_bind _ (λ _, True)); [|done|intros; apply keeps_ret].
  case_decide as Hrole.
  - apply keeps_bind_getSession. intros se.
    apply (keeps_bind _ (is_mentor client)).
    + apply keeps_any, keeps_close_old.
    + intros w w' [[_ Hc] _] Hev. apply (is_mentor_stable client w); [|done]. by exists cl.
    + intros _. apply keeps_set_Mentor.
  - apply keeps_bind_getSession. intros se.
    apply (keeps_bind _ (not_mentor client)).
    + apply keeps_any, keeps_close_old.
    + intros w w' [[_ Hc] _] Hev. apply (not_mentor_stable client w); [|done]. by exists cl.
    + intros _. apply keeps_set_User.
Qed.

Lemma keeps_Hub_GetSession (bookingID : UUID) : keeps (Hub_GetSession bookingID).
Proof.
  unfold Hub_GetSession. apply keeps_seq; [apply keeps_get|]. intros; apply keeps_ret.
Qed.

Lemma keeps_Hub_RemoveClient (bookingID : UUID) (role : string) :
  keeps (Hub_RemoveClient bookingID role).
Proof.
  unfold Hub_RemoveClient. apply keeps_seq; [apply keeps_get|]. intros w0.
  destruct (hub w0 !! bookingID) as [session|]; [|apply keeps_ret].
  apply keeps_seq.
  { case_decide; [apply keeps_clear_Mentor|apply keeps_clear_User]. }
  intros _. apply keeps_seq; [apply keeps_getSession|]. intros se.
  case_decide; [apply keeps_set_hub|apply keeps_ret].
Qed.

Lemma keeps_Session_BothJoined (s : sptr) : keeps (Session_BothJoined s).
Proof.
  unfold Session_BothJoined. apply keeps_seq; [apply keeps_getSession|].
  intros; apply keeps_ret.
Qed.

Lemma keeps_Session_GetOtherClient (s : sptr) (role : string) :
  keeps (Session_GetOtherClient s role).
Proof.
  unfold Session_GetOtherClient. apply keeps_seq; [apply keeps_getSession|].
  intros; case_decide; apply keeps_ret.
Qed.

Lemma keeps_Session_SendToRole (s : sptr) (role : string) (message : OutMessage.t) :
  is_session_ready message = false → keeps (Session_SendToRole s role message).
Proof.
  intros Hm. unfold Session_SendToRole. apply keeps_seq; [apply keeps_getSession|].
  intros se. destruct (if decide (role = "mentor") then _ else _); [|apply keeps_ret].
  apply keeps_seq; [by apply keeps_try_send|]. intros; apply keeps_ret.
Qed.

(** The persistence layer touches only the table. *)
Lemma keeps_sql_update (bookingID : UUID) (f : Time → VideoSession.t → VideoSession.t) :
  keeps (sql_update bookingID f).
Proof.
  unfold sql_update, time_Now.
  apply keeps_seq; [apply keeps_seq; [apply keeps_get|intros; apply keeps_ret]|]. intros now.
  apply keeps_seq; [by apply keeps_modify_outside|]. intros; apply keeps_ret.
Qed.

Lemma keeps_Repo_GetByBookingID (bookingID : UUID) : keeps (Repo_GetByBookingID bookingID).
Proof.
  unfold Repo_GetByBookingID. apply keeps_seq; [apply keeps_get|]. intros w0.
  destruct (video_sessions w0 !! bookingID); apply keeps_ret.
Qed.

Section Handlers.
Context `{!TimeLib} `{!JSON}.

Lemma keeps_EndSession (bookingID : UUID) (reason : string) :
  keeps (EndSession bookingID reason).
Proof.
  unfold EndSession. apply keeps_seq; [apply keeps_Repo_GetByBookingID|].
  intros [session|err]; [|apply keeps_ret].
  apply keeps_seq; [apply keeps_seq; [apply keeps_get|intros; apply keeps_ret]|]. intros now.
  apply keeps_seq; [apply keeps_sql_update|]. intros [e|]; apply keeps_ret.
Qed.

Lemma keeps_HandleClientJoined (client : cptr) (username : string) :
  keeps (HandleClientJoined client username).
Proof.
  unfold HandleClientJoined. apply keeps_seq; [apply keeps_getClient|]. intros cl.
  apply keeps_seq; [case_decide; apply keeps_sql_update|]. intros; apply keeps_ret.
Qed.

Lemma keeps_HandleClientLeft (bookingID : UUID) (role : string) :
  keeps (HandleClientLeft bookingID role).
Proof.
  unfold HandleClientLeft.
  apply keeps_seq; [case_decide; apply keeps_sql_update|]. intros _.
  apply keeps_seq; [apply keeps_Hub_GetSession|]. intros session.
  apply keeps_seq.
  { destruct session as [session|]; [|apply keeps_ret].
    apply keeps_seq; [apply keeps_Session_GetOtherClient|]. intros otherParty.
    apply keeps_seq.
    { destruct otherParty as [otherParty|]; [|apply keeps_ret].
      apply keeps_seq; [by apply keeps_try_send|]. intros _. apply keeps_Client_Close. }
    intros _. apply keeps_seq; [apply keeps_EndSession|]. intros; apply keeps_ret. }
  intros _. apply keeps_seq; [apply keeps_Hub_RemoveClient|]. intros; apply keeps_ret.
Qed.

Lemma keeps_ForwardMessage (bookingID : UUID) (senderRole messageType : string)
    (payload : PayloadValue) :
  messageType ≠ "session_ready" →
  keeps (ForwardMessage bookingID senderRole messageType payload).
Proof.
  intros Hty. unfold ForwardMessage.
  apply keeps_seq; [apply keeps_Hub_GetSession|]. intros [session|]; [|apply keeps_ret].
  apply keeps_seq; [|intros; apply keeps_ret].
  apply keeps_Session_SendToRole. unfold is_session_ready. cbn.
  by apply bool_decide_eq_false_2.
Qed.

(** The guarded send of a notice: the flag is false when the notice is
    enqueued and true afterwards. *)
Lemma keeps_notify (c : cptr) (cl : Client.t) (notice : OutMessage.t) :
  keeps_from (λ w, clients w !! c = Some cl)
    (if negb (HasSessionReadySent (Client.ConnectionState cl)) then
       ok <- try_send c notice ;;
       if ok then updClient c (Client.set_ConnectionState (SetSessionReadySent true))
       else ret tt
     else ret tt).
Proof.
  intros w Hc Hwf w' r.
  destruct (HasSessionReadySent (Client.ConnectionState cl)) eqn:Hflag; cbn [negb].
  { intros [= <- _]. split; [done|apply evolves_refl]. }
  unfold bind. rewrite (try_send_spec _ _ _ _ Hc).
  destruct (closed (Client.Send cl)); [intros [= <- _]; split; [done|apply evolves_refl]|].
  destruct (chan_full (Client.Send cl)); [intros [= <- _]; split; [done|apply evolves_refl]|].
  erewrite updClient_Some by (cbn; apply lookup_insert_eq).
  intros [= <- _].
  pose (f := λ cl0, Client.set_ConnectionState (SetSessionReadySent true) (enqueued notice cl0)).
  assert (Htame : tame_at f cl).
  { split; [by destruct cl|]. intros [_ Hz]. specialize (Hz Hflag).
    unfold ready_ok, ready_count in *. destruct cl; cbn in *.
    rewrite filter_app, length_app, Hz. split; [|done].
    cbn. case_decide; cbn; lia. }
  destruct (keeps_updClient_tame c f cl Htame w Hc Hwf _ _ (updClient_Some _ _ _ _ Hc))
    as [Hwf' Hev'].
  replace (set_clients <[c:=Client.set_ConnectionState (SetSessionReadySent true)
                              (enqueued notice cl)]>
             (set_clients <[c:=enqueued notice cl]> w))
    with (set_clients <[c := f cl]> w); [done|].
  unfold set_clients. cbn. by rewrite insert_insert_eq.
Qed.

Lemma keeps_sendSessionReady (session : sptr) (newClient : cptr)
    (auth : WebSocketAuthContext.t) :
  keeps (sendSessionReady session newClient auth).
Proof.
  unfold sendSessionReady.
  apply keeps_seq; [apply keeps_Session_BothJoined|]. intros both.
  destruct (negb both); [apply keeps_ret|].
  apply keeps_seq; [apply keeps_Session_GetOtherClient|]. intros [otherClient|];
    [|apply keeps_ret].
  apply keeps_seq; [apply keeps_getClient|]. intros oc.
  apply keeps_bind_getClient. intros nc.
  apply (keeps_bind _ (λ _, True)); [|done|].
  { eapply keeps_from_weaken; [|apply keeps_notify]. by intros w [_ Hc]. }
  intros _. apply keeps_bind_getClient. intros oc'.
  eapply keeps_from_weaken; [|apply keeps_notify]. by intros w [_ Hc].
Qed.

Lemma keeps_alloc_client (w0 : World) (cl : Client.t) :
  ready_count cl = 0%nat →
  keeps_from (λ w, w = w0) (modify (set_clients <[fresh (dom (clients w0)) := cl]>)).
Proof.
  intros Hcount w Hw [Hsl Hro] w' r [= <- _]. subst w0.
  assert (Hfresh : clients w !! fresh (dom (clients w)) = None).
  { apply not_elem_of_dom, is_fresh. }
  assert (Hev : evolves w (set_clients <[fresh (dom (clients w)) := cl]> w)).
  { intros c0 cl0 Hc0. cbn. rewrite lookup_insert_ne by congruence. eauto. }
  split; [split|done].
  - intros s se Hse. destruct (Hsl _ _ Hse) as [HM HU]. split; intros c0 Hslot.
    + by apply (is_mentor_stable c0 w); [apply HM|].
    + by apply (not_mentor_stable c0 w); [apply HU|].
  - intros c0 cl0. cbn. destruct (decide (fresh (dom (clients w)) = c0)) as [<-|Hne].
    + rewrite lookup_insert_eq. intros [= <-]. split; [lia|done].
    + rewrite lookup_insert_ne by done. apply Hro.
Qed.

Lemma keeps_HandleWebSocket (auth : WebSocketAuthContext.t) (id : UUID) :
  keeps (HandleWebSocket auth id).
Proof.
  unfold HandleWebSocket.
  apply keeps_seq; [apply keeps_liftA|]. intros cs.
  apply keeps_bind_get. intros w0.
  apply (keeps_bind _ (λ _, True)); [|done|].
  { eapply keeps_from_weaken; [|by apply keeps_alloc_client]. by intros w [_ ->]. }
  intros _. apply keeps_seq; [apply keeps_Hub_AddClient|]. intros session.
  apply keeps_seq; [apply keeps_HandleClientJoined|]. intros _.
  apply keeps_seq; [apply keeps_sendSessionReady|]. intros; apply keeps_ret.
Qed.

Lemma keeps_handleOfferMessage (client : cptr) (session : sptr) (payload : RawMessage) :
  keeps (handleOfferMessage client session payload).
Proof.
  unfold handleOfferMessage. destruct (unmarshal_offer payload); [|apply keeps_ret].
  case_decide; [apply keeps_ret|].
  apply keeps_seq; [apply keeps_getClient|]. intros cl.
  by apply keeps_Session_SendToRole.
Qed.

Lemma keeps_handleAnswerMessage (client : cptr) (session : sptr) (payload : RawMessage) :
  keeps (handleAnswerMessage client session payload).
Proof.
  unfold handleAnswerMessage. destruct (unmarshal_answer payload); [|apply keeps_ret].
  case_decide; [apply keeps_ret|].
  apply keeps_seq; [apply keeps_getClient|]. intros cl.
  by apply keeps_Session_SendToRole.
Qed.

Lemma keeps_handleICECandidateMessage (client : cptr) (session : sptr)
    (payload : RawMessage) :
  keeps (handleICECandidateMessage client session payload).
Proof.
  unfold handleICECandidateMessage. destruct (unmarshal_ice payload); [|apply keeps_ret].
  case_decide; [apply keeps_ret|].
  apply keeps_seq; [apply keeps_getClient|]. intros cl.
  by apply keeps_Session_SendToRole.
Qed.

Lemma keeps_readPump_body (client : cptr) (session : sptr) (r : ReadResult) :
  keeps (readPump_body client session r).
Proof.
  unfold readPump_body. destruct r as [|rawMsg]; [apply keeps_ret|].
  destruct (unmarshal_message rawMsg) as [msg|]; [|apply keeps_ret].
  repeat case_decide; try apply keeps_ret.
  - apply keeps_seq; [apply keeps_handleOfferMessage|]. intros; apply keeps_ret.
  - apply keeps_seq; [apply keeps_handleAnswerMessage|]. intros; apply keeps_ret.
  - apply keeps_seq; [apply keeps_handleICECandidateMessage|]. intros; apply keeps_ret.
  - apply keeps_seq; [by apply keeps_try_send|]. intros; apply keeps_ret.
Qed.

Lemma keeps_readPump_deferred (client : cptr) : keeps (readPump_deferred client).
Proof.
  unfold readPump_deferred. apply keeps_seq; [apply keeps_getClient|]. intros cl.
  apply keeps_seq; [apply keeps_HandleClientLeft|]. intros _.
  apply keeps_seq; [apply keeps_Hub_RemoveClient|]. intros _. apply keeps_Conn_Close.
Qed.

Lemma keeps_readPump_loop (client : cptr) (session : sptr) (inputs : list ReadResult) :
  keeps (readPump_loop client session inputs).
Proof.
  induction inputs as [|r rest IH]; cbn [readPump_loop]; [apply keeps_ret|].
  apply keeps_seq; [apply keeps_readPump_body|]. intros [|]; [done|apply keeps_ret].
Qed.

Lemma keeps_with_defer {A} (d : M unit) (body : M A) :
  keeps d → keeps body → keeps (with_defer d body).
Proof.
  intros Hd Hb w _ Hwf w' r. unfold with_defer.
  destruct (body w) as [w1 r1] eqn:Hbody.
  destruct (Hb w I Hwf _ _ Hbody) as [Hwf1 Hev1].
  destruct (d w1) as [w2 r2] eqn:Hdw.
  destruct (Hd w1 I Hwf1 _ _ Hdw) as [Hwf2 Hev2].
  destruct r1, r2; intros [= <- _]; (split; [done|by eapply evolves_trans]).
Qed.

Lemma keeps_readPump (client : cptr) (session : sptr) (inputs : list ReadResult) :
  keeps (readPump client session inputs).
Proof.
  intros w _ Hwf w' r. unfold readPump.
  destruct (readPump_loop client session inputs w) as [w1 r1] eqn:Hloop.
  destruct (keeps_readPump_loop client session inputs w I Hwf _ _ Hloop) as [Hwf1 Hev1].
  destruct r1 as [[|]|msg].
  - intros [= <- _]. done.
  - intros Hd. destruct (keeps_readPump_deferred client w1 I Hwf1 _ _ Hd) as [Hwf2 Hev2].
    split; [done|by eapply evolves_trans].
  - intros Hd.
    destruct (keeps_with_defer (readPump_deferred client) (panic msg)
                (keeps_readPump_deferred client) (keeps_panic msg) w1 I Hwf1 _ _ Hd)
      as [Hwf2 Hev2].
    split; [done|by eapply evolves_trans].
Qed.

Lemma keeps_Conn_Write (client : cptr) (frame : WireFrame) : keeps (Conn_Write client frame).
Proof.
  unfold Conn_Write. apply keeps_seq; [apply keeps_getClient|]. intros cl.
  destruct (Conn.closed (Client.Conn cl)); [apply keeps_ret|].
  apply keeps_seq; [|intros; apply keeps_ret].
  apply keeps_updClient. intros cl'. apply quiet_set_Conn.
Qed.

Lemma keeps_writePump_body (client : cptr) (ev : WriteEvent) :
  keeps (writePump_body client ev).
Proof.
  unfold writePump_body. apply keeps_bind_getClient. intros cl.
  destruct ev.
  - destruct (chan_try_recv (Client.Send cl)) as [[[message|] ch']|] eqn:Hrecv.
    + apply (keeps_bind _ (λ _, True)); [|done|].
      * eapply keeps_from_weaken; [|apply (keeps_updClient_at client _ cl)].
        { by intros w [_ Hc]. }
        apply quiet_set_Send. unfold chan_try_recv in Hrecv.
        destruct (pending (Client.Send cl)); [by destruct (closed (Client.Send cl))|].
        by injection Hrecv as _ <-.
      * intros _. apply keeps_seq; [apply keeps_Conn_Write|].
        intros [|]; apply keeps_ret.
    + apply keeps_any, keeps_seq; [apply keeps_Conn_Write|]. intros; apply keeps_ret.
    + apply keeps_any, keeps_ret.
  - apply keeps_any, keeps_seq; [apply keeps_Conn_Write|]. intros [|]; apply keeps_ret.
  - destruct (closed (Client.Done cl)); apply keeps_any, keeps_ret.
Qed.

Lemma keeps_writePump_step (client : cptr) (ev : WriteEvent) :
  keeps (writePump_step client ev).
Proof.
  unfold writePump_step. apply keeps_seq; [apply keeps_writePump_body|].
  intros [|]; [apply keeps_ret|apply keeps_Conn_Close].
Qed.

Lemma keeps_step (op : Op) : keeps (step op).
Proof.
  destruct op; cbn [step].
  - intros w _ Hwf w' r. unfold recovered. intros [= <- _].
    destruct (HandleWebSocket auth id w) as [w1 r1] eqn:Hrun.
    by apply (keeps_HandleWebSocket auth id w I Hwf w1 r1).
  - apply keeps_readPump.
  - apply keeps_writePump_step.
  - by apply keeps_modify_outside.
Qed.

Lemma keeps_run (ops : list Op) : keeps (run ops).
Proof.
  induction ops as [|op rest IH]; cbn [run]; [apply keeps_ret|].
  apply keeps_seq; [apply keeps_step|]. intros _. apply IH.
Qed.

Lemma wf_NewWorld (table : gmap UUID VideoSession.t) (t : Time) : wf (NewWorld table t).
Proof. split; intros ? ? Hlook; cbn in Hlook; by rewrite lookup_empty in Hlook. Qed.

(** Every world reached by an execution from start-up is well formed. *)
Lemma run_wf (table : gmap UUID VideoSession.t) (t : Time) (ops : list Op) :
  wf (fst (run ops (NewWorld table t))).
Proof.
  destruct (run ops (NewWorld table t)) as [w r] eqn:Hrun.
  by apply (keeps_run ops (NewWorld table t) I (wf_NewWorld table t) _ _ Hrun).
Qed.

End Handlers.




(** C1, witness: Bob has just been registered next to Alice; both are
    due a notice. *)
Lemma session_ready_names_peer_and_own_role_witness :
  ∃ w' ca' cb',
    sendSessionReady 1%positive 2%positive auth_bob world_in_slots = (w', Ret tt) ∧
    clients w' !! 1%positive = Some ca' ∧ clients w' !! 2%positive = Some cb' ∧
    sent (Client.Send ca') =
      sent (Client.Send (sample_client auth_alice 1001%N 1)) ++
      (if notice_due (sample_client auth_alice 1001%N 1)
       then [session_ready (Client.Username (sample_client auth_bob 1002%N 2)) "mentor"]
       else []) ∧
    sent (Client.Send cb') =
      sent (Client.Send (sample_client auth_bob 1002%N 2)) ++
      (if notice_due (sample_client auth_bob 1002%N 2)
       then [session_ready (Client.Username (sample_client auth_alice 1001%N 1)) "user"]
       else []).
Proof.
  apply (session_ready_names_peer_and_own_role 1%positive 1%positive 2%positive 2%positive
           auth_bob world_in_slots
           (Session.mk booking_X (Some 1%positive) (Some 2%positive) 0 (30 * 60) (make_chan 0))
           (sample_client auth_alice 1001%N 1) (sample_client auth_bob 1002%N 2)
           (sample_client auth_bob 1002%N 2));
    try (vm_compute; reflexivity).
  by right.
Defined.

(** C1, counterexample: in the execution in which Alice (mentor) and Bob
    (user) join booking X, the only notice in Alice's queue carries role
    "mentor" and the only one in Bob's carries role "user": neither carries
    the role of the opposite party. *)
Lemma session_ready_role_counterexample :
  (sent ∘ Client.Send) <$> clients world_both_joined !! 1%positive
    = Some [session_ready "bob" "mentor"] ∧
  (sent ∘ Client.Send) <$> clients world_both_joined !! 2%positive
    = Some [session_ready "alice" "user"] ∧
  session_ready "bob" "mentor" ≠ session_ready "bob" "user" ∧
  session_ready "alice" "user" ≠ session_ready "alice" "mentor".
Proof. repeat split; try (vm_compute; reflexivity); discriminate. Qed.


(** ** The registry *)

Lemma only_clients_ret {A} (a : A) : only_clients (ret a).
Proof. intros w w' r [= <- _]. done. Qed.

Lemma only_clients_panic {A} (msg : string) : only_clients (panic (A:=A) msg).
Proof. intros w w' r [= <- _]. done. Qed.

Lemma only_clients_bind {A B} (m : M A) (k : A → M B) :
  only_clients m → (∀ a, only_clients (k a)) → only_clients (bind m k).
Proof.
  intros Hm Hk w w' r. unfold bind. destruct (m w) as [w1 [a|msg]] eqn:Hmw.
  - intros Hkw. destruct (Hm _ _ _ Hmw) as (Hs1 & Hh1 & Hc1).
    destruct (Hk a _ _ _ Hkw) as (Hs2 & Hh2 & Hc2).
    repeat split; [congruence | congruence | auto].
  - intros [= <- _]. by apply (Hm _ _ _ Hmw).
Qed.

Lemma only_clients_getClient (c : cptr) : only_clients (getClient c).
Proof. intros w w' r. unfold getClient. by destruct (clients w !! c); intros [= <- _]. Qed.

Lemma only_clients_updClient (c : cptr) (f : Client.t → Client.t) :
  only_clients (updClient c f).
Proof.
  intros w w' r. unfold updClient, bind, getClient.
  destruct (clients w !! c) as [cl|] eqn:Hc; intros [= <- _]; [|done].
  repeat split. intros c0 Hc0. cbn.
  destruct (decide (c = c0)) as [<-|Hne];
    [by rewrite lookup_insert_eq | by rewrite lookup_insert_ne].
Qed.

Lemma only_clients_Client_Close (c : cptr) : only_clients (Client_Close c).
Proof.
  unfold Client_Close, close_Send, close_Done, Conn_Close.
  apply only_clients_bind.
  { apply only_clients_bind; [apply only_clients_getClient|]. intros cl.
    destruct (chan_close (Client.Send cl));
      [apply only_clients_updClient|apply only_clients_panic]. }
  intros _. apply only_clients_bind; [apply only_clients_updClient|]. intros _.
  apply only_clients_bind; [apply only_clients_getClient|]. intros cl.
  destruct (chan_close (Client.Done cl));
    [apply only_clients_updClient|apply only_clients_panic].
Qed.

Lemma only_clients_close_old (slot : option cptr) (cl : Client.t) :
  only_clients (match slot with
                | Some old =>
                    o <- getClient old ;;
                    if decide (Client.ID o ≠ Client.ID cl) then Client_Close old else ret tt
                | None => ret tt
                end).
Proof.
  destruct slot as [old|]; [|apply only_clients_ret].
  apply only_clients_bind; [apply only_clients_getClient|]. intros o.
  case_decide; [apply only_clients_Client_Close|apply only_clients_ret].
Qed.

Lemma registry_inv_same (w w' : World) :
  sessions w' = sessions w → hub w' = hub w → registry_inv w → registry_inv w'.
Proof. intros Hs Hh Hinv b s. rewrite Hh, Hs. apply Hinv. Qed.

(** Rewriting a registered session into one with the same booking
    identifier and an occupied slot keeps the registry invariant. *)
Lemma registry_inv_fill (w : World) (s : sptr) (se se' : Session.t) :
  registry_inv w →
  sessions w !! s = Some se →
  Session.BookingID se' = Session.BookingID se →
  (Session.Mentor se' ≠ None ∨ Session.User se' ≠ None) →
  registry_inv (set_sessions <[s := se']> w).
Proof.
  intros Hinv Hs Hb Hocc b s0 Hhub. cbn in *.
  destruct (Hinv _ _ Hhub) as (se0 & Hs0 & Hb0 & Hocc0).
  destruct (decide (s = s0)) as [<-|Hne].
  - rewrite lookup_insert_eq. exists se'. split; [done|]. split; [congruence|done].
  - rewrite lookup_insert_ne by done. eauto.
Qed.

(** Registering a fresh session with an occupied slot under a free
    booking identifier keeps the registry invariant. *)
Lemma registry_inv_new (w : World) (b : UUID) (se' : Session.t) :
  registry_inv w →
  Session.BookingID se' = b →
  (Session.Mentor se' ≠ None ∨ Session.User se' ≠ None) →
  registry_inv
    (mkWorld (arrays w) (clients w) (<[fresh (dom (sessions w)) := se']> (sessions w))
       (<[b := fresh (dom (sessions w))]> (hub w)) (video_sessions w) (clock w)).
Proof.
  intros Hinv Hb Hocc b0 s0. cbn. destruct (decide (b = b0)) as [<-|Hne].
  - rewrite lookup_insert_eq. intros [= <-]. rewrite lookup_insert_eq. eauto.
  - rewrite lookup_insert_ne by done. intros Hhub.
    destruct (Hinv _ _ Hhub) as (se0 & Hs0 & Hrest).
    rewrite lookup_insert_ne; [eauto|].
    intros <-. apply (is_fresh (dom (sessions w))), elem_of_dom. eauto.
Qed.

(** AddClient, on an allocated client, keeps the registry invariant
    whether it returns or panics, and deallocates no client. *)
Lemma Hub_AddClient_registry (bookingID : UUID) (client : cptr) (w w' : World)
    (r : Outcome sptr) :
  registry_inv w →
  is_Some (clients w !! client) →
  Hub_AddClient bookingID client w = (w', r) →
  registry_inv w' ∧ (∀ c, is_Some (clients w !! c) → is_Some (clients w' !! c)).
Proof.
  intros Hinv [cl Hcl]. unfold Hub_AddClient.
  rewrite (bind_Ret get _ w w w) by done.
  destruct (hub w !! bookingID) as [s|] eqn:Hhub.
  - (* the session is registered *)
    destruct (Hinv _ _ Hhub) as (se & Hs & Hb & Hocc).
    rewrite (bind_Ret (ret s) _ w w s) by done.
    rewrite (bind_Ret _ _ _ _ _ (getClient_Some _ _ _ Hcl)).
    case_decide as Hrole.
    + unfold bind at 1. unfold bind at 1.
      rewrite (getSession_Some _ _ _ Hs). unfold bind at 1.
      lazymatch goal with
      | |- context [match ?m w with _ => _ end] => destruct (m w) as [w2 r2] eqn:Hclose
      end.
      destruct (only_clients_close_old (Session.Mentor se) cl _ _ _ Hclose)
        as (Hs2 & Hh2 & Hc2).
      destruct r2 as [[]|msg]; cbn.
      * erewrite updSession_Some by (rewrite Hs2; exact Hs). cbn.
        intros [= <- _]. split.
        -- apply (registry_inv_fill w2 s se); try done.
           ++ by apply (registry_inv_same w).
           ++ by rewrite Hs2.
           ++ by left.
        -- intros c Hc. cbn. by apply Hc2.
      * intros [= <- _]. split; [|exact Hc2]. by apply (registry_inv_same w).
    + unfold bind at 1. unfold bind at 1.
      rewrite (getSession_Some _ _ _ Hs). unfold bind at 1.
      lazymatch goal with
      | |- context [match ?m w with _ => _ end] => destruct (m w) as [w2 r2] eqn:Hclose
      end.
      destruct (only_clients_close_old (Session.User se) cl _ _ _ Hclose)
        as (Hs2 & Hh2 & Hc2).
      destruct r2 as [[]|msg]; cbn.
      * erewrite updSession_Some by (rewrite Hs2; exact Hs). cbn.
        intros [= <- _]. split.
        -- apply (registry_inv_fill w2 s se); try done.
           ++ by apply (registry_inv_same w).
           ++ by rewrite Hs2.
           ++ by right.
        -- intros c Hc. cbn. by apply Hc2.
      * intros [= <- _]. split; [|exact Hc2]. by apply (registry_inv_same w).
  - (* a new session is created and registered *)
    unfold NewSession, time_Now, updSession.
    unfold bind, get, modify, ret, getClient, getSession.
    cbn. rewrite Hcl. case_decide as Hrole; cbn; repeat (rewrite lookup_insert_eq; cbn);
      intros [= <- _]; (split; [|done]).
    + unfold set_sessions, set_hub. cbn. rewrite insert_insert_eq.
      by apply (registry_inv_new w bookingID
                  (Session.mk bookingID (Some client) None (clock w) (30 * 60) (make_chan 0)));
        [| |left].
    + unfold set_sessions, set_hub. cbn. rewrite insert_insert_eq.
      by apply (registry_inv_new w bookingID
                  (Session.mk bookingID None (Some client) (clock w) (30 * 60) (make_chan 0)));
        [| |right].
Qed.

(** RemoveClient keeps the registry invariant and touches no client. *)
Lemma Hub_RemoveClient_registry (bookingID : UUID) (role : string) (w w' : World)
    (r : Outcome unit) :
  registry_inv w →
  Hub_RemoveClient bookingID role w = (w', r) →
  registry_inv w' ∧ clients w' = clients w.
Proof.
  intros Hinv. unfold Hub_RemoveClient.
  rewrite (bind_Ret get _ w w w) by done.
  destruct (hub w !! bookingID) as [s|] eqn:Hhub; [|by intros [= <- _]].
  destruct (Hinv _ _ Hhub) as (se & Hs & Hb & Hocc).
  assert (Hgo : ∀ se', Session.BookingID se' = Session.BookingID se →
    (se0 <- getSession s ;;
     if decide (Session.Mentor se0 = None ∧ Session.User se0 = None)
     then modify (set_hub (delete bookingID)) else ret tt)
      (set_sessions <[s := se']> w) = (w', r) →
    registry_inv w' ∧ clients w' = clients w).
  { intros se' Hb'.
    erewrite bind_Ret by (apply getSession_Some; cbn; apply lookup_insert_eq).
    case_decide as Hempty; cbn; intros [= <- _]; (split; [|done]).
    - intros b0 s0. cbn. destruct (decide (bookingID = b0)) as [<-|Hne].
      + by rewrite lookup_delete_eq.
      + rewrite lookup_delete_ne by done. intros Hhub0.
        destruct (Hinv _ _ Hhub0) as (se0 & Hs0 & Hb0 & Hocc0).
        rewrite lookup_insert_ne; [eauto|]. intros <-. congruence.
    - apply (registry_inv_fill w s se); try done.
      destruct (Session.Mentor se') eqn:HM, (Session.User se') eqn:HU;
        try (by left); try (by right).
      by destruct Hempty. }
  case_decide as Hrole.
  - erewrite bind_Ret by (by apply updSession_Some). by apply Hgo.
  - erewrite bind_Ret by (by apply updSession_Some). by apply Hgo.
Qed.

Lemma hub_step_registry (op : HubOp) (w : World) :
  registry_inv w →
  match op with
  | AddClient _ c => is_Some (clients w !! c)
  | RemoveClient _ _ => True
  end →
  registry_inv (hub_step op w) ∧
  (∀ c, is_Some (clients w !! c) → is_Some (clients (hub_step op w) !! c)).
Proof.
  intros Hinv Hop. destruct op as [b c|b role]; cbn [hub_step].
  - destruct (Hub_AddClient b c w) as [w' r] eqn:Hrun.
    by apply (Hub_AddClient_registry b c w w' r).
  - destruct (Hub_RemoveClient b role w) as [w' r] eqn:Hrun.
    destruct (Hub_RemoveClient_registry b role w w' r Hinv Hrun) as [Hinv' Hc].
    split; [done|]. intros c. cbn. by rewrite Hc.
Qed.

Lemma hub_run_registry (ops : list HubOp) :
  ∀ w, registry_inv w → clients_allocated w ops → registry_inv (hub_run ops w).
Proof.
  induction ops as [|op rest IH]; intros w Hinv Halloc; [done|].
  apply Forall_cons in Halloc as [Hop Hrest].
  destruct (hub_step_registry op w Hinv Hop) as [Hinv' Hmono].
  cbn. apply IH; [done|].
  eapply Forall_impl; [exact Hrest|]. intros [b c|b role]; [apply Hmono|done].
Qed.

(** C10: after every sequence of AddClient and RemoveClient calls on a
    registry that starts empty, every registered Session has an occupied
    role slot, a booking identifier is registered with at most one Session,
    and no Session is registered under two booking identifiers. *)
Theorem registry_occupancy (w0 : World) (ops : list HubOp) :
  hub w0 = ∅ →
  clients_allocated w0 ops →
  let w := hub_run ops w0 in
  (∀ b s, hub w !! b = Some s →
     ∃ se, sessions w !! s = Some se ∧
           (Session.Mentor se ≠ None ∨ Session.User se ≠ None)) ∧
  (∀ b s s', hub w !! b = Some s → hub w !! b = Some s' → s = s') ∧
  (∀ b b' s, hub w !! b = Some s → hub w !! b' = Some s → b = b').
Proof.
  intros Hempty Halloc w.
  assert (Hinv : registry_inv w).
  { apply hub_run_registry; [|done]. intros b s. by rewrite Hempty, lookup_empty. }
  split; [|split].
  - intros b s Hhub. destruct (Hinv _ _ Hhub) as (se & Hs & _ & Hocc). eauto.
  - intros b s s' H1 H2. congruence.
  - intros b b' s H1 H2.
    destruct (Hinv _ _ H1) as (se & Hs & Hb & _).
    destruct (Hinv _ _ H2) as (se' & Hs' & Hb' & _). congruence.
Qed.

(** C10, witness: two bookings, joins and departures of two clients. *)
Lemma registry_occupancy_witness :
  (∀ b s, hub (hub_run sample_hub_ops world_two_clients) !! b = Some s →
     ∃ se, sessions (hub_run sample_hub_ops world_two_clients) !! s = Some se ∧
           (Session.Mentor se ≠ None ∨ Session.User se ≠ None)) ∧
  (∀ b s s', hub (hub_run sample_hub_ops world_two_clients) !! b = Some s →
     hub (hub_run sample_hub_ops world_two_clients) !! b = Some s' → s = s') ∧
  (∀ b b' s, hub (hub_run sample_hub_ops world_two_clients) !! b = Some s →
     hub (hub_run sample_hub_ops world_two_clients) !! b' = Some s → b = b').
Proof.
  apply (registry_occupancy world_two_clients sample_hub_ops).
  - reflexivity.
  - repeat constructor; vm_compute; eauto.
Defined.

(** C6, witness: a buffer of capacity two, just created. *)
Lemma MessageBuffer_Add_Flush_witness :
  (∀ msg, Z.of_nat (len (MessageBuffer.messages sample_buffer))
            >= MessageBuffer.maxSize sample_buffer →
     MessageBuffer_Add msg sample_buffer sample_arrays
       = (sample_arrays, Ret (sample_buffer, Some ErrMessageBufferFull))) ∧
  (len (MessageBuffer.messages sample_buffer) = 0%nat →
   ∀ msgs, ∃ A1 mb1 added A2 mb2 flushed,
     MessageBuffer_AddAll msgs sample_buffer sample_arrays = (A1, Ret (mb1, added)) ∧
     MessageBuffer_Flush mb1 A1 = (A2, Ret (mb2, flushed)) ∧
     contents A2 flushed = added ∧
     mb_ok A2 mb2 ∧
     MessageBuffer_IsEmpty mb2 = true ∧
     contents A2 (MessageBuffer.messages mb2) = [] ∧
     arr (MessageBuffer.messages mb2) ≠ arr flushed ∧
     ∀ later, ∃ A3 mb3 added',
       MessageBuffer_AddAll later mb2 A2 = (A3, Ret (mb3, added')) ∧
       contents A3 flushed = added ∧
       contents A3 (MessageBuffer.messages mb3) = added').
Proof.
  apply (MessageBuffer_Add_Flush sample_arrays sample_buffer).
  exists [zeroMessage; zeroMessage]. repeat split; vm_compute; (reflexivity || lia).
Defined.

(** The sample buffer is the one NewMessageBuffer creates; three adds
    on it keep the first two messages, and the flush returns them. *)
Example sample_buffer_created :
  NewMessageBuffer 2 ∅ = (sample_arrays, Ret sample_buffer).
Proof. reflexivity. Qed.

Example sample_buffer_overflow :
  let m1 := WebSocketMessage.mk "offer" "a" in
  let m2 := WebSocketMessage.mk "answer" "b" in
  let m3 := WebSocketMessage.mk "ice_candidate" "c" in
  ∃ A1 mb1, MessageBuffer_AddAll [m1; m2; m3] sample_buffer sample_arrays
              = (A1, Ret (mb1, [m1; m2])) ∧
            MessageBuffer_Add m3 mb1 A1 = (A1, Ret (mb1, Some ErrMessageBufferFull)) ∧
            contents (fst (MessageBuffer_Flush mb1 A1)) (MessageBuffer.messages mb1)
              = [m1; m2].
Proof. eexists _, _. repeat split; vm_compute; reflexivity. Qed.

(** * Further properties of the code *)

(** ** messages.go: the buffer and the connection state *)

(** The number of elements a well-shaped buffer holds is the length of
    its slice. *)
Lemma mb_ok_length_contents (A : Arrays) (mb : MessageBuffer.t) :
  mb_ok A mb → length (contents A (MessageBuffer.messages mb)) = len (MessageBuffer.messages mb).
Proof.
  intros (cells & Hc & Hlen & Hle & _). unfold contents. rewrite Hc. cbn.
  rewrite length_take. lia.
Qed.

(** NewMessageBuffer with a negative size panics in [make] and allocates
    nothing; with any other size it returns an empty buffer of that size
    on a new backing array and leaves the arrays that exist alone. *)
Theorem NewMessageBuffer_spec (n : Z) (A : Arrays) :
  if decide (n < 0) then NewMessageBuffer n A = (A, Panic panic_makeslice)
  else ∃ A' mb, NewMessageBuffer n A = (A', Ret mb) ∧
         mb_ok A' mb ∧
         MessageBuffer_Size mb = 0 ∧
         MessageBuffer_IsEmpty mb = true ∧
         MessageBuffer.maxSize mb = n ∧
         contents A' (MessageBuffer.messages mb) = [] ∧
         (arr (MessageBuffer.messages mb) ∉ dom A) ∧
         (∀ a, a ∈ dom A → A' !! a = A !! a).
Proof.
  case_decide as Hn.
  - unfold NewMessageBuffer, bind, make. by rewrite decide_True.
  - destruct (NewMessageBuffer_ok n A ltac:(lia)) as (A' & mb & Hrun & Hok & Hlen & Hmax & Hfr & Hold).
    exists A', mb. repeat split; try done.
    + unfold MessageBuffer_Size. by rewrite Hlen.
    + unfold MessageBuffer_IsEmpty. by rewrite Hlen.
    + unfold contents. by rewrite Hlen, take_0.
Qed.

(** After any run of Add calls the size of the buffer is the size before
    plus the number of calls, cut off at maxSize: the size never exceeds
    maxSize, and IsEmpty holds exactly when the size is zero. *)
Theorem MessageBuffer_Size_after_adds (A : Arrays) (mb : MessageBuffer.t)
    (msgs : list WebSocketMessage.t) :
  mb_ok A mb →
  ∃ A' mb' added, MessageBuffer_AddAll msgs mb A = (A', Ret (mb', added)) ∧
    MessageBuffer_Size mb' =
      Z.min (MessageBuffer_Size mb + Z.of_nat (length msgs)) (MessageBuffer.maxSize mb) ∧
    MessageBuffer_Size mb' ≤ MessageBuffer.maxSize mb' ∧
    Z.of_nat (length added) = MessageBuffer_Size mb' - MessageBuffer_Size mb ∧
    (MessageBuffer_IsEmpty mb' = true ↔ MessageBuffer_Size mb' = 0).
Proof.
  intros Hok.
  destruct (MessageBuffer_AddAll_spec msgs mb A Hok)
    as (A' & mb' & added & Hrun & Hok' & Hc & Hadd & _ & Hmax & _).
  exists A', mb', added. split; [done|].
  pose proof (mb_ok_length_contents _ _ Hok) as Hl.
  pose proof (mb_ok_length_contents _ _ Hok') as Hl'.
  rewrite Hc, length_app, Hl in Hl'.
  assert (Hla : length added
                = Nat.min (Z.to_nat (MessageBuffer.maxSize mb) - len (MessageBuffer.messages mb))
                    (length msgs)).
  { rewrite Hadd, length_take. lia. }
  destruct Hok as (cells & _ & _ & Hle & Hcap).
  unfold MessageBuffer_Size, MessageBuffer_IsEmpty. rewrite Hmax.
  repeat split; try lia.
  - intros H%bool_decide_eq_true. lia.
  - intros H. apply bool_decide_eq_true. lia.
Qed.

(** Flush on a buffer that has just been flushed returns an empty slice,
    leaves what the first Flush returned as it was, and keeps maxSize. *)
Theorem MessageBuffer_Flush_twice (A : Arrays) (mb : MessageBuffer.t) :
  mb_ok A mb →
  ∃ A1 mb1 first A2 mb2 second,
    MessageBuffer_Flush mb A = (A1, Ret (mb1, first)) ∧
    MessageBuffer_Flush mb1 A1 = (A2, Ret (mb2, second)) ∧
    contents A1 first = contents A (MessageBuffer.messages mb) ∧
    contents A2 first = contents A (MessageBuffer.messages mb) ∧
    contents A2 second = [] ∧
    MessageBuffer_Size mb2 = 0 ∧
    MessageBuffer.maxSize mb2 = MessageBuffer.maxSize mb.
Proof.
  intros Hok.
  destruct (MessageBuffer_Flush_spec mb A Hok)
    as (A1 & mb1 & Hf1 & Hc1 & Hok1 & Hlen1 & Hnil1 & Hmax1 & Hne1).
  destruct (MessageBuffer_Flush_spec mb1 A1 Hok1)
    as (A2 & mb2 & Hf2 & Hc2 & Hok2 & Hlen2 & Hnil2 & Hmax2 & Hne2).
  exists A1, mb1, (MessageBuffer.messages mb), A2, mb2, (MessageBuffer.messages mb1).
  repeat split; try done.
  - assert (Harr : A2 !! arr (MessageBuffer.messages mb) = A1 !! arr (MessageBuffer.messages mb)).
    { revert Hf2. unfold MessageBuffer_Flush, bind, make.
      destruct (decide _); [done|]. intros [= <- _].
      rewrite lookup_insert_ne; [done|]. intros Heq.
      destruct Hok as (cells & Hcells & _).
      assert (Hin : arr (MessageBuffer.messages mb) ∈ dom A1).
      { revert Hf1. unfold MessageBuffer_Flush, bind, make.
        destruct (decide _); [done|]. intros [= <- _].
        apply elem_of_dom. rewrite lookup_insert_ne; [eauto|].
        intros Heq'. apply (is_fresh (dom A)). rewrite Heq'. apply elem_of_dom. eauto. }
      apply (is_fresh (dom A1)). by rewrite Heq. }
    unfold contents. rewrite Harr. exact Hc1.
  - by rewrite Hc2.
  - unfold MessageBuffer_Size. by rewrite Hlen2.
  - congruence.
Qed.

(** With buffering switched off, BufferMessage returns false and changes
    neither the state nor the array store. *)
Lemma BufferMessage_inactive (msg : WebSocketMessage.t) (cs : ConnectionState.t) (A : Arrays) :
  ConnectionState.MessageBufferActive cs = false →
  BufferMessage msg cs A = (A, Ret (cs, false)).
Proof. intros H. unfold BufferMessage. by rewrite H. Qed.

Lemma state_step_inactive (op : StateOp) (cs cs' : ConnectionState.t) (A A' : Arrays) :
  ConnectionState.MessageBufferActive cs = false →
  state_step op cs A = (A', Ret cs') →
  ConnectionState.MessageBufferActive cs' = false.
Proof.
  intros Hoff. destruct op as [ready|sent|msg|]; cbn.
  - intros [= _ <-]. cbn. by destruct ready.
  - by intros [= _ <-].
  - unfold bind. rewrite (BufferMessage_inactive _ _ _ Hoff). by intros [= _ <-].
  - unfold FlushBuffer, bind.
    destruct (MessageBuffer_Flush _ A) as [A1 [[mb1 s1]|msg]]; [|done].
    by intros [= _ <-].
Qed.

(** Buffering is a one-way switch: once it is off (SetPeerConnectionReady
    (true) turns it off), no later call on the connection state turns it on
    again, SetPeerConnectionReady(false) included, and every later
    BufferMessage returns false without touching the state or the store. *)
Theorem buffering_never_resumes (ops : list StateOp) :
  ∀ (cs cs' : ConnectionState.t) (A A' : Arrays),
  state_run ops (SetPeerConnectionReady true cs) A = (A', Ret cs') →
  ConnectionState.MessageBufferActive cs' = false ∧
  ∀ msg, BufferMessage msg cs' A' = (A', Ret (cs', false)).
Proof.
  assert (Hgen : ∀ (cs cs' : ConnectionState.t) (A A' : Arrays),
            ConnectionState.MessageBufferActive cs = false →
            state_run ops cs A = (A', Ret cs') →
            ConnectionState.MessageBufferActive cs' = false).
  { induction ops as [|op rest IH]; intros cs cs' A A' Hoff; cbn.
    - by intros [= _ <-].
    - unfold bind. destruct (state_step op cs A) as [A1 [cs1|msg]] eqn:Hstep; [|done].
      apply IH. by apply (state_step_inactive op cs cs1 A A1). }
  intros cs cs' A A' Hrun.
  assert (Hoff : ConnectionState.MessageBufferActive cs' = false)
    by (by apply (Hgen (SetPeerConnectionReady true cs) cs' A A')).
  split; [done|]. intros msg. by apply BufferMessage_inactive.
Qed.

(** While buffering is on, a run of BufferMessage calls buffers the
    messages as long as there is room and returns false for the others. *)
Lemma BufferMessage_all_active (msgs : list WebSocketMessage.t) :
  ∀ (cs : ConnectionState.t) (A : Arrays),
  ConnectionState.MessageBufferActive cs = true →
  mb_ok A (ConnectionState.messageBuffer cs) →
  let mb := ConnectionState.messageBuffer cs in
  let room := (Z.to_nat (MessageBuffer.maxSize mb) - len (MessageBuffer.messages mb))%nat in
  ∃ A' cs', BufferMessage_all msgs cs A
              = (A', Ret (cs', replicate (Nat.min room (length msgs)) true ++
                               replicate (length msgs - room) false)) ∧
    ConnectionState.MessageBufferActive cs' = true ∧
    ConnectionState.PeerConnectionReady cs' = ConnectionState.PeerConnectionReady cs ∧
    ConnectionState.SessionReadySent cs' = ConnectionState.SessionReadySent cs ∧
    mb_ok A' (ConnectionState.messageBuffer cs') ∧
    contents A' (MessageBuffer.messages (ConnectionState.messageBuffer cs'))
      = contents A (MessageBuffer.messages mb) ++ take room msgs.
Proof.
  induction msgs as [|msg rest IH]; intros cs A Hon Hok mb room.
  - exists A, cs. cbn. rewrite Nat.min_0_r, take_nil. subst mb. repeat split; try done. by rewrite app_nil_r.
  - destruct cs as [p s a mb0]. cbn in Hon, Hok, mb, room. subst a mb.
    cbn [BufferMessage_all]. unfold bind at 1. unfold BufferMessage.
    cbn [ConnectionState.MessageBufferActive ConnectionState.messageBuffer
         ConnectionState.PeerConnectionReady ConnectionState.SessionReadySent negb].
    destruct (decide (Z.of_nat (len (MessageBuffer.messages mb0)) >= MessageBuffer.maxSize mb0))
      as [Hfull|Hroom].
    + unfold bind at 1. rewrite (MessageBuffer_Add_full _ _ _ Hfull). cbn [fst snd ret].
      destruct (IH (ConnectionState.mk p s true mb0) A eq_refl Hok)
        as (A' & cs' & Hrun & Hon' & Hp & Hs & Hok' & Hc).
      unfold bind at 1. rewrite Hrun. cbn [fst snd ret].
      exists A', cs'. subst room. cbn in *.
      replace (Z.to_nat (MessageBuffer.maxSize mb0) - len (MessageBuffer.messages mb0))%nat
        with 0%nat in * by lia.
      cbn in *. rewrite Nat.sub_0_r in *. repeat split; done.
    + destruct (MessageBuffer_Add_room msg mb0 A Hok ltac:(lia))
        as (A1 & mb1 & Hadd1 & Hok1 & Hc1 & Harr1 & Hfr1).
      unfold bind at 1. rewrite Hadd1. cbn [fst snd ret].
      assert (Hlen1 : len (MessageBuffer.messages mb1) = S (len (MessageBuffer.messages mb0)) ∧
                      MessageBuffer.maxSize mb1 = MessageBuffer.maxSize mb0).
      { revert Hadd1. unfold MessageBuffer_Add. destruct (decide _); [lia|].
        unfold bind, append. destruct (decide _); cbn; intros [= <- <-]; done. }
      destruct Hlen1 as [Hlen1 Hmax1].
      destruct (IH (ConnectionState.mk p s true mb1) A1 eq_refl Hok1)
        as (A' & cs' & Hrun & Hon' & Hp & Hs & Hok' & Hc).
      unfold bind at 1. rewrite Hrun. cbn [fst snd ret].
      exists A', cs'. cbn in Hc, Hp, Hs. rewrite Hlen1, Hmax1 in Hc.
      rewrite bool_decide_eq_true_2 by done.
      subst room.
      replace (Z.to_nat (MessageBuffer.maxSize mb0) - len (MessageBuffer.messages mb0))%nat
        with (S (Z.to_nat (MessageBuffer.maxSize mb0) - S (len (MessageBuffer.messages mb0))))
        by lia.
      cbn [length Nat.min Nat.sub replicate app take].
      cbn [ConnectionState.MessageBufferActive ConnectionState.messageBuffer
           ConnectionState.PeerConnectionReady ConnectionState.SessionReadySent].
      repeat split; try done.
      * rewrite Hlen1, Hmax1. done.
      * rewrite Hc, Hc1, <- app_assoc. done.
Qed.

(** A connection state as NewConnectionState creates it buffers the
    first hundred messages it is given, in order, and refuses the others
    (BufferMessage returns false for them although buffering is on);
    FlushBuffer then returns exactly the buffered messages and leaves the
    buffer empty. *)
Theorem fresh_state_buffers_hundred (A : Arrays) (msgs : list WebSocketMessage.t) :
  ∃ A0 cs0 A1 cs1 A2 cs2 flushed,
    NewConnectionState A = (A0, Ret cs0) ∧
    BufferMessage_all msgs cs0 A0
      = (A1, Ret (cs1, replicate (Nat.min 100 (length msgs)) true ++
                       replicate (length msgs - 100) false)) ∧
    FlushBuffer cs1 A1 = (A2, Ret (cs2, flushed)) ∧
    contents A2 flushed = take 100 msgs ∧
    contents A2 (MessageBuffer.messages (ConnectionState.messageBuffer cs2)) = [] ∧
    ConnectionState.MessageBufferActive cs2 = true ∧
    ConnectionState.PeerConnectionReady cs2 = false ∧
    ConnectionState.SessionReadySent cs2 = false.
Proof.
  destruct (NewMessageBuffer_ok 100 A ltac:(lia))
    as (A0 & mb0 & Hnew & Hok0 & Hlen0 & Hmax0 & _ & _).
  destruct (BufferMessage_all_active msgs (ConnectionState.mk false false true mb0) A0
              eq_refl Hok0) as (A1 & cs1 & Hrun & Hon1 & Hp1 & Hs1 & Hok1 & Hc1).
  cbn in Hrun, Hc1, Hp1, Hs1. rewrite Hlen0, Hmax0 in Hrun, Hc1.
  change (Z.to_nat 100 - 0)%nat with 100%nat in Hrun, Hc1.
  destruct (MessageBuffer_Flush_spec _ A1 Hok1)
    as (A2 & mb2 & Hfl & Hc2 & Hok2 & Hlen2 & Hnil2 & _ & _).
  exists A0, (ConnectionState.mk false false true mb0), A1, cs1, A2,
    (ConnectionState.mk (ConnectionState.PeerConnectionReady cs1)
       (ConnectionState.SessionReadySent cs1) (ConnectionState.MessageBufferActive cs1) mb2),
    (MessageBuffer.messages (ConnectionState.messageBuffer cs1)).
  repeat split; try done.
  - unfold NewConnectionState, bind. by rewrite Hnew.
  - unfold FlushBuffer, bind. by rewrite Hfl.
  - rewrite Hc2, Hc1. unfold contents. by rewrite Hlen0, take_0.
Qed.

(** ** The hub: registration, removal, broadcast, close *)

Lemma updClient_frame (c : cptr) (f : Client.t → Client.t) (w w' : World) (r : Outcome unit) :
  updClient c f w = (w', r) →
  ∀ c', c' ≠ c → clients w' !! c' = clients w !! c'.
Proof.
  unfold updClient, bind, getClient, modify.
  destruct (clients w !! c); intros [= <- _] c' Hne; [|done].
  cbn. by rewrite lookup_insert_ne.
Qed.

(** Close touches no client but its own. *)
Lemma Client_Close_frame (c : cptr) (w w' : World) (r : Outcome unit) :
  Client_Close c w = (w', r) →
  ∀ c', c' ≠ c → clients w' !! c' = clients w !! c'.
Proof.
  intros Hrun c' Hne. revert Hrun.
  assert (Hsend : ∀ w w' r, close_Send c w = (w', r) → clients w' !! c' = clients w !! c').
  { intros w0 w0' r0. unfold close_Send, bind at 1, getClient.
    destruct (clients w0 !! c) as [cl|]; [|by intros [= <- _]].
    destruct (chan_close (Client.Send cl)); [|by intros [= <- _]].
    intros H. by apply (updClient_frame _ _ _ _ _ H). }
  assert (Hdone : ∀ w w' r, close_Done c w = (w', r) → clients w' !! c' = clients w !! c').
  { intros w0 w0' r0. unfold close_Done, bind at 1, getClient.
    destruct (clients w0 !! c) as [cl|]; [|by intros [= <- _]].
    destruct (chan_close (Client.Done cl)); [|by intros [= <- _]].
    intros H. by apply (updClient_frame _ _ _ _ _ H). }
  unfold Client_Close, Conn_Close. unfold bind at 1.
  destruct (close_Send c w) as [w1 [[]|msg]] eqn:H1.
  2:{ intros [= <- _]. by apply (Hsend _ _ _ H1). }
  unfold bind at 1.
  destruct (updClient c _ w1) as [w2 [[]|msg]] eqn:H2.
  2:{ intros [= <- _]. rewrite (updClient_frame _ _ _ _ _ H2) by done.
      by apply (Hsend _ _ _ H1). }
  intros H3. rewrite (Hdone _ _ _ H3), (updClient_frame _ _ _ _ _ H2) by done.
  by apply (Hsend _ _ _ H1).
Qed.

(** What AddClient does before it fills the slot: the occupant is closed
    when its instance id differs from the new client's. *)
Lemma close_old_frame (slot : option cptr) (cl : Client.t) (client : cptr)
    (w w' : World) (r : Outcome unit) :
  clients w !! client = Some cl →
  match slot with
  | Some old =>
      o <- getClient old ;;
      if decide (Client.ID o ≠ Client.ID cl) then Client_Close old else ret tt
  | None => ret tt
  end w = (w', r) →
  clients w' !! client = Some cl.
Proof.
  intros Hcl. destruct slot as [old|]; [|by intros [= <- _]].
  unfold bind at 1. unfold getClient at 1.
  destruct (clients w !! old) as [o|] eqn:Ho; [|by intros [= <- _]].
  case_decide as Hid; [|by intros [= <- _]].
  intros Hclose. rewrite (Client_Close_frame _ _ _ _ Hclose); [done|].
  intros ->. rewrite Hcl in Ho. by injection Ho as ->.
Qed.

(** AddClient, whenever it returns: the session it returns is the one
    registered for the booking, the slot of the client's role holds the
    client, the opposite slot holds what it held (nothing, for a session
    just created), the registrations of the other bookings are untouched
    and so is the client itself. *)
Theorem Hub_AddClient_registers (bookingID : UUID) (client : cptr) (s : sptr)
    (w w' : World) :
  Hub_AddClient bookingID client w = (w', Ret s) →
  ∃ cl se',
    clients w !! client = Some cl ∧
    clients w' !! client = Some cl ∧
    Hub_GetSession bookingID w' = (w', Ret (Some s)) ∧
    sessions w' !! s = Some se' ∧
    slot_of (Client.Role cl) se' = Some client ∧
    opposite_slot (Client.Role cl) se' =
      match hub w !! bookingID with
      | Some s0 => se ← sessions w !! s0 ; opposite_slot (Client.Role cl) se
      | None => None
      end ∧
    (∀ s0, hub w !! bookingID = Some s0 → s = s0) ∧
    (∀ b, b ≠ bookingID → hub w' !! b = hub w !! b).
Proof.
  unfold Hub_AddClient.
  rewrite (bind_Ret get _ w w w) by done.
  destruct (hub w !! bookingID) as [s0|] eqn:Hhub.
  - rewrite (bind_Ret (ret s0) _ w w s0) by done.
    destruct (clients w !! client) as [cl|] eqn:Hcl;
      [|by rewrite (bind_Panic _ _ _ _ _ (getClient_None _ _ Hcl))].
    rewrite (bind_Ret _ _ _ _ _ (getClient_Some _ _ _ Hcl)).
    destruct (sessions w !! s0) as [se|] eqn:Hs.
    2:{ case_decide; unfold bind at 1; unfold bind at 1; unfold getSession at 1;
          by rewrite Hs. }
    unfold slot_of, opposite_slot.
    destruct (decide (Client.Role cl = "mentor")) as [Hrole|Hrole].
    + unfold bind at 1. unfold bind at 1.
      rewrite (getSession_Some _ _ _ Hs). unfold bind at 1.
      lazymatch goal with
      | |- context [match ?m w with _ => _ end] => destruct (m w) as [w2 r2] eqn:Hclose
      end.
      destruct (only_clients_close_old (Session.Mentor se) cl _ _ _ Hclose)
        as (Hs2 & Hh2 & Hc2).
      pose proof (close_old_frame _ _ _ _ _ _ Hcl Hclose) as Hcl2.
      destruct r2 as [[]|msg]; cbn; [|done].
      erewrite updSession_Some by (rewrite Hs2; exact Hs). cbn.
      intros [= <- <-]. exists cl, (Session.set_Mentor (Some client) se). cbn.
      rewrite lookup_insert_eq, Hh2, Hhub.
      rewrite ?decide_True by done. rewrite ?decide_False by done.
      repeat split; try done. intros s1 [= <-]. done.
    + unfold bind at 1. unfold bind at 1.
      rewrite (getSession_Some _ _ _ Hs). unfold bind at 1.
      lazymatch goal with
      | |- context [match ?m w with _ => _ end] => destruct (m w) as [w2 r2] eqn:Hclose
      end.
      destruct (only_clients_close_old (Session.User se) cl _ _ _ Hclose)
        as (Hs2 & Hh2 & Hc2).
      pose proof (close_old_frame _ _ _ _ _ _ Hcl Hclose) as Hcl2.
      destruct r2 as [[]|msg]; cbn; [|done].
      erewrite updSession_Some by (rewrite Hs2; exact Hs). cbn.
      intros [= <- <-]. exists cl, (Session.set_User (Some client) se). cbn.
      rewrite lookup_insert_eq, Hh2, Hhub.
      rewrite ?decide_True by done. rewrite ?decide_False by done.
      repeat split; try done. intros s1 [= <-]. done.
  - unfold NewSession, time_Now, updSession, slot_of, opposite_slot.
    unfold bind, get, modify, ret, getClient, getSession. cbn.
    destruct (clients w !! client) as [cl|] eqn:Hcl; [|done].
    destruct (decide (Client.Role cl = "mentor")) as [Hrole|Hrole]; cbn;
      repeat (rewrite lookup_insert_eq; cbn); intros [= <- <-]; cbn;
      eexists cl, _; rewrite !lookup_insert_eq; cbn;
      rewrite ?decide_True by done; rewrite ?decide_False by done;
      (repeat split; try done); intros b Hb; by rewrite lookup_insert_ne.
Qed.

Lemma Hub_AddClient_new (bookingID : UUID) (client : cptr) (cl : Client.t) (w : World) :
  hub w !! bookingID = None →
  clients w !! client = Some cl →
  let s := fresh (dom (sessions w)) in
  Hub_AddClient bookingID client w =
    (mkWorld (arrays w) (clients w)
       (<[s := fill_slot_of (Client.Role cl) client
                 (Session.mk bookingID None None (clock w) 1800 (make_chan 0))]> (sessions w))
       (<[bookingID := s]> (hub w)) (video_sessions w) (clock w),
     Ret s) ∧
  sessions w !! s = None.
Proof.
  intros Hhub Hcl s. split.
  - unfold Hub_AddClient, NewSession, time_Now, updSession, fill_slot_of.
    unfold bind, get, modify, ret, getClient, getSession. cbn.
    rewrite Hhub. cbn. rewrite Hcl.
    destruct (decide (Client.Role cl = "mentor")); cbn;
      repeat (rewrite lookup_insert_eq; cbn);
      unfold set_sessions, set_hub; cbn; by rewrite insert_insert_eq.
  - apply not_elem_of_dom, is_fresh.
Qed.

(** AddClient for a booking that is not registered cannot panic: it
    allocates a Session with the booking's identifier, the current time as
    start time, a maximum duration of thirty minutes and an open Done
    channel, puts the client in the slot of its role (the other slot stays
    empty), registers the Session and closes nothing. *)
Theorem Hub_AddClient_new_session (bookingID : UUID) (client : cptr) (cl : Client.t)
    (w : World) :
  hub w !! bookingID = None →
  clients w !! client = Some cl →
  let s := fresh (dom (sessions w)) in
  Hub_AddClient bookingID client w =
    (mkWorld (arrays w) (clients w)
       (<[s := fill_slot_of (Client.Role cl) client
                 (Session.mk bookingID None None (clock w) 1800 (make_chan 0))]> (sessions w))
       (<[bookingID := s]> (hub w)) (video_sessions w) (clock w),
     Ret s) ∧
  sessions w !! s = None.
Proof. apply Hub_AddClient_new. Qed.

(** Removing a role twice is the same as removing it once. *)
Lemma Hub_RemoveClient_twice (bookingID : UUID) (role : string) (w : World) :
  (Hub_RemoveClient bookingID role ;;; Hub_RemoveClient bookingID role) w
  = Hub_RemoveClient bookingID role w.
Proof.
  unfold bind at 1.
  destruct (Hub_RemoveClient bookingID role w) as [w1 [[]|msg]] eqn:Hfirst; [|done].
  revert Hfirst. unfold Hub_RemoveClient.
  rewrite (bind_Ret get _ w w w) by done.
  rewrite (bind_Ret get _ w1 w1 w1) by done.
  destruct (hub w !! bookingID) as [s|] eqn:Hhub.
  2:{ intros [= <-]. by rewrite Hhub. }
  destruct (sessions w !! s) as [se|] eqn:Hs.
  2:{ destruct (decide (role = "mentor")); unfold bind at 1, updSession;
        unfold bind at 1; unfold getSession at 1; by rewrite Hs. }
  assert (Hgo : ∀ se1 : Session.t,
    (∀ w0, sessions w0 !! s = Some se1 →
       (if decide (role = "mentor")
        then updSession s (Session.set_Mentor None)
        else updSession s (Session.set_User None)) w0
       = (set_sessions <[s := se1]> w0, Ret tt)) →
    (se0 <- getSession s ;;
     if decide (Session.Mentor se0 = None ∧ Session.User se0 = None)
     then modify (set_hub (delete bookingID)) else ret tt)
      (set_sessions <[s := se1]> w) = (w1, Ret tt) →
    match hub w1 !! bookingID with
    | Some session =>
        (if decide (role = "mentor")
         then updSession session (Session.set_Mentor None)
         else updSession session (Session.set_User None)) ;;;
        se0 <- getSession session ;;
        if decide (Session.Mentor se0 = None ∧ Session.User se0 = None)
        then modify (set_hub (delete bookingID)) else ret tt
    | None => ret tt
    end w1 = (w1, Ret tt)).
  { intros se1 Hupd.
    erewrite bind_Ret by (apply getSession_Some; cbn; apply lookup_insert_eq).
    destruct (decide (Session.Mentor se1 = None ∧ Session.User se1 = None)) as [Hempty|Hocc].
    - intros [= <-]. cbn. by rewrite lookup_delete_eq.
    - intros [= <-]. cbn. rewrite Hhub.
      erewrite bind_Ret by (apply Hupd; cbn; apply lookup_insert_eq).
      unfold set_sessions at 1 2. cbn. rewrite insert_insert_eq.
      erewrite bind_Ret by (apply getSession_Some; cbn; apply lookup_insert_eq).
      by rewrite decide_False. }
  destruct (decide (role = "mentor")) as [Hrole|Hrole].
  - erewrite bind_Ret by (by apply updSession_Some).
    apply Hgo. intros w0 Hw0. rewrite (updSession_Some _ _ _ _ Hw0). by destruct se.
  - erewrite bind_Ret by (by apply updSession_Some).
    apply Hgo. intros w0 Hw0. rewrite (updSession_Some _ _ _ _ Hw0). by destruct se.
Qed.

(** RemoveClient is idempotent: a second call for the same booking and
    role changes nothing and ends as the first did, whether the booking is
    registered or not. *)
Theorem Hub_RemoveClient_idempotent (bookingID : UUID) (role : string) (w : World) :
  (Hub_RemoveClient bookingID role ;;; Hub_RemoveClient bookingID role) w
  = Hub_RemoveClient bookingID role w.
Proof. apply Hub_RemoveClient_twice. Qed.

(** Once both roles have been removed from a booking, in either order,
    the booking is no longer registered; no client has been touched, so no
    channel has been closed and nothing has been sent. *)
Theorem Hub_RemoveClient_both_unregisters (bookingID : UUID) (role1 role2 : string)
    (w w' : World) :
  (role1 = "mentor" ∧ role2 ≠ "mentor") ∨ (role1 ≠ "mentor" ∧ role2 = "mentor") →
  (Hub_RemoveClient bookingID role1 ;;; Hub_RemoveClient bookingID role2) w = (w', Ret tt) →
  Hub_GetSession bookingID w' = (w', Ret None) ∧
  clients w' = clients w ∧
  (∀ b, b ≠ bookingID → hub w' !! b = hub w !! b).
Proof.
  intros Hroles. unfold bind at 1.
  destruct (Hub_RemoveClient bookingID role1 w) as [w1 [[]|msg]] eqn:Hfirst; [|done].
  change (Hub_GetSession bookingID w') with (w', Ret (hub w' !! bookingID)).
  revert Hfirst. unfold Hub_RemoveClient.
  rewrite (bind_Ret get _ w w w) by done.
  rewrite (bind_Ret get _ w1 w1 w1) by done.
  destruct (hub w !! bookingID) as [s|] eqn:Hhub.
  2:{ intros [= <-]. rewrite Hhub. intros [= <-]. by rewrite Hhub. }
  destruct (sessions w !! s) as [se|] eqn:Hs.
  2:{ destruct (decide (role1 = "mentor")); unfold bind at 1, updSession;
        unfold bind at 1; unfold getSession at 1; by rewrite Hs. }
  assert (Hsecond : ∀ se1 : Session.t,
    (if decide (role2 = "mentor") then Session.User se1 = None else Session.Mentor se1 = None) →
    (se0 <- getSession s ;;
     if decide (Session.Mentor se0 = None ∧ Session.User se0 = None)
     then modify (set_hub (delete bookingID)) else ret tt)
      (set_sessions <[s := se1]> w) = (w1, Ret tt) →
    match hub w1 !! bookingID with
    | Some session =>
        (if decide (role2 = "mentor")
         then updSession session (Session.set_Mentor None)
         else updSession session (Session.set_User None)) ;;;
        se0 <- getSession session ;;
        if decide (Session.Mentor se0 = None ∧ Session.User se0 = None)
        then modify (set_hub (delete bookingID)) else ret tt
    | None => ret tt
    end w1 = (w', Ret tt) →
    (w', Ret (hub w' !! bookingID)) = (w', Ret None) ∧ clients w' = clients w ∧
    (∀ b, b ≠ bookingID → hub w' !! b = hub w !! b)).
  { intros se1 Hother.
    erewrite bind_Ret by (apply getSession_Some; cbn; apply lookup_insert_eq).
    destruct (decide (Session.Mentor se1 = None ∧ Session.User se1 = None)) as [Hempty|Hocc].
    - intros [= <-]. cbn. rewrite lookup_delete_eq. intros [= <-]. cbn.
      rewrite lookup_delete_eq. repeat split. intros b Hb. by rewrite lookup_delete_ne.
    - intros [= <-]. cbn. rewrite Hhub.
      destruct (decide (role2 = "mentor")) as [Hr2|Hr2].
      + erewrite bind_Ret by (apply updSession_Some; cbn; apply lookup_insert_eq).
        erewrite bind_Ret by (apply getSession_Some; cbn; apply lookup_insert_eq).
        rewrite decide_True by (by destruct se1; cbn in *).
        intros [= <-]. cbn. rewrite lookup_delete_eq. repeat split.
        intros b Hb. by rewrite lookup_delete_ne.
      + erewrite bind_Ret by (apply updSession_Some; cbn; apply lookup_insert_eq).
        erewrite bind_Ret by (apply getSession_Some; cbn; apply lookup_insert_eq).
        rewrite decide_True by (by destruct se1; cbn in *).
        intros [= <-]. cbn. rewrite lookup_delete_eq. repeat split.
        intros b Hb. by rewrite lookup_delete_ne. }
  destruct Hroles as [[-> Hr2]|[Hr1 ->]].
  - rewrite decide_True by done.
    erewrite bind_Ret by (by apply updSession_Some).
    apply Hsecond. by rewrite decide_False.
  - rewrite decide_False by done.
    erewrite bind_Ret by (by apply updSession_Some).
    apply Hsecond. by rewrite decide_True.
Qed.

(** A non-blocking send changes neither the sessions nor the registry. *)
Lemma try_send_sessions (c : cptr) (message : OutMessage.t) (w w' : World) (r : Outcome bool) :
  try_send c message w = (w', r) → sessions w' = sessions w ∧ hub w' = hub w.
Proof.
  destruct (clients w !! c) as [cl|] eqn:Hc.
  - rewrite (try_send_spec _ _ _ _ Hc).
    destruct (closed (Client.Send cl)); [by intros [= <- _]|].
    destruct (chan_full (Client.Send cl)); by intros [= <- _].
  - unfold try_send. rewrite (bind_Panic _ _ _ _ _ (getClient_None _ _ Hc)). by intros [= <- _].
Qed.

Lemma Session_SendToRole_slot (s : sptr) (role : string) (message : OutMessage.t)
    (w : World) (se : Session.t) :
  sessions w !! s = Some se →
  Session_SendToRole s role message w =
    match slot_of role se with
    | Some c => _ <- try_send c message ;; ret tt
    | None => ret tt
    end w.
Proof.
  intros Hs. unfold Session_SendToRole.
  by rewrite (bind_Ret _ _ _ _ _ (getSession_Some _ _ _ Hs)).
Qed.

(** Broadcast is SendToRole to the mentor followed by SendToRole to the
    user, in every world: same final state, same outcome, panics
    included. *)
Theorem Session_Broadcast_is_two_sends (s : sptr) (message : OutMessage.t) (w : World) :
  Session_Broadcast s message w
  = (Session_SendToRole s "mentor" message ;;; Session_SendToRole s "user" message) w.
Proof.
  destruct (sessions w !! s) as [se|] eqn:Hs.
  2:{ unfold Session_Broadcast, Session_SendToRole, bind, getSession. by rewrite Hs. }
  unfold Session_Broadcast.
  rewrite (bind_Ret _ _ _ _ _ (getSession_Some _ _ _ Hs)).
  unfold bind at 1. unfold bind at 3.
  rewrite (Session_SendToRole_slot _ _ _ _ _ Hs).
  unfold slot_of at 1. rewrite decide_True by done.
  lazymatch goal with
  | |- context [match ?m w with _ => _ end] => destruct (m w) as [w1 [[]|msg]] eqn:Hfirst
  end; [|done].
  assert (Hs1 : sessions w1 !! s = Some se).
  { destruct (Session.Mentor se) as [m|]; [|by injection Hfirst as <-].
    revert Hfirst. unfold bind.
    destruct (try_send m message w) as [w2 [ok|msg]] eqn:Hsend; [|done].
    intros [= <-]. destruct (try_send_sessions _ _ _ _ _ Hsend) as [-> _]. done. }
  rewrite (Session_SendToRole_slot _ _ _ _ _ Hs1).
  unfold slot_of. by rewrite decide_False.
Qed.

(** Session.Close is not idempotent: after a Close that returned, a
    second Close panics on the session's Done channel and changes
    nothing. *)
Theorem Session_Close_twice_panics (s : sptr) (w w' : World) :
  Session_Close s w = (w', Ret tt) →
  Session_Close s w' = (w', Panic panic_close_closed).
Proof.
  unfold Session_Close.
  destruct (sessions w !! s) as [se|] eqn:Hs.
  2:{ unfold getSession at 1, bind at 1. unfold bind at 1. by rewrite Hs. }
  unfold bind at 1. unfold bind at 1. rewrite (getSession_Some _ _ _ Hs).
  unfold chan_close at 1. destruct (closed (Session.Done se)) eqn:Hdone; [done|].
  rewrite (updSession_Some _ _ _ _ Hs).
  erewrite bind_Ret by (apply getSession_Some; cbn; apply lookup_insert_eq).
  cbn [Session.set_Done Session.Mentor Session.User].
  intros Hrest.
  assert (Hs' : sessions w' !! s
                = Some (Session.set_Done
                          (mkChan (sent (Session.Done se)) (recvd (Session.Done se))
                             (chan_cap (Session.Done se)) true) se)).
  { revert Hrest. unfold bind at 1.
    lazymatch goal with
    | |- context [match ?m ?w0 with _ => _ end] => destruct (m w0) as [w1 [[]|msg]] eqn:H1
    end; [|done].
    intros H2.
    assert (Hs1 : sessions w1 = sessions (set_sessions
                    <[s := Session.set_Done
                             (mkChan (sent (Session.Done se)) (recvd (Session.Done se))
                                (chan_cap (Session.Done se)) true) se]> w)).
    { destruct (Session.Mentor se) as [m|]; [|by injection H1 as <-].
      by destruct (only_clients_Client_Close _ _ _ _ H1). }
    assert (Hs2 : sessions w' = sessions w1).
    { destruct (Session.User se) as [u|]; [|by injection H2 as <-].
      by destruct (only_clients_Client_Close _ _ _ _ H2). }
    rewrite Hs2, Hs1. cbn. apply lookup_insert_eq. }
  unfold bind at 1. unfold bind at 1. rewrite (getSession_Some _ _ _ Hs').
  reflexivity.
Qed.

(** IsConnected reports a client as connected exactly while its Done
    channel is open, and changes nothing; after a Close that returned it
    reports the client as disconnected. *)
Theorem Client_IsConnected_after_Close (c : cptr) (w w' : World) :
  Client_Close c w = (w', Ret tt) →
  Client_IsConnected c w = (w, Ret true) ∧
  Client_IsConnected c w' = (w', Ret false).
Proof.
  unfold Client_Close, close_Send, close_Done, Conn_Close, Client_IsConnected.
  destruct (clients w !! c) as [cl|] eqn:Hc.
  2:{ unfold bind at 1. unfold bind at 1. by rewrite (getClient_None _ _ Hc). }
  unfold bind at 1. unfold bind at 1. rewrite (getClient_Some _ _ _ Hc).
  unfold chan_close at 1. destruct (closed (Client.Send cl)) eqn:Hsend; [done|].
  rewrite (updClient_Some _ _ _ _ Hc).
  unfold bind at 1. erewrite updClient_Some by (cbn; apply lookup_insert_eq).
  unfold bind at 1. erewrite getClient_Some by (cbn; apply lookup_insert_eq).
  cbn [Client.Done Client.set_Conn Client.set_Send].
  unfold chan_close at 1. destruct (closed (Client.Done cl)) eqn:Hdone; [done|].
  erewrite updClient_Some by (cbn; apply lookup_insert_eq).
  intros [= <-]. split.
  - rewrite (bind_Ret _ _ _ _ _ (getClient_Some _ _ _ Hc)). by rewrite Hdone.
  - erewrite bind_Ret by (apply getClient_Some; cbn; apply lookup_insert_eq). done.
Qed.

(** When BothJoined reports true, GetOtherClient returns a client for
    every role string: the nil check that follows the two calls in
    sendSessionReady cannot fire between them. *)
Theorem BothJoined_other_client (s : sptr) (role : string) (w : World) :
  Session_BothJoined s w = (w, Ret true) →
  ∃ c, Session_GetOtherClient s role w = (w, Ret (Some c)).
Proof.
  unfold Session_BothJoined, Session_GetOtherClient, bind, getSession.
  destruct (sessions w !! s) as [se|]; [|done].
  destruct (Session.Mentor se) as [m|], (Session.User se) as [u|]; cbn; try done.
  intros _. case_decide; eauto.
Qed.

(** ** The read pump *)

Section ReadPump.
Context `{!TimeLib} `{!JSON}.


(** A ping frame is answered on the sender's own queue and nowhere else:
    an open queue with room takes the pong, a full queue drops it, and a
    queue that has been closed makes the send panic. *)
Theorem ping_answered_with_pong (client : cptr) (session : sptr) (rawMsg : RawMessage)
    (msg : WebSocketMessage.t) (cl : Client.t) (w : World) :
  unmarshal_message rawMsg = Some msg →
  WebSocketMessage.Type_ msg = "ping" →
  clients w !! client = Some cl →
  readPump_body client session (ReadJSON rawMsg) w =
    if closed (Client.Send cl) then (w, Panic panic_send_closed)
    else if chan_full (Client.Send cl) then (w, Ret Continue)
    else (set_clients <[client := enqueued pong cl]> w, Ret Continue).
Proof.
  intros Hmsg Hty Hcl. unfold readPump_body. rewrite Hmsg, Hty.
  repeat (case_decide; [done|]). rewrite decide_True by done.
  unfold bind. rewrite (try_send_spec _ _ _ _ Hcl).
  destruct (closed (Client.Send cl)); [done|].
  by destruct (chan_full (Client.Send cl)).
Qed.

(** A failed read and a leave_call frame end the loop alike: the pump
    runs its cleanup at once, whatever session pointer it was started with,
    and the reads that would have followed are never processed. *)
Theorem readPump_ends (client : cptr) (session : sptr) (r : ReadResult)
    (rest : list ReadResult) (w : World) :
  ends_pump r →
  readPump client session (r :: rest) w = readPump_deferred client w.
Proof.
  intros Hend. unfold readPump. cbn [readPump_loop].
  assert (Hbody : readPump_body client session r w = (w, Ret Return)).
  { destruct r as [|rawMsg]; [done|]. destruct Hend as (msg & Hmsg & Hty).
    unfold readPump_body. rewrite Hmsg, Hty. by repeat (case_decide; [done|]). }
  by rewrite (bind_Ret _ _ _ _ _ Hbody).
Qed.

End ReadPump.

(** ** The write pump *)

Lemma pending_after_recv {T} (ch : Chan T) (v : T) (rest : list T) :
  pending ch = v :: rest →
  pending (mkChan (sent ch) (S (recvd ch)) (chan_cap ch) (closed ch)) = rest.
Proof.
  unfold pending. cbn. intros H.
  replace (S (recvd ch)) with (recvd ch + 1)%nat by lia.
  by rewrite <- drop_drop, H.
Qed.

(** A write on the connection, case by case. *)
Lemma Conn_Write_spec (client : cptr) (frame : WireFrame) (cl : Client.t) (w : World) :
  clients w !! client = Some cl →
  Conn_Write client frame w =
    if Conn.closed (Client.Conn cl) then (w, Ret true)
    else (set_clients <[client :=
            Client.set_Conn (λ cn, Conn.mk (Conn.closed cn) (Conn.written cn ++ [frame])) cl]> w,
          Ret false).
Proof.
  intros Hcl. unfold Conn_Write.
  rewrite (bind_Ret _ _ _ _ _ (getClient_Some _ _ _ Hcl)).
  destruct (Conn.closed (Client.Conn cl)); [done|].
  by rewrite (bind_Ret _ _ _ _ _ (updClient_Some _ _ _ _ Hcl)).
Qed.

(** One iteration of the loop on a message waiting in the queue, with
    the connection open: the message leaves the queue and is written. *)
Lemma writePump_body_message (client : cptr) (cl : Client.t) (v : OutMessage.t)
    (rest : list OutMessage.t) (w : World) :
  clients w !! client = Some cl →
  Conn.closed (Client.Conn cl) = false →
  pending (Client.Send cl) = v :: rest →
  writePump_body client SendReady w =
    (set_clients <[client :=
       Client.set_Conn (λ cn, Conn.mk (Conn.closed cn) (Conn.written cn ++ [WriteJSON v]))
         (Client.set_Send
            (λ ch, mkChan (sent ch) (S (recvd ch)) (chan_cap ch) (closed ch)) cl)]> w,
     Ret Continue).
Proof.
  intros Hcl Hopen Hpend. unfold writePump_body.
  rewrite (bind_Ret _ _ _ _ _ (getClient_Some _ _ _ Hcl)).
  unfold chan_try_recv. rewrite Hpend.
  erewrite bind_Ret by (by apply updClient_Some).
  unfold bind at 1.
  erewrite Conn_Write_spec by (cbn; apply lookup_insert_eq).
  cbn. rewrite Hopen. unfold set_clients. cbn. by rewrite insert_insert_eq.
Qed.

Lemma writePump_loop_drains (n : nat) :
  ∀ (client : cptr) (cl : Client.t) (w : World),
  clients w !! client = Some cl →
  Conn.closed (Client.Conn cl) = false →
  length (pending (Client.Send cl)) = n →
  writePump_loop client (replicate n SendReady) w
  = (set_clients <[client := delivered cl]> w, Ret Continue).
Proof.
  induction n as [|n IH]; intros client cl w Hcl Hopen Hlen.
  - apply length_zero_iff_nil in Hlen. unfold delivered.
    destruct w as [A C S H T t], cl as [i b r u m n cn sd dn cs], cn as [cc cw], sd as [ss sr sc sx].
    unfold set_clients, Client.set_Conn, Client.set_Send. cbn in *.
    rewrite Hlen. cbn. rewrite app_nil_r, Nat.add_0_r.
    by rewrite insert_id.
  - destruct (pending (Client.Send cl)) as [|v rest] eqn:Hpend; [done|].
    cbn [replicate writePump_loop].
    rewrite (bind_Ret _ _ _ _ _ (writePump_body_message _ _ _ _ _ Hcl Hopen Hpend)).
    erewrite IH; [| cbn; apply lookup_insert_eq | done |].
    2:{ cbn [Client.Send Client.set_Conn Client.set_Send].
        rewrite (pending_after_recv _ _ _ Hpend). cbn in Hlen. lia. }
    unfold set_clients. cbn [clients arrays sessions hub video_sessions clock].
    rewrite insert_insert_eq. do 3 f_equal.
    pose proof (pending_after_recv _ _ _ Hpend) as Hrest.
    unfold delivered, pending, Client.set_Conn, Client.set_Send in *.
    destruct cl as [i b r u m nm cn sd dn cs], cn as [cc cw], sd as [ss sr sc sx].
    cbn in *. rewrite Hrest, Hpend. cbn. rewrite <- app_assoc. cbn.
    do 3 f_equal. lia.
Qed.

(** The write pump of a client whose connection is open takes the
    messages waiting in the queue one by one and writes them in the order
    in which they were enqueued; afterwards the queue is drained, the
    history of the queue is what it was, and nothing else has changed. *)
Theorem writePump_writes_in_order (client : cptr) (cl : Client.t) (w : World) :
  clients w !! client = Some cl →
  Conn.closed (Client.Conn cl) = false →
  writePump client (replicate (length (pending (Client.Send cl))) SendReady) w
    = (set_clients <[client := delivered cl]> w, Ret tt) ∧
  Conn.written (Client.Conn (delivered cl))
    = Conn.written (Client.Conn cl) ++ map WriteJSON (pending (Client.Send cl)) ∧
  pending (Client.Send (delivered cl)) = [] ∧
  sent (Client.Send (delivered cl)) = sent (Client.Send cl).
Proof.
  intros Hcl Hopen. split; [|split; [done|split; [|done]]].
  - unfold writePump. by rewrite (writePump_loop_drains _ _ _ _ Hcl Hopen eq_refl).
  - unfold delivered, pending. cbn. rewrite <- drop_drop. apply drop_all.
Qed.

(** Once a client's connection and channels are closed (as Close leaves
    them), its write pump ends at the first select case it takes, whatever
    that case is and whatever is still waiting in the queue, and writes
    nothing on the connection. *)
Theorem writePump_closed_client_stops (client : cptr) (cl : Client.t) (ev : WriteEvent)
    (rest : list WriteEvent) (w : World) :
  clients w !! client = Some cl →
  Conn.closed (Client.Conn cl) = true →
  closed (Client.Send cl) = true →
  closed (Client.Done cl) = true →
  ∃ w' cl',
    writePump_loop client (ev :: rest) w = (w', Ret Return) ∧
    writePump client (ev :: rest) w = (set_clients <[client := cl']> w, Ret tt) ∧
    Conn.written (Client.Conn cl') = Conn.written (Client.Conn cl) ∧
    Conn.closed (Client.Conn cl') = true ∧
    sent (Client.Send cl') = sent (Client.Send cl).
Proof.
  intros Hcl Hconn Hsend Hdone.
  assert (Hbody : ∃ cl1, writePump_body client ev w = (set_clients <[client := cl1]> w, Ret Return) ∧
            Conn.written (Client.Conn cl1) = Conn.written (Client.Conn cl) ∧
            sent (Client.Send cl1) = sent (Client.Send cl)).
  { unfold writePump_body. rewrite (bind_Ret _ _ _ _ _ (getClient_Some _ _ _ Hcl)).
    assert (Hid : set_clients <[client := cl]> w = w).
    { destruct w. unfold set_clients. cbn in *. by rewrite insert_id. }
    destruct ev.
    - unfold chan_try_recv. destruct (pending (Client.Send cl)) as [|v vs] eqn:Hpend.
      + rewrite Hsend. exists cl. rewrite Hid. split; [|done].
        unfold bind. by rewrite (Conn_Write_spec _ _ _ _ Hcl), Hconn.
      + eexists. erewrite bind_Ret by (by apply updClient_Some).
        unfold bind at 1.
        erewrite Conn_Write_spec by (cbn; apply lookup_insert_eq).
        cbn. rewrite Hconn. done.
    - exists cl. rewrite Hid. split; [|done].
      unfold bind. by rewrite (Conn_Write_spec _ _ _ _ Hcl), Hconn.
    - exists cl. rewrite Hid. split; [|done]. by rewrite Hdone. }
  destruct Hbody as (cl1 & Hbody & Hw & Hs).
  eexists _, _. split; [|split].
  - cbn [writePump_loop]. by rewrite (bind_Ret _ _ _ _ _ Hbody).
  - unfold writePump. cbn [writePump_loop]. rewrite (bind_Ret _ _ _ _ _ Hbody).
    cbn [ret]. unfold Conn_Close.
    erewrite updClient_Some by (cbn; apply lookup_insert_eq).
    unfold set_clients. cbn. by rewrite insert_insert_eq.
  - cbn. done.
Qed.

(** ** Departure of a party *)

Section Departure.
Context `{!TimeLib} `{!JSON}.

Lemma set_video_sessions_alter_ext (f g : VideoSession.t → VideoSession.t) (b : UUID)
    (w : World) :
  (∀ r, video_sessions w !! b = Some r → f r = g r) →
  set_video_sessions (alter f b) w = set_video_sessions (alter g b) w.
Proof. intros Hfg. unfold set_video_sessions. by rewrite (alter_ext f g). Qed.

(** The statement that records a departure. *)
Lemma record_left_spec (bookingID : UUID) (role : string) (w : World) :
  (if decide (role = "mentor")
   then Repo_RecordMentorLeft bookingID
   else Repo_RecordUserLeft bookingID) w
  = (set_video_sessions (alter (left_row role (clock w)) bookingID) w, Ret None).
Proof.
  unfold Repo_RecordMentorLeft, Repo_RecordUserLeft, sql_update, time_Now, bind, get, modify, ret.
  case_decide as Hrole; cbn; apply (f_equal (λ x, (x, Ret None)));
    apply set_video_sessions_alter_ext; intros r _; unfold left_row;
    [by rewrite !decide_True|by rewrite !decide_False].
Qed.

(** EndSession on the table, whether the booking has a row or not. *)
Lemma EndSession_table (bookingID : UUID) (reason : string) (w : World) :
  ∃ err,
    EndSession bookingID reason w =
      (set_video_sessions
         (alter (λ r, completed_row r (clock w) (persisted_duration r (clock w))) bookingID) w,
       Ret err).
Proof.
  unfold EndSession, Repo_GetByBookingID, Repo_EndSession, sql_update,
    time_Now, bind, get, modify, ret. cbn.
  destruct (video_sessions w !! bookingID) as [r|] eqn:Hrow; cbn.
  - exists None. apply (f_equal (λ x, (x, Ret None))).
    apply set_video_sessions_alter_ext.
    intros r' Hr'. rewrite Hrow in Hr'. by injection Hr' as <-.
  - eexists. apply (f_equal (λ x, (x, Ret _))).
    destruct w as [A C S Hb T t]. unfold set_video_sessions. cbn in *.
    by rewrite alter_id'.
Qed.

(** The first half of HandleClientLeft, up to the removal from the
    registry, when the other party is in its slot with its channels open. *)
Theorem HandleClientLeft_closes_peer (bookingID : UUID) (role : string) (s : sptr)
    (se : Session.t) (o : cptr) (ocl : Client.t) (w : World) :
  hub w !! bookingID = Some s →
  sessions w !! s = Some se →
  opposite_slot role se = Some o →
  clients w !! o = Some ocl →
  closed (Client.Send ocl) = false →
  closed (Client.Done ocl) = false →
  HandleClientLeft bookingID role w =
    (mkWorld (arrays w)
       (<[o := closed_client (if chan_full (Client.Send ocl) then ocl
                              else enqueued (other_party_left bookingID) ocl)]> (clients w))
       (<[s := clear_slot_of role se]> (sessions w))
       (hub w)
       (alter (λ r, completed_row (left_row role (clock w) r) (clock w)
                      (persisted_duration r (clock w)))
          bookingID (video_sessions w))
       (clock w),
     Ret None).
Proof.
  intros Hhub Hs Hopp Ho Hsend Hdone. unfold HandleClientLeft.
  rewrite (bind_Ret _ _ _ _ _ (record_left_spec bookingID role w)).
  set (w1 := set_video_sessions (alter (left_row role (clock w)) bookingID) w).
  rewrite (bind_Ret (Hub_GetSession bookingID) _ w1 w1 (Some s))
    by (unfold Hub_GetSession, bind, get, ret; cbn; by rewrite Hhub).
  (* the notice and the close *)
  set (ocl2 := if chan_full (Client.Send ocl) then ocl
               else enqueued (other_party_left bookingID) ocl).
  assert (Hother : Session_GetOtherClient s role w1 = (w1, Ret (Some o))).
  { unfold Session_GetOtherClient.
    rewrite (bind_Ret _ _ w1 w1 se) by (by apply getSession_Some).
    unfold opposite_slot in Hopp. case_decide; by rewrite Hopp. }
  assert (Hnotify :
    (_ <- try_send o (OutMessage.mk "other_party_left" (PBookingID bookingID)) ;;
     Client_Close o) w1 = (set_clients <[o := closed_client ocl2]> w1, Ret tt)).
  { unfold bind at 1.
    rewrite (try_send_spec o _ w1 ocl) by done. rewrite Hsend.
    subst ocl2. destruct (chan_full (Client.Send ocl)).
    - by apply Client_Close_open.
    - erewrite Client_Close_open; [|cbn; apply lookup_insert_eq|done|done].
      unfold set_clients. cbn. by rewrite insert_insert_eq. }
  set (w3 := set_clients <[o := closed_client ocl2]> w1).
  destruct (EndSession_table bookingID "party_left" w3) as [err Hend].
  unfold bind at 1. rewrite (bind_Ret _ _ _ _ _ Hother). cbn beta iota.
  rewrite (bind_Ret _ _ _ _ _ Hnotify). fold w3.
  rewrite (bind_Ret _ _ _ _ _ Hend). cbn [ret].
  set (w4 := set_video_sessions _ w3).
  (* the removal from the registry *)
  assert (Hremove : Hub_RemoveClient bookingID role w4
                    = (set_sessions <[s := clear_slot_of role se]> w4, Ret tt)).
  { unfold Hub_RemoveClient. rewrite (bind_Ret get _ w4 w4 w4) by done.
    cbn [hub w4 w3 w1 set_video_sessions set_clients]. rewrite Hhub.
    assert (Hs4 : sessions w4 !! s = Some se) by done.
    assert (Hupd : (if decide (role = "mentor")
                    then updSession s (Session.set_Mentor None)
                    else updSession s (Session.set_User None)) w4
                   = (set_sessions <[s := clear_slot_of role se]> w4, Ret tt)).
    { unfold clear_slot_of. destruct (decide (role = "mentor")); by apply updSession_Some. }
    rewrite (bind_Ret _ _ _ _ _ Hupd).
    erewrite bind_Ret by (apply getSession_Some; cbn; apply lookup_insert_eq).
    rewrite decide_False; [done|].
    unfold clear_slot_of, opposite_slot in *. intros [HM HU].
    case_decide; destruct se; cbn in *; congruence. }
  rewrite (bind_Ret _ _ _ _ _ Hremove). cbn [ret].
  apply (f_equal (λ x, (x, Ret None))).
  subst w4 w3 w1. unfold set_sessions, set_video_sessions, set_clients. cbn.
  rewrite alter_alter_eq.
  by rewrite (alter_ext _ (λ r, completed_row (left_row role (clock w) r) (clock w)
                                 (persisted_duration r (clock w)))).
Qed.

End Departure.


Section Cleanup.
Context `{!TimeLib} `{!JSON}.

(** HandleClientLeft for the last party of a session: nobody is
    notified or closed, the row of the booking is stamped and completed,
    and the booking leaves the registry. *)
Theorem HandleClientLeft_last_party (bookingID : UUID) (role : string) (s : sptr)
    (se : Session.t) (w : World) :
  hub w !! bookingID = Some s →
  sessions w !! s = Some se →
  opposite_slot role se = None →
  HandleClientLeft bookingID role w =
    (mkWorld (arrays w) (clients w)
       (<[s := clear_slot_of role se]> (sessions w))
       (delete bookingID (hub w))
       (alter (λ r, completed_row (left_row role (clock w) r) (clock w)
                      (persisted_duration r (clock w)))
          bookingID (video_sessions w))
       (clock w),
     Ret None).
Proof.
  intros Hhub Hs Hopp. unfold HandleClientLeft.
  rewrite (bind_Ret _ _ _ _ _ (record_left_spec bookingID role w)).
  set (w1 := set_video_sessions (alter (left_row role (clock w)) bookingID) w).
  rewrite (bind_Ret (Hub_GetSession bookingID) _ w1 w1 (Some s))
    by (unfold Hub_GetSession, bind, get, ret; cbn; by rewrite Hhub).
  assert (Hother : Session_GetOtherClient s role w1 = (w1, Ret None)).
  { unfold Session_GetOtherClient.
    rewrite (bind_Ret _ _ w1 w1 se) by (by apply getSession_Some).
    unfold opposite_slot in Hopp. case_decide; by rewrite Hopp. }
  destruct (EndSession_table bookingID "party_left" w1) as [err Hend].
  unfold bind at 1. rewrite (bind_Ret _ _ _ _ _ Hother). cbn beta iota.
  rewrite (bind_Ret (ret tt) _ w1 w1 tt) by done.
  rewrite (bind_Ret _ _ _ _ _ Hend). cbn [ret].
  set (w4 := set_video_sessions _ w1).
  assert (Hremove : Hub_RemoveClient bookingID role w4
                    = (set_hub (delete bookingID)
                         (set_sessions <[s := clear_slot_of role se]> w4), Ret tt)).
  { unfold Hub_RemoveClient. rewrite (bind_Ret get _ w4 w4 w4) by done.
    cbn [hub w4 w1 set_video_sessions]. rewrite Hhub.
    assert (Hs4 : sessions w4 !! s = Some se) by done.
    assert (Hupd : (if decide (role = "mentor")
                    then updSession s (Session.set_Mentor None)
                    else updSession s (Session.set_User None)) w4
                   = (set_sessions <[s := clear_slot_of role se]> w4, Ret tt)).
    { unfold clear_slot_of. destruct (decide (role = "mentor")); by apply updSession_Some. }
    rewrite (bind_Ret _ _ _ _ _ Hupd).
    erewrite bind_Ret by (apply getSession_Some; cbn; apply lookup_insert_eq).
    rewrite decide_True; [done|].
    unfold clear_slot_of, opposite_slot in *.
    case_decide; destruct se; cbn in *; by subst. }
  rewrite (bind_Ret _ _ _ _ _ Hremove). cbn [ret].
  apply (f_equal (λ x, (x, Ret None))).
  subst w4 w1. unfold set_hub, set_sessions, set_video_sessions. cbn.
  rewrite alter_alter_eq.
  by rewrite (alter_ext _ (λ r, completed_row (left_row role (clock w) r) (clock w)
                                 (persisted_duration r (clock w)))).
Qed.

(** HandleClientLeft for a booking that is not registered: the departure
    is recorded in the row of the booking, but the session is not ended
    (the row is not completed), and nothing else changes. *)
Theorem HandleClientLeft_unregistered (bookingID : UUID) (role : string) (w : World) :
  hub w !! bookingID = None →
  HandleClientLeft bookingID role w =
    (set_video_sessions (alter (left_row role (clock w)) bookingID) w, Ret None).
Proof.
  intros Hhub. unfold HandleClientLeft.
  rewrite (bind_Ret _ _ _ _ _ (record_left_spec bookingID role w)).
  set (w1 := set_video_sessions (alter (left_row role (clock w)) bookingID) w).
  rewrite (bind_Ret (Hub_GetSession bookingID) _ w1 w1 None)
    by (unfold Hub_GetSession, bind, get, ret; cbn; by rewrite Hhub).
  rewrite (bind_Ret (ret tt) _ w1 w1 tt) by done.
  rewrite (bind_Ret (Hub_RemoveClient bookingID role) _ w1 w1 tt); [done|].
  unfold Hub_RemoveClient. rewrite (bind_Ret get _ w1 w1 w1) by done.
  cbn [hub w1 set_video_sessions]. by rewrite Hhub.
Qed.



End Cleanup.

(** ** Arrival of a party *)

Section Arrival.
Context `{!TimeLib} `{!JSON}.

(** The statement that records an arrival. *)
Lemma HandleClientJoined_spec (client : cptr) (username : string) (cl : Client.t) (w : World) :
  clients w !! client = Some cl →
  HandleClientJoined client username w
  = (set_video_sessions
       (alter (joined_row (Client.Role cl) (clock w)) (Client.BookingID cl)) w, Ret None).
Proof.
  intros Hcl. unfold HandleClientJoined.
  rewrite (bind_Ret _ _ _ _ _ (getClient_Some _ _ _ Hcl)).
  unfold Repo_RecordMentorJoined, Repo_RecordUserJoined, sql_update, time_Now,
    bind, get, modify, ret.
  case_decide as Hrole; cbn; apply (f_equal (λ x, (x, Ret None)));
    apply set_video_sessions_alter_ext; intros r _; unfold joined_row;
    [by rewrite !decide_True|by rewrite !decide_False].
Qed.

(** The first party to connect for a booking: HandleWebSocket creates
    its client (open connection, empty queue of capacity 256, buffering
    state with an empty buffer of 100 on a new array), registers a new
    Session with only that party's slot filled, records the arrival in the
    row of the booking, and sends nothing: the party waits. *)
Theorem first_party_waits (auth : WebSocketAuthContext.t) (id : UUID) (w : World) :
  hub w !! WebSocketAuthContext.BookingID auth = None →
  let a := fresh (dom (arrays w)) in
  let c := fresh (dom (clients w)) in
  let s := fresh (dom (sessions w)) in
  let b := WebSocketAuthContext.BookingID auth in
  let role := WebSocketAuthContext.Role auth in
  HandleWebSocket auth id w =
    (mkWorld (<[a := replicate 100 zeroMessage]> (arrays w))
       (<[c := new_client auth id a]> (clients w))
       (<[s := fill_slot_of role c (Session.mk b None None (clock w) 1800 (make_chan 0))]>
          (sessions w))
       (<[b := s]> (hub w))
       (alter (joined_row role (clock w)) b (video_sessions w))
       (clock w),
     Ret (c, s)).
Proof.
  intros Hhub a c s b role. unfold HandleWebSocket.
  set (w0 := set_arrays (<[a := replicate 100 zeroMessage]> (arrays w)) w).
  rewrite (bind_Ret (liftA NewConnectionState) _ w w0
             (ConnectionState.mk false false true (MessageBuffer.mk (mkSlice a 0 100) 100)))
    by reflexivity.
  rewrite (bind_Ret get _ w0 w0 w0) by done.
  cbn [clients set_arrays w0]. fold c. fold (new_client auth id a).
  set (w1 := set_clients <[c := new_client auth id a]> w0).
  rewrite (bind_Ret (modify _) _ w0 w1 tt) by done.
  assert (Hcl : clients w1 !! c = Some (new_client auth id a)) by apply lookup_insert_eq.
  destruct (Hub_AddClient_new b c (new_client auth id a) w1 Hhub Hcl) as [Hadd _].
  rewrite (bind_Ret _ _ _ _ _ Hadd).
  set (w2 := mkWorld _ _ _ _ _ _).
  assert (Hcl2 : clients w2 !! c = Some (new_client auth id a)) by apply lookup_insert_eq.
  rewrite (bind_Ret _ _ _ _ _ (HandleClientJoined_spec _ _ _ _ Hcl2)).
  set (w3 := set_video_sessions _ w2).
  assert (Hready : sendSessionReady (fresh (dom (sessions w1))) c auth w3 = (w3, Ret tt)).
  { unfold sendSessionReady.
    erewrite bind_Ret.
    2:{ unfold Session_BothJoined. erewrite bind_Ret
          by (apply getSession_Some; cbn; apply lookup_insert_eq). reflexivity. }
    unfold fill_slot_of. cbn. by case_decide. }
  rewrite (bind_Ret _ _ _ _ _ Hready). done.
Qed.

End Arrival.

(** ** Histories: what no execution of the handlers undoes *)

Lemma chan_grows_refl {T} (ch : Chan T) : chan_grows ch ch.
Proof. by repeat split. Qed.

Lemma chan_grows_trans {T} (ch1 ch2 ch3 : Chan T) :
  chan_grows ch1 ch2 → chan_grows ch2 ch3 → chan_grows ch1 ch3.
Proof.
  intros (Hp1 & Hr1 & Hc1 & Hx1) (Hp2 & Hr2 & Hc2 & Hx2).
  split; [by etrans|]. split; [lia|]. split; [congruence|].
  intros Hcl. destruct (Hx1 Hcl) as [Hcl2 E1]. destruct (Hx2 Hcl2) as [Hcl3 E2].
  split; congruence.
Qed.

Lemma conn_grows_refl (cn : Conn.t) : conn_grows cn cn.
Proof. by repeat split. Qed.

Lemma conn_grows_trans (cn1 cn2 cn3 : Conn.t) :
  conn_grows cn1 cn2 → conn_grows cn2 cn3 → conn_grows cn1 cn3.
Proof.
  intros (Hp1 & Hx1) (Hp2 & Hx2). split; [by etrans|].
  intros Hcl. destruct (Hx1 Hcl) as [Hcl2 E1]. destruct (Hx2 Hcl2) as [Hcl3 E2].
  split; congruence.
Qed.

Lemma state_grows_refl (cs : ConnectionState.t) : state_grows cs cs.
Proof. by repeat split. Qed.

Lemma state_grows_trans (cs1 cs2 cs3 : ConnectionState.t) :
  state_grows cs1 cs2 → state_grows cs2 cs3 → state_grows cs1 cs3.
Proof.
  intros (Ea1 & Eb1 & Ec1 & F1) (Ea2 & Eb2 & Ec2 & F2).
  split; [congruence|]. split; [congruence|]. split; [congruence|]. auto.
Qed.

Lemma client_grows_refl (cl : Client.t) : client_grows cl cl.
Proof.
  repeat split; try done.
Qed.

Lemma client_grows_trans (cl1 cl2 cl3 : Client.t) :
  client_grows cl1 cl2 → client_grows cl2 cl3 → client_grows cl1 cl3.
Proof.
  intros (Ea1 & Eb1 & Ec1 & Ed1 & Ee1 & Ef1 & Hc1 & Hs1 & Hd1 & Ht1)
         (Ea2 & Eb2 & Ec2 & Ed2 & Ee2 & Ef2 & Hc2 & Hs2 & Hd2 & Ht2).
  split; [congruence|]. split; [congruence|]. split; [congruence|].
  split; [congruence|]. split; [congruence|]. split; [congruence|].
  split; [by eapply conn_grows_trans|]. split; [by eapply chan_grows_trans|].
  split; [by eapply chan_grows_trans|]. by eapply state_grows_trans.
Qed.

Lemma session_grows_refl (se : Session.t) : session_grows se se.
Proof. by repeat split. Qed.

Lemma session_grows_trans (se1 se2 se3 : Session.t) :
  session_grows se1 se2 → session_grows se2 se3 → session_grows se1 se3.
Proof.
  intros (Ea1 & Eb1 & Ec1 & Ed1) (Ea2 & Eb2 & Ec2 & Ed2). repeat split; congruence.
Qed.

Lemma row_grows_refl (r : VideoSession.t) : row_grows r r.
Proof. repeat split; try done. by left. Qed.

Lemma row_grows_trans (r1 r2 r3 : VideoSession.t) :
  row_grows r1 r2 → row_grows r2 r3 → row_grows r1 r3.
Proof.
  intros (Ea1 & Eb1 & Ec1 & Ed1 & Ee1 & Hs1 & H1) (Ea2 & Eb2 & Ec2 & Ed2 & Ee2 & Hs2 & H2).
  split; [congruence|]. split; [congruence|]. split; [congruence|].
  split; [congruence|]. split; [congruence|]. split; [congruence|].
  destruct H1 as [(Hst1 & Hd1 & He1)|(Hst1 & He1 & Hd1)],
           H2 as [(Hst2 & Hd2 & He2)|(Hst2 & He2 & Hd2)].
  - left. repeat split; congruence.
  - right. split; [done|]. split; [done|]. intros Hcond. apply Hd2.
    rewrite Hs1, He1. done.
  - right. split; [congruence|]. split; [congruence|]. intros Hcond. rewrite Hd2. auto.
  - right. split; [done|]. split; [done|]. intros _. apply Hd2. by right.
Qed.

Lemma advances_refl (w : World) : advances w w.
Proof.
  split; [done|]. split; [|split; [|split]].
  - intros c cl Hc. exists cl. split; [done|apply client_grows_refl].
  - intros c cl' Hc Hn. congruence.
  - intros s se Hs. exists se. split; [done|apply session_grows_refl].
  - intros b. destruct (video_sessions w !! b); [apply row_grows_refl|done].
Qed.

Lemma advances_trans (w1 w2 w3 : World) :
  advances w1 w2 → advances w2 w3 → advances w1 w3.
Proof.
  intros (Ha1 & Hc1 & Hn1 & Hs1 & Ht1) (Ha2 & Hc2 & Hn2 & Hs2 & Ht2).
  split; [auto|]. split; [|split; [|split]].
  - intros c cl Hc. destruct (Hc1 _ _ Hc) as (cl2 & Hcl2 & Hg1).
    destruct (Hc2 _ _ Hcl2) as (cl3 & Hcl3 & Hg2).
    exists cl3. split; [done|by eapply client_grows_trans].
  - intros c cl3 Hc3 Hnone.
    destruct (clients w2 !! c) as [cl2|] eqn:Hc2'.
    + destruct (Hc2 _ _ Hc2') as (cl3' & Hcl3' & Hg2).
      rewrite Hc3 in Hcl3'. injection Hcl3' as <-.
      destruct (Hn1 _ _ Hc2' Hnone) as (auth & id & a & Harr & Hg1).
      exists auth, id, a. split; [done|by eapply client_grows_trans].
    + destruct (Hn2 _ _ Hc3 Hc2') as (auth & id & a & Harr & Hg).
      exists auth, id, a. split; [|done].
      destruct (arrays w1 !! a) as [cells|] eqn:Hcells; [|done].
      by rewrite (Ha1 _ _ Hcells) in Harr.
  - intros s se Hs. destruct (Hs1 _ _ Hs) as (se2 & Hse2 & Hg1).
    destruct (Hs2 _ _ Hse2) as (se3 & Hse3 & Hg2).
    exists se3. split; [done|by eapply session_grows_trans].
  - intros b. specialize (Ht1 b). specialize (Ht2 b).
    destruct (video_sessions w1 !! b), (video_sessions w2 !! b), (video_sessions w3 !! b);
      try done. by eapply row_grows_trans.
Qed.

(** The monad. *)
Lemma adv_ret {A} (a : A) : adv (ret a).
Proof. intros w w' r [= <- _]. apply advances_refl. Qed.

Lemma adv_panic {A} (msg : string) : adv (panic (A:=A) msg).
Proof. intros w w' r [= <- _]. apply advances_refl. Qed.

Lemma adv_get : adv get.
Proof. intros w w' r [= <- _]. apply advances_refl. Qed.

Lemma adv_bind {A B} (m : M A) (k : A → M B) :
  adv m → (∀ a, adv (k a)) → adv (bind m k).
Proof.
  intros Hm Hk w w' r. unfold bind. destruct (m w) as [w1 [a|msg]] eqn:Hmw.
  - intros Hkw. eapply advances_trans; [by eapply Hm|by eapply Hk].
  - intros [= <- _]. by eapply Hm.
Qed.

Lemma adv_getClient (c : cptr) : adv (getClient c).
Proof.
  intros w w' r. unfold getClient.
  destruct (clients w !! c); intros [= <- _]; apply advances_refl.
Qed.

Lemma adv_getSession (s : sptr) : adv (getSession s).
Proof.
  intros w w' r. unfold getSession.
  destruct (sessions w !! s); intros [= <- _]; apply advances_refl.
Qed.

(** The world after an allocated client has grown. *)
Lemma advances_client (w : World) (c : cptr) (cl cl' : Client.t) :
  clients w !! c = Some cl → client_grows cl cl' →
  advances w (set_clients <[c := cl']> w).
Proof.
  intros Hc Hg. split; [done|]. split; [|split; [|split]]; cbn.
  - intros c0 cl0 Hc0. destruct (decide (c = c0)) as [<-|Hne].
    + rewrite lookup_insert_eq. exists cl'. split; [done|]. congruence.
    + rewrite lookup_insert_ne by done. exists cl0. split; [done|apply client_grows_refl].
  - intros c0 cl0. destruct (decide (c = c0)) as [<-|Hne].
    + congruence.
    + rewrite lookup_insert_ne by done. congruence.
  - intros s se Hs. exists se. split; [done|apply session_grows_refl].
  - intros b. destruct (video_sessions w !! b); [apply row_grows_refl|done].
Qed.

(** The world after an allocated Session has had its slots rewritten. *)
Lemma advances_session (w : World) (s : sptr) (se se' : Session.t) :
  sessions w !! s = Some se → session_grows se se' →
  advances w (set_sessions <[s := se']> w).
Proof.
  intros Hs Hg. split; [done|]. split; [|split; [|split]]; cbn.
  - intros c cl Hc. exists cl. split; [done|apply client_grows_refl].
  - congruence.
  - intros s0 se0 Hs0. destruct (decide (s = s0)) as [<-|Hne].
    + rewrite lookup_insert_eq. exists se'. split; [done|]. congruence.
    + rewrite lookup_insert_ne by done. exists se0. split; [done|apply session_grows_refl].
  - intros b. destruct (video_sessions w !! b); [apply row_grows_refl|done].
Qed.

(** The world after the row of a booking, when there is one, has
    grown. *)
Lemma advances_table (w : World) (b : UUID) (f : VideoSession.t → VideoSession.t) :
  (∀ r, video_sessions w !! b = Some r → row_grows r (f r)) →
  advances w (set_video_sessions (alter f b) w).
Proof.
  intros Hf. split; [done|]. split; [|split; [|split]]; cbn.
  - intros c cl Hc. exists cl. split; [done|apply client_grows_refl].
  - congruence.
  - intros s se Hs. exists se. split; [done|apply session_grows_refl].
  - intros b0. destruct (decide (b = b0)) as [<-|Hne].
    + rewrite lookup_alter_eq. destruct (video_sessions w !! b); cbn; auto.
    + rewrite lookup_alter_ne by done.
      destruct (video_sessions w !! b0); [apply row_grows_refl|done].
Qed.

(** A change of the registry or of the clock alone. *)
Lemma advances_hub_clock (w : World) (h : gmap UUID sptr) (t : Time) :
  advances w (mkWorld (arrays w) (clients w) (sessions w) h (video_sessions w) t).
Proof.
  split; [done|]. split; [|split; [|split]]; cbn.
  - intros c cl Hc. exists cl. split; [done|apply client_grows_refl].
  - congruence.
  - intros s se Hs. exists se. split; [done|apply session_grows_refl].
  - intros b. destruct (video_sessions w !! b); [apply row_grows_refl|done].
Qed.

Create HintDb adv.

Ltac adv_tac :=
  repeat first
    [ solve [auto with adv]
    | apply adv_ret | apply adv_panic | apply adv_get
    | apply adv_getClient | apply adv_getSession
    | lazymatch goal with
      | |- adv (bind _ _) => apply adv_bind; [|intros ?]
      | |- adv (match ?x with _ => _ end) => destruct x
      end ].

Ltac grows_tac :=
  unfold client_grows, conn_grows, chan_grows, state_grows, session_grows, enqueued,
    Client.set_Conn, Client.set_Send, Client.set_Done, Client.set_ConnectionState,
    SetSessionReadySent, Session.set_Mentor, Session.set_User;
  cbn; repeat split; try done; try (by apply prefix_app_r); try congruence.

(** An update through a client pointer that makes the client grow. *)
Lemma advances_updClient (c : cptr) (f : Client.t → Client.t) (w w' : World)
    (r : Outcome unit) :
  (∀ cl, clients w !! c = Some cl → client_grows cl (f cl)) →
  updClient c f w = (w', r) → advances w w'.
Proof.
  intros Hf. unfold updClient, bind, getClient, modify.
  destruct (clients w !! c) as [cl|] eqn:Hc; intros [= <- _]; [|apply advances_refl].
  apply (advances_client w c cl); auto.
Qed.

Lemma adv_updClient (c : cptr) (f : Client.t → Client.t) :
  (∀ cl, client_grows cl (f cl)) → adv (updClient c f).
Proof. intros Hf w w' r. apply advances_updClient. auto. Qed.

Lemma client_grows_enqueued (message : OutMessage.t) (cl : Client.t) :
  closed (Client.Send cl) = false → client_grows cl (enqueued message cl).
Proof.
  intros Hopen. grows_tac.
Qed.

Lemma adv_try_send (c : cptr) (message : OutMessage.t) : adv (try_send c message).
Proof.
  intros w w' r. destruct (clients w !! c) as [cl|] eqn:Hc.
  - rewrite (try_send_spec _ _ _ _ Hc).
    destruct (closed (Client.Send cl)) eqn:Hopen; [intros [= <- _]; apply advances_refl|].
    destruct (chan_full (Client.Send cl)); intros [= <- _]; [apply advances_refl|].
    apply (advances_client w c cl); [done|by apply client_grows_enqueued].
  - unfold try_send. rewrite (bind_Panic _ _ _ _ _ (getClient_None _ _ Hc)).
    intros [= <- _]. apply advances_refl.
Qed.

Lemma adv_close_Send (c : cptr) : adv (close_Send c).
Proof.
  intros w w' r. unfold close_Send, bind at 1, getClient.
  destruct (clients w !! c) as [cl|] eqn:Hc; [|intros [= <- _]; apply advances_refl].
  unfold chan_close. destruct (closed (Client.Send cl)) eqn:Hopen;
    [intros [= <- _]; apply advances_refl|].
  apply advances_updClient. intros cl0 Hcl0. rewrite Hc in Hcl0. injection Hcl0 as <-.
  grows_tac.
Qed.

Lemma adv_close_Done (c : cptr) : adv (close_Done c).
Proof.
  intros w w' r. unfold close_Done, bind at 1, getClient.
  destruct (clients w !! c) as [cl|] eqn:Hc; [|intros [= <- _]; apply advances_refl].
  unfold chan_close. destruct (closed (Client.Done cl)) eqn:Hopen;
    [intros [= <- _]; apply advances_refl|].
  apply advances_updClient. intros cl0 Hcl0. rewrite Hc in Hcl0. injection Hcl0 as <-.
  grows_tac.
Qed.

Lemma adv_Conn_Close (c : cptr) : adv (Conn_Close c).
Proof.
  apply adv_updClient. intros cl. grows_tac.
Qed.

Lemma adv_Client_Close (c : cptr) : adv (Client_Close c).
Proof.
  unfold Client_Close.
  apply adv_bind; [apply adv_close_Send|]. intros _.
  apply adv_bind; [apply adv_Conn_Close|]. intros _. apply adv_close_Done.
Qed.

Lemma adv_Conn_Write (c : cptr) (frame : WireFrame) : adv (Conn_Write c frame).
Proof.
  intros w w' r. destruct (clients w !! c) as [cl|] eqn:Hc.
  - rewrite (Conn_Write_spec _ _ _ _ Hc).
    destruct (Conn.closed (Client.Conn cl)) eqn:Hopen; intros [= <- _]; [apply advances_refl|].
    apply (advances_client w c cl); [done|].
    grows_tac.
  - unfold Conn_Write. rewrite (bind_Panic _ _ _ _ _ (getClient_None _ _ Hc)).
    intros [= <- _]. apply advances_refl.
Qed.

Lemma adv_set_flag (c : cptr) :
  adv (updClient c (Client.set_ConnectionState (SetSessionReadySent true))).
Proof.
  apply adv_updClient. intros cl. grows_tac.
Qed.

#[local] Hint Resolve adv_try_send adv_close_Send adv_close_Done adv_Conn_Close
  adv_Client_Close adv_Conn_Write adv_set_flag : adv.

(** Sessions and the registry. *)
Lemma adv_set_slot (s : sptr) (f : Session.t → Session.t) :
  (∀ se, session_grows se (f se)) → adv (updSession s f).
Proof.
  intros Hf w w' r. unfold updSession, bind, getSession, modify.
  destruct (sessions w !! s) as [se|] eqn:Hs; intros [= <- _]; [|apply advances_refl].
  by apply (advances_session w s se).
Qed.

Lemma adv_set_Mentor (s : sptr) (v : option cptr) : adv (updSession s (Session.set_Mentor v)).
Proof. apply adv_set_slot. intros se. grows_tac. Qed.

Lemma adv_set_User (s : sptr) (v : option cptr) : adv (updSession s (Session.set_User v)).
Proof. apply adv_set_slot. intros se. grows_tac. Qed.

Lemma adv_set_hub (f : gmap UUID sptr → gmap UUID sptr) : adv (modify (set_hub f)).
Proof. intros w w' r [= <- _]. apply advances_hub_clock. Qed.

Lemma adv_NewSession (bookingID : UUID) (maxDuration : Z) : adv (NewSession bookingID maxDuration).
Proof.
  intros w w' r. unfold NewSession, time_Now, bind, get, modify, ret. cbn. intros [= <- _].
  split; [done|]. split; [|split; [|split]]; cbn.
  - intros c cl Hc. exists cl. split; [done|apply client_grows_refl].
  - congruence.
  - intros s se Hs. exists se. split; [|apply session_grows_refl].
    rewrite lookup_insert_ne; [done|]. intros <-.
    apply (is_fresh (dom (sessions w))), elem_of_dom. eauto.
  - intros b. destruct (video_sessions w !! b); [apply row_grows_refl|done].
Qed.

#[local] Hint Resolve adv_set_Mentor adv_set_User adv_set_hub adv_NewSession : adv.

Lemma adv_Hub_AddClient (bookingID : UUID) (client : cptr) : adv (Hub_AddClient bookingID client).
Proof. unfold Hub_AddClient. adv_tac. Qed.

Lemma adv_Hub_GetSession (bookingID : UUID) : adv (Hub_GetSession bookingID).
Proof. unfold Hub_GetSession. adv_tac. Qed.

Lemma adv_Hub_RemoveClient (bookingID : UUID) (role : string) :
  adv (Hub_RemoveClient bookingID role).
Proof. unfold Hub_RemoveClient. adv_tac. Qed.

Lemma adv_Session_BothJoined (s : sptr) : adv (Session_BothJoined s).
Proof. unfold Session_BothJoined. adv_tac. Qed.

Lemma adv_Session_GetOtherClient (s : sptr) (role : string) :
  adv (Session_GetOtherClient s role).
Proof. unfold Session_GetOtherClient. adv_tac. Qed.

Lemma adv_Session_SendToRole (s : sptr) (role : string) (message : OutMessage.t) :
  adv (Session_SendToRole s role message).
Proof. unfold Session_SendToRole. adv_tac. Qed.

Lemma adv_Session_Broadcast (s : sptr) (message : OutMessage.t) :
  adv (Session_Broadcast s message).
Proof. unfold Session_Broadcast. adv_tac. Qed.

#[local] Hint Resolve adv_Hub_AddClient adv_Hub_GetSession adv_Hub_RemoveClient
  adv_Session_BothJoined adv_Session_GetOtherClient adv_Session_SendToRole
  adv_Session_Broadcast : adv.

(** The table. *)
Lemma adv_sql_update (bookingID : UUID) (f : Time → VideoSession.t → VideoSession.t) :
  (∀ now r, row_grows r (f now r)) → adv (sql_update bookingID f).
Proof.
  intros Hf w w' r. unfold sql_update, time_Now, bind, get, modify, ret. cbn.
  intros [= <- _]. apply advances_table. auto.
Qed.

Ltac row_tac :=
  intros ? ?; unfold row_grows; cbn; repeat (split; [done|]); left; done.

Lemma adv_Repo_RecordMentorJoined (b : UUID) : adv (Repo_RecordMentorJoined b).
Proof. apply adv_sql_update. row_tac. Qed.

Lemma adv_Repo_RecordUserJoined (b : UUID) : adv (Repo_RecordUserJoined b).
Proof. apply adv_sql_update. row_tac. Qed.

Lemma adv_Repo_RecordMentorLeft (b : UUID) : adv (Repo_RecordMentorLeft b).
Proof. apply adv_sql_update. row_tac. Qed.

Lemma adv_Repo_RecordUserLeft (b : UUID) : adv (Repo_RecordUserLeft b).
Proof. apply adv_sql_update. row_tac. Qed.

Lemma adv_Repo_GetByBookingID (b : UUID) : adv (Repo_GetByBookingID b).
Proof. unfold Repo_GetByBookingID. adv_tac. Qed.

#[local] Hint Resolve adv_Repo_RecordMentorJoined adv_Repo_RecordUserJoined
  adv_Repo_RecordMentorLeft adv_Repo_RecordUserLeft adv_Repo_GetByBookingID : adv.

(** A connection being accepted: a buffer on a new array and a client
    at a new address. *)
Lemma advances_new_client (auth : WebSocketAuthContext.t) (id : UUID) (w : World) :
  advances w
    (set_clients <[fresh (dom (clients w)) := new_client auth id (fresh (dom (arrays w)))]>
       (set_arrays (<[fresh (dom (arrays w)) := replicate 100 zeroMessage]> (arrays w)) w)).
Proof.
  split; [|split; [|split; [|split]]]; cbn.
  - intros a cells Ha. rewrite lookup_insert_ne; [done|]. intros <-.
    apply (is_fresh (dom (arrays w))), elem_of_dom. eauto.
  - intros c cl Hc. exists cl. split; [|apply client_grows_refl].
    rewrite lookup_insert_ne; [done|]. intros <-.
    apply (is_fresh (dom (clients w))), elem_of_dom. eauto.
  - intros c cl'. destruct (decide (fresh (dom (clients w)) = c)) as [<-|Hne].
    + rewrite lookup_insert_eq. intros [= <-] _.
      exists auth, id, (fresh (dom (arrays w))). split; [|apply client_grows_refl].
      apply not_elem_of_dom, is_fresh.
    + rewrite lookup_insert_ne by done. congruence.
  - intros s se Hs. exists se. split; [done|apply session_grows_refl].
  - intros b. destruct (video_sessions w !! b); [apply row_grows_refl|done].
Qed.

Section Executions.
Context `{!TimeLib} `{!JSON}.

Lemma adv_EndSession (bookingID : UUID) (reason : string) : adv (EndSession bookingID reason).
Proof.
  intros w w' r. destruct (EndSession_table bookingID reason w) as [err ->].
  intros [= <- _]. apply advances_table. intros r0 _.
  unfold row_grows, completed_row, persisted_duration. cbn.
  repeat (split; [done|]). right. split; [done|]. split; [eauto|].
  intros [->|[t ->]]; [done|]. by destruct (VideoSession.SessionStartedAt r0).
Qed.

#[local] Hint Resolve adv_EndSession : adv.

Lemma adv_HandleClientJoined (client : cptr) (username : string) :
  adv (HandleClientJoined client username).
Proof. unfold HandleClientJoined. adv_tac. Qed.

Lemma adv_HandleClientLeft (bookingID : UUID) (role : string) :
  adv (HandleClientLeft bookingID role).
Proof. unfold HandleClientLeft. adv_tac. Qed.

Lemma adv_ForwardMessage (bookingID : UUID) (senderRole messageType : string)
    (payload : PayloadValue) :
  adv (ForwardMessage bookingID senderRole messageType payload).
Proof. unfold ForwardMessage. adv_tac. Qed.

Lemma adv_sendSessionReady (session : sptr) (newClient : cptr) (auth : WebSocketAuthContext.t) :
  adv (sendSessionReady session newClient auth).
Proof. unfold sendSessionReady. adv_tac. Qed.

#[local] Hint Resolve adv_HandleClientJoined adv_HandleClientLeft adv_ForwardMessage
  adv_sendSessionReady : adv.

Lemma adv_HandleWebSocket (auth : WebSocketAuthContext.t) (id : UUID) :
  adv (HandleWebSocket auth id).
Proof.
  intros w w' r. unfold HandleWebSocket.
  set (a := fresh (dom (arrays w))).
  set (w0 := set_arrays (<[a := replicate 100 zeroMessage]> (arrays w)) w).
  rewrite (bind_Ret (liftA NewConnectionState) _ w w0
             (ConnectionState.mk false false true (MessageBuffer.mk (mkSlice a 0 100) 100)))
    by reflexivity.
  rewrite (bind_Ret get _ w0 w0 w0) by done.
  cbn [clients set_arrays w0]. fold (new_client auth id a).
  set (w1 := set_clients <[fresh (dom (clients w)) := new_client auth id a]> w0).
  rewrite (bind_Ret (modify _) _ w0 w1 tt) by done.
  intros Hrest. apply (advances_trans w w1); [apply advances_new_client|].
  revert Hrest. generalize w1 w' r.
  change (adv (session <- Hub_AddClient (WebSocketAuthContext.BookingID auth)
                            (fresh (dom (clients w))) ;;
               _ <- HandleClientJoined (fresh (dom (clients w)))
                      (WebSocketAuthContext.Username auth) ;;
               sendSessionReady session (fresh (dom (clients w))) auth ;;;
               ret (fresh (dom (clients w)), session))).
  adv_tac.
Qed.

Lemma adv_handleOfferMessage (client : cptr) (session : sptr) (payload : RawMessage) :
  adv (handleOfferMessage client session payload).
Proof. unfold handleOfferMessage. adv_tac. Qed.

Lemma adv_handleAnswerMessage (client : cptr) (session : sptr) (payload : RawMessage) :
  adv (handleAnswerMessage client session payload).
Proof. unfold handleAnswerMessage. adv_tac. Qed.

Lemma adv_handleICECandidateMessage (client : cptr) (session : sptr) (payload : RawMessage) :
  adv (handleICECandidateMessage client session payload).
Proof. unfold handleICECandidateMessage. adv_tac. Qed.

#[local] Hint Resolve adv_HandleWebSocket adv_handleOfferMessage adv_handleAnswerMessage
  adv_handleICECandidateMessage : adv.

Lemma adv_readPump_body (client : cptr) (session : sptr) (r : ReadResult) :
  adv (readPump_body client session r).
Proof. unfold readPump_body. adv_tac. Qed.

Lemma adv_readPump_deferred (client : cptr) : adv (readPump_deferred client).
Proof. unfold readPump_deferred. adv_tac. Qed.

#[local] Hint Resolve adv_readPump_body adv_readPump_deferred : adv.

Lemma adv_readPump_loop (client : cptr) (session : sptr) (inputs : list ReadResult) :
  adv (readPump_loop client session inputs).
Proof. induction inputs as [|r rest IH]; cbn [readPump_loop]; adv_tac. Qed.

Lemma adv_with_defer {A} (d : M unit) (body : M A) : adv d → adv body → adv (with_defer d body).
Proof.
  intros Hd Hb w w' r. unfold with_defer.
  destruct (body w) as [w1 [a|msg]] eqn:Hbody;
    destruct (d w1) as [w2 [[]|msg']] eqn:Hdef; intros [= <- _];
    (eapply advances_trans; [by eapply Hb|by eapply Hd]).
Qed.

Lemma adv_readPump (client : cptr) (session : sptr) (inputs : list ReadResult) :
  adv (readPump client session inputs).
Proof.
  intros w w' r. unfold readPump.
  destruct (readPump_loop client session inputs w) as [w1 [[]|msg]] eqn:Hloop.
  - intros [= <- _]. by eapply adv_readPump_loop.
  - intros Hdef. eapply advances_trans; [by eapply adv_readPump_loop|].
    by eapply adv_readPump_deferred.
  - intros Hdef. eapply advances_trans; [by eapply adv_readPump_loop|].
    eapply (adv_with_defer (readPump_deferred client) (panic msg)); [| |exact Hdef];
      adv_tac.
Qed.

Lemma adv_writePump_body (client : cptr) (ev : WriteEvent) : adv (writePump_body client ev).
Proof.
  assert (Hwrite : ∀ frame, adv (err <- Conn_Write client frame ;;
                                 if err then ret Return else ret Continue))
    by (intros frame; adv_tac).
  assert (Hclose : adv (_ <- Conn_Write client CloseMessage ;; ret Return)) by adv_tac.
  intros w w' r. unfold writePump_body.
  destruct (clients w !! client) as [cl|] eqn:Hcl.
  2:{ rewrite (bind_Panic _ _ _ _ _ (getClient_None _ _ Hcl)). intros [= <- _].
      apply advances_refl. }
  rewrite (bind_Ret _ _ _ _ _ (getClient_Some _ _ _ Hcl)).
  destruct ev.
  - unfold chan_try_recv. destruct (pending (Client.Send cl)) as [|v rest].
    + destruct (closed (Client.Send cl)); [|intros [= <- _]; apply advances_refl].
      apply Hclose.
    + rewrite (bind_Ret _ _ _ _ _ (updClient_Some _ _ _ _ Hcl)).
      intros Hrest. eapply advances_trans; [|exact (Hwrite _ _ _ _ Hrest)].
      apply (advances_client w client cl); [done|]. grows_tac; try lia.
  - apply Hwrite.
  - destruct (closed (Client.Done cl)); intros [= <- _]; apply advances_refl.
Qed.

#[local] Hint Resolve adv_writePump_body : adv.

Lemma adv_writePump_step (client : cptr) (ev : WriteEvent) : adv (writePump_step client ev).
Proof. unfold writePump_step. adv_tac. Qed.

Lemma adv_writePump_loop (client : cptr) (evs : list WriteEvent) :
  adv (writePump_loop client evs).
Proof. induction evs as [|ev rest IH]; cbn [writePump_loop]; adv_tac. Qed.

Lemma adv_writePump (client : cptr) (evs : list WriteEvent) : adv (writePump client evs).
Proof.
  intros w w' r. unfold writePump.
  destruct (writePump_loop client evs w) as [w1 [[]|msg]] eqn:Hloop.
  - intros [= <- _]. by eapply adv_writePump_loop.
  - intros Hdef. eapply advances_trans; [by eapply adv_writePump_loop|].
    by eapply adv_Conn_Close.
  - intros Hdef. eapply advances_trans; [by eapply adv_writePump_loop|].
    eapply (adv_with_defer (Conn_Close client) (panic msg)); [| |exact Hdef]; adv_tac.
Qed.

Lemma adv_recovered {A} (handler : M A) : adv handler → adv (recovered handler).
Proof.
  intros Hh w w' r. unfold recovered. intros [= <- _].
  destruct (handler w) as [w1 r1] eqn:Hrun. by eapply Hh.
Qed.

Lemma adv_step (op : Op) : adv (step op).
Proof.
  destruct op as [auth id|client session r|client ev|d]; cbn [step].
  - apply adv_recovered, adv_HandleWebSocket.
  - apply adv_readPump.
  - apply adv_writePump_step.
  - intros w w' r [= <- _]. apply advances_hub_clock.
Qed.

Lemma adv_run (ops : list Op) : adv (run ops).
Proof.
  induction ops as [|op rest IH]; cbn [run]; [apply adv_ret|].
  apply adv_bind; [apply adv_step|]. intros _. apply IH.
Qed.

End Executions.

(** ** The registry in the executions of the handlers *)

Lemma only_clients_get : only_clients get.
Proof. intros w w' r [= <- _]. done. Qed.

Lemma only_clients_getSession (s : sptr) : only_clients (getSession s).
Proof. intros w w' r. unfold getSession. by destruct (sessions w !! s); intros [= <- _]. Qed.

Lemma only_clients_table (f : gmap UUID VideoSession.t → gmap UUID VideoSession.t) :
  only_clients (modify (set_video_sessions f)).
Proof. intros w w' r [= <- _]. done. Qed.

Create HintDb oc.

#[local] Hint Resolve only_clients_ret only_clients_panic only_clients_getClient
  only_clients_updClient only_clients_Client_Close only_clients_get
  only_clients_getSession only_clients_table : oc.

Ltac oc_tac :=
  repeat first
    [ solve [auto with oc]
    | lazymatch goal with
      | |- only_clients (bind _ _) => apply only_clients_bind; [|intros ?]
      | |- only_clients (match ?x with _ => _ end) => destruct x
      end ].

Lemma only_clients_try_send (c : cptr) (message : OutMessage.t) :
  only_clients (try_send c message).
Proof. unfold try_send. oc_tac. Qed.

Lemma only_clients_Conn_Close (c : cptr) : only_clients (Conn_Close c).
Proof. unfold Conn_Close. oc_tac. Qed.

Lemma only_clients_Conn_Write (c : cptr) (frame : WireFrame) :
  only_clients (Conn_Write c frame).
Proof. unfold Conn_Write. oc_tac. Qed.

Lemma only_clients_sql_update (b : UUID) (f : Time → VideoSession.t → VideoSession.t) :
  only_clients (sql_update b f).
Proof. unfold sql_update, time_Now. oc_tac. Qed.

#[local] Hint Resolve only_clients_try_send only_clients_Conn_Close only_clients_Conn_Write
  only_clients_sql_update : oc.

Lemma only_clients_Hub_GetSession (b : UUID) : only_clients (Hub_GetSession b).
Proof. unfold Hub_GetSession. oc_tac. Qed.

Lemma only_clients_Session_BothJoined (s : sptr) : only_clients (Session_BothJoined s).
Proof. unfold Session_BothJoined. oc_tac. Qed.

Lemma only_clients_Session_GetOtherClient (s : sptr) (role : string) :
  only_clients (Session_GetOtherClient s role).
Proof. unfold Session_GetOtherClient. oc_tac. Qed.

Lemma only_clients_Session_SendToRole (s : sptr) (role : string) (message : OutMessage.t) :
  only_clients (Session_SendToRole s role message).
Proof. unfold Session_SendToRole. oc_tac. Qed.

#[local] Hint Resolve only_clients_Hub_GetSession only_clients_Session_BothJoined
  only_clients_Session_GetOtherClient only_clients_Session_SendToRole : oc.

Lemma keeps_registry_only_clients {A} (m : M A) : only_clients m → keeps_registry m.
Proof.
  intros Hm w w' r Hrun Hinv. destruct (Hm _ _ _ Hrun) as (Hs & Hh & _).
  by apply (registry_inv_same w).
Qed.

Lemma keeps_registry_bind {A B} (m : M A) (k : A → M B) :
  keeps_registry m → (∀ a, keeps_registry (k a)) → keeps_registry (bind m k).
Proof.
  intros Hm Hk w w' r. unfold bind. destruct (m w) as [w1 [a|msg]] eqn:Hmw.
  - intros Hkw Hinv. eapply Hk; [done|]. by eapply Hm.
  - intros [= <- _] Hinv. by eapply Hm.
Qed.

Lemma keeps_registry_Hub_RemoveClient (b : UUID) (role : string) :
  keeps_registry (Hub_RemoveClient b role).
Proof.
  intros w w' r Hrun Hinv. by destruct (Hub_RemoveClient_registry _ _ _ _ _ Hinv Hrun).
Qed.

Section RegistryExecutions.
Context `{!TimeLib} `{!JSON}.

Lemma only_clients_EndSession (b : UUID) (reason : string) : only_clients (EndSession b reason).
Proof. unfold EndSession, Repo_GetByBookingID, Repo_EndSession, time_Now. oc_tac. Qed.

Lemma only_clients_HandleClientJoined (client : cptr) (username : string) :
  only_clients (HandleClientJoined client username).
Proof.
  unfold HandleClientJoined, Repo_RecordMentorJoined, Repo_RecordUserJoined. oc_tac.
Qed.

#[local] Hint Resolve only_clients_EndSession only_clients_HandleClientJoined : oc.

Lemma only_clients_sendSessionReady (session : sptr) (newClient : cptr)
    (auth : WebSocketAuthContext.t) :
  only_clients (sendSessionReady session newClient auth).
Proof. unfold sendSessionReady. oc_tac. Qed.

Lemma only_clients_readPump_body (client : cptr) (session : sptr) (r : ReadResult) :
  only_clients (readPump_body client session r).
Proof.
  unfold readPump_body, handleOfferMessage, handleAnswerMessage, handleICECandidateMessage.
  oc_tac.
Qed.

Lemma only_clients_writePump_step (client : cptr) (ev : WriteEvent) :
  only_clients (writePump_step client ev).
Proof. unfold writePump_step, writePump_body. oc_tac. Qed.

#[local] Hint Resolve only_clients_sendSessionReady only_clients_readPump_body
  only_clients_writePump_step : oc.

Lemma keeps_registry_HandleClientLeft (b : UUID) (role : string) :
  keeps_registry (HandleClientLeft b role).
Proof.
  unfold HandleClientLeft.
  apply keeps_registry_bind; [apply keeps_registry_only_clients|intros _].
  { unfold Repo_RecordMentorLeft, Repo_RecordUserLeft. oc_tac. }
  apply keeps_registry_bind; [apply keeps_registry_only_clients; oc_tac|intros session].
  apply keeps_registry_bind; [apply keeps_registry_only_clients; oc_tac|intros _].
  apply keeps_registry_bind; [apply keeps_registry_Hub_RemoveClient|intros _].
  apply keeps_registry_only_clients. oc_tac.
Qed.

Lemma keeps_registry_readPump_deferred (client : cptr) :
  keeps_registry (readPump_deferred client).
Proof.
  unfold readPump_deferred.
  apply keeps_registry_bind; [apply keeps_registry_only_clients; oc_tac|intros cl].
  apply keeps_registry_bind; [apply keeps_registry_HandleClientLeft|intros _].
  apply keeps_registry_bind; [apply keeps_registry_Hub_RemoveClient|intros _].
  apply keeps_registry_only_clients. oc_tac.
Qed.

Lemma keeps_registry_readPump (client : cptr) (session : sptr) (inputs : list ReadResult) :
  keeps_registry (readPump client session inputs).
Proof.
  assert (Hloop : keeps_registry (readPump_loop client session inputs)).
  { induction inputs as [|r rest IH]; cbn [readPump_loop].
    - apply keeps_registry_only_clients. oc_tac.
    - apply keeps_registry_bind; [apply keeps_registry_only_clients; oc_tac|].
      intros [|]; [done|]. apply keeps_registry_only_clients. oc_tac. }
  intros w w' r. unfold readPump.
  destruct (readPump_loop client session inputs w) as [w1 [[]|msg]] eqn:Hrun.
  - intros [= <- _] Hinv. by eapply Hloop.
  - intros Hdef Hinv. eapply keeps_registry_readPump_deferred; [done|]. by eapply Hloop.
  - unfold with_defer, panic.
    destruct (readPump_deferred client w1) as [w2 [[]|msg']] eqn:Hdef;
      intros [= <- _] Hinv;
      (eapply keeps_registry_readPump_deferred; [done|]; by eapply Hloop).
Qed.

Lemma keeps_registry_HandleWebSocket (auth : WebSocketAuthContext.t) (id : UUID) :
  keeps_registry (HandleWebSocket auth id).
Proof.
  intros w w' r. unfold HandleWebSocket.
  set (a := fresh (dom (arrays w))).
  set (w0 := set_arrays (<[a := replicate 100 zeroMessage]> (arrays w)) w).
  rewrite (bind_Ret (liftA NewConnectionState) _ w w0
             (ConnectionState.mk false false true (MessageBuffer.mk (mkSlice a 0 100) 100)))
    by reflexivity.
  rewrite (bind_Ret get _ w0 w0 w0) by done.
  cbn [clients set_arrays w0]. fold (new_client auth id a).
  set (c := fresh (dom (clients w))).
  set (w1 := set_clients <[c := new_client auth id a]> w0).
  rewrite (bind_Ret (modify _) _ w0 w1 tt) by done.
  intros Hrest Hinv.
  assert (Hinv1 : registry_inv w1) by (by apply (registry_inv_same w)).
  revert Hrest. unfold bind at 1.
  destruct (Hub_AddClient (WebSocketAuthContext.BookingID auth) c w1) as [w2 [s|msg]] eqn:Hadd.
  - destruct (Hub_AddClient_registry _ _ _ _ _ Hinv1
                ltac:(subst w1; cbn; rewrite lookup_insert_eq; eauto) Hadd) as [Hinv2 _].
    intros Hrest. revert Hinv2. revert Hrest.
    assert (Hk : keeps_registry
                   (_ <- HandleClientJoined c (WebSocketAuthContext.Username auth) ;;
                    sendSessionReady s c auth ;;; ret (c, s))).
    { apply keeps_registry_only_clients. oc_tac. }
    apply Hk.
  - intros [= <- _].
    by destruct (Hub_AddClient_registry _ _ _ _ _ Hinv1
                   ltac:(subst w1; cbn; rewrite lookup_insert_eq; eauto) Hadd).
Qed.

Lemma keeps_registry_step (op : Op) : keeps_registry (step op).
Proof.
  destruct op as [auth id|client session r|client ev|d]; cbn [step].
  - intros w w' r. unfold recovered. intros [= <- _] Hinv.
    destruct (HandleWebSocket auth id w) as [w1 r1] eqn:Hrun.
    by eapply keeps_registry_HandleWebSocket.
  - apply keeps_registry_readPump.
  - apply keeps_registry_only_clients. oc_tac.
  - intros w w' r [= <- _] Hinv. by apply (registry_inv_same w).
Qed.

Lemma keeps_registry_run (ops : list Op) : keeps_registry (run ops).
Proof.
  induction ops as [|op rest IH]; cbn [run].
  - apply keeps_registry_only_clients. oc_tac.
  - apply keeps_registry_bind; [apply keeps_registry_step|]. intros _. apply IH.
Qed.

End RegistryExecutions.

(** ** What every execution of the handlers preserves *)

Section Preserved.
Context `{!TimeLib} `{!JSON}.

Lemma run_advances (ops : list Op) (w : World) : advances w (fst (run ops w)).
Proof. destruct (run ops w) as [w' r] eqn:Hrun. by apply (adv_run ops w w' r). Qed.

(** What has been written on a connection stays written, in the same
    order, through every execution of the handlers; a connection that is
    closed stays closed, and nothing more is ever written on it. *)
Theorem closed_connection_stays_silent (ops : list Op) (w : World) (c : cptr) (cl : Client.t) :
  clients w !! c = Some cl →
  ∃ cl', clients (fst (run ops w)) !! c = Some cl' ∧
    Conn.written (Client.Conn cl) `prefix_of` Conn.written (Client.Conn cl') ∧
    (Conn.closed (Client.Conn cl) = true →
     Conn.closed (Client.Conn cl') = true ∧
     Conn.written (Client.Conn cl') = Conn.written (Client.Conn cl)).
Proof.
  intros Hc. destruct (run_advances ops w) as (_ & Hcl & _).
  destruct (Hcl _ _ Hc) as (cl' & Hc' & Hg). exists cl'. split; [done|].
  by destruct Hg as (_ & _ & _ & _ & _ & _ & Hconn & _).
Qed.

(** The history of a client's outbound queue only grows at its end
    through every execution of the handlers: no message is retracted or
    reordered, receives are never undone, the capacity is fixed, and a
    queue that is closed stays closed and takes no further message.  The
    same holds of the Done channel. *)
Theorem queue_history_only_grows (ops : list Op) (w : World) (c : cptr) (cl : Client.t) :
  clients w !! c = Some cl →
  ∃ cl', clients (fst (run ops w)) !! c = Some cl' ∧
    chan_grows (Client.Send cl) (Client.Send cl') ∧
    chan_grows (Client.Done cl) (Client.Done cl').
Proof.
  intros Hc. destruct (run_advances ops w) as (_ & Hcl & _).
  destruct (Hcl _ _ Hc) as (cl' & Hc' & Hg). exists cl'. split; [done|].
  by destruct Hg as (_ & _ & _ & _ & _ & _ & _ & Hsend & Hdone & _).
Qed.

(** No execution of the handlers deallocates a client or changes its
    instance id, booking, role, user, mentor or user name; and no execution
    deallocates a Session or changes its booking, start time or maximum
    duration, or closes its Done channel. *)
Theorem identities_are_fixed (ops : list Op) (w : World) :
  (∀ c cl, clients w !! c = Some cl →
     ∃ cl', clients (fst (run ops w)) !! c = Some cl' ∧
       Client.ID cl' = Client.ID cl ∧
       Client.BookingID cl' = Client.BookingID cl ∧
       Client.Role cl' = Client.Role cl ∧
       Client.UserID cl' = Client.UserID cl ∧
       Client.MentorID cl' = Client.MentorID cl ∧
       Client.Username cl' = Client.Username cl) ∧
  (∀ s se, sessions w !! s = Some se →
     ∃ se', sessions (fst (run ops w)) !! s = Some se' ∧
       Session.BookingID se' = Session.BookingID se ∧
       Session.StartTime se' = Session.StartTime se ∧
       Session.MaxDuration se' = Session.MaxDuration se ∧
       Session.Done se' = Session.Done se).
Proof.
  destruct (run_advances ops w) as (_ & Hcl & _ & Hse & _). split.
  - intros c cl Hc. destruct (Hcl _ _ Hc) as (cl' & Hc' & Hg). exists cl'.
    split; [done|]. destruct Hg as (? & ? & ? & ? & ? & ? & _). done.
  - intros s se Hs. destruct (Hse _ _ Hs) as (se' & Hs' & Hg). exists se'. done.
Qed.

(** No execution of the handlers creates or deletes a row of the table,
    and none starts a session: every row keeps its identifiers and its
    start time, its status either is what it was or has become completed,
    and a row without a start time has its duration either untouched or set
    to zero. *)
Theorem handlers_never_start_a_row (ops : list Op) (w : World) (b : UUID) :
  match video_sessions w !! b, video_sessions (fst (run ops w)) !! b with
  | Some r, Some r' =>
      VideoSession.ID r' = VideoSession.ID r ∧
      VideoSession.BookingID r' = VideoSession.BookingID r ∧
      VideoSession.MentorID r' = VideoSession.MentorID r ∧
      VideoSession.UserID r' = VideoSession.UserID r ∧
      VideoSession.SessionStartedAt r' = VideoSession.SessionStartedAt r ∧
      (VideoSession.Status r' = VideoSession.Status r ∨
       VideoSession.Status r' = VideoSessionStatusCompleted) ∧
      (VideoSession.SessionStartedAt r = None →
       VideoSession.DurationSeconds r' = VideoSession.DurationSeconds r ∨
       VideoSession.DurationSeconds r' = 0)
  | None, None => True
  | _, _ => False
  end.
Proof.
  destruct (run_advances ops w) as (_ & _ & _ & _ & Ht). specialize (Ht b).
  destruct (video_sessions w !! b) as [r|], (video_sessions (fst (run ops w)) !! b) as [r'|];
    try done.
  destruct Ht as (Ha & Hb & Hc & Hd & _ & Hs & Hcase).
  repeat (split; [done|]).
  destruct Hcase as [(Hst & Hd' & _)|(Hst & _ & Hd')].
  - split; [by left|]. intros _. by left.
  - split; [by right|]. intros Hnone. right. apply Hd'. by left.
Qed.

(** In every execution from start-up, the buffering interface of
    messages.go is never exercised: every client still has buffering
    switched on, is not marked peer-connection-ready, and has an empty
    message buffer of size 100; its queue has the capacity 256 it was made
    with. *)
Theorem buffering_is_never_used (table : gmap UUID VideoSession.t) (t : Time)
    (ops : list Op) (c : cptr) (cl : Client.t) :
  clients (fst (run ops (NewWorld table t))) !! c = Some cl →
  IsPeerConnectionReady (Client.ConnectionState cl) = false ∧
  ConnectionState.MessageBufferActive (Client.ConnectionState cl) = true ∧
  MessageBuffer_IsEmpty (ConnectionState.messageBuffer (Client.ConnectionState cl)) = true ∧
  MessageBuffer.maxSize (ConnectionState.messageBuffer (Client.ConnectionState cl)) = 100 ∧
  chan_cap (Client.Send cl) = 256%nat.
Proof.
  intros Hc. destruct (run_advances ops (NewWorld table t)) as (_ & _ & Hnew & _).
  destruct (Hnew _ _ Hc (lookup_empty _)) as (auth & id & a & _ & Hg).
  destruct Hg as (_ & _ & _ & _ & _ & _ & _ & (_ & _ & Hcap & _) & _ & (Hp & Hb & Hmb & _)).
  unfold IsPeerConnectionReady. rewrite Hp, Hb, Hmb, Hcap. done.
Qed.

(** The registry invariant of C10 holds in every world an execution of
    the handlers reaches from start-up: every registered Session is
    allocated and has an occupied slot, and the registry is one-to-one. *)
Theorem registry_in_executions (table : gmap UUID VideoSession.t) (t : Time)
    (ops : list Op) :
  let w := fst (run ops (NewWorld table t)) in
  (∀ b s, hub w !! b = Some s →
     ∃ se, sessions w !! s = Some se ∧ Session.BookingID se = b ∧
           (Session.Mentor se ≠ None ∨ Session.User se ≠ None)) ∧
  (∀ b b' s, hub w !! b = Some s → hub w !! b' = Some s → b = b').
Proof.
  intros w.
  assert (Hinv : registry_inv w).
  { subst w. destruct (run ops (NewWorld table t)) as [w' r] eqn:Hrun.
    apply (keeps_registry_run ops _ _ _ Hrun). intros b s. cbn. by rewrite lookup_empty. }
  split; [exact Hinv|].
  intros b b' s H1 H2.
  destruct (Hinv _ _ H1) as (se & Hs & Hb & _).
  destruct (Hinv _ _ H2) as (se' & Hs' & Hb' & _). congruence.
Qed.

(** In every world an execution of the handlers reaches from start-up,
    the occupant of a slot is an allocated client, the mentor slot holds a
    client whose role is "mentor" and the user slot a client whose role is
    not: dereferencing a slot never meets a dangling pointer. *)
Theorem slots_hold_their_roles (table : gmap UUID VideoSession.t) (t : Time)
    (ops : list Op) (s : sptr) (se : Session.t) :
  sessions (fst (run ops (NewWorld table t))) !! s = Some se →
  (∀ c, Session.Mentor se = Some c →
     ∃ cl, clients (fst (run ops (NewWorld table t))) !! c = Some cl ∧
           Client.Role cl = "mentor") ∧
  (∀ c, Session.User se = Some c →
     ∃ cl, clients (fst (run ops (NewWorld table t))) !! c = Some cl ∧
           Client.Role cl ≠ "mentor").
Proof.
  intros Hs. destruct (run_wf table t ops) as [Hroles _]. by apply (Hroles s se).
Qed.

End Preserved.

(** ** The row of a booking under the statements of the repository *)

(** The calls on the table touch nothing but the table and the clock. *)
Lemma repo_step_row (call : RepoCall) (w : World) (b : UUID) (r : VideoSession.t) :
  video_sessions w !! b = Some r →
  ∃ r', video_sessions (fst (repo_step call w)) !! b = Some r' ∧
        (status_rank (VideoSession.Status r) ≤ status_rank (VideoSession.Status r'))%nat ∧
        (VideoSession.Status r ≠ VideoSessionStatusWaiting →
         VideoSession.SessionStartedAt r' = VideoSession.SessionStartedAt r) ∧
        (VideoSession.Status r = VideoSessionStatusCompleted →
         is_Some (VideoSession.SessionEndedAt r) →
         is_Some (VideoSession.SessionEndedAt r')).
Proof.
  intros Hrow.
  assert (Hupd : ∀ (b0 : UUID) (f : Time → VideoSession.t → VideoSession.t),
    (∀ now r0, (status_rank (VideoSession.Status r0)
                ≤ status_rank (VideoSession.Status (f now r0)))%nat ∧
               (VideoSession.Status r0 ≠ VideoSessionStatusWaiting →
                VideoSession.SessionStartedAt (f now r0) = VideoSession.SessionStartedAt r0) ∧
               (VideoSession.Status r0 = VideoSessionStatusCompleted →
                is_Some (VideoSession.SessionEndedAt r0) →
                is_Some (VideoSession.SessionEndedAt (f now r0)))) →
    ∃ r', video_sessions (fst ((_ <- sql_update b0 f ;; ret tt) w)) !! b = Some r' ∧
          (status_rank (VideoSession.Status r) ≤ status_rank (VideoSession.Status r'))%nat ∧
          (VideoSession.Status r ≠ VideoSessionStatusWaiting →
           VideoSession.SessionStartedAt r' = VideoSession.SessionStartedAt r) ∧
          (VideoSession.Status r = VideoSessionStatusCompleted →
           is_Some (VideoSession.SessionEndedAt r) →
           is_Some (VideoSession.SessionEndedAt r'))).
  { intros b0 f Hf. cbn. destruct (decide (b0 = b)) as [->|Hne].
    - rewrite lookup_alter_eq, Hrow. cbn. eexists. split; [done|]. apply Hf.
    - rewrite lookup_alter_ne by done. exists r. split; [done|]. split; [lia|]. done. }
  destruct call as [b0|b0|b0|b0|b0 d reason|b0|t]; cbn [repo_step].
  - apply Hupd. intros now r0. cbn. split; [lia|done].
  - apply Hupd. intros now r0. cbn. split; [lia|done].
  - apply Hupd. intros now r0. cbn. split; [lia|done].
  - apply Hupd. intros now r0. cbn. split; [lia|done].
  - apply Hupd. intros now r0. cbn. split; [destruct (VideoSession.Status r0); cbn; lia|].
    split; [done|]. intros _ _. eauto.
  - apply Hupd. intros now r0. destruct (VideoSession.Status r0) eqn:Hst; cbn.
    + split; [lia|]. done.
    + rewrite Hst. split; [cbn; lia|]. done.
    + rewrite Hst. split; [cbn; lia|]. done.
  - cbn. exists r. split; [done|]. split; [lia|]. done.
Qed.

(** Used through MarkActive, EndSession and the four Record statements
    (UpdateStatus apart), the row of a booking is never deleted, its status
    never goes back (waiting, then active, then completed), a completed row
    that has an end time keeps having one, and its start time does not
    change once the status is no longer waiting: a session that has been
    started or completed is not started again. *)
Theorem status_never_goes_back (calls : list RepoCall) :
  ∀ (w : World) (b : UUID) (r : VideoSession.t),
  video_sessions w !! b = Some r →
  ∃ r', video_sessions (fst (repo_run calls w)) !! b = Some r' ∧
        (status_rank (VideoSession.Status r) ≤ status_rank (VideoSession.Status r'))%nat ∧
        (VideoSession.Status r ≠ VideoSessionStatusWaiting →
         VideoSession.SessionStartedAt r' = VideoSession.SessionStartedAt r) ∧
        (VideoSession.Status r = VideoSessionStatusCompleted →
         is_Some (VideoSession.SessionEndedAt r) →
         is_Some (VideoSession.SessionEndedAt r')).
Proof.
  induction calls as [|call rest IH]; intros w b r Hrow.
  - exists r. cbn. split; [done|]. split; [lia|]. done.
  - destruct (repo_step_row call w b r Hrow) as (r1 & Hr1 & Hrank1 & Hstart1 & Hend1).
    assert (Hret : ∃ w1, repo_step call w = (w1, Ret tt)).
    { destruct call; cbn; eauto. }
    destruct Hret as [w1 Hstep]. rewrite Hstep in Hr1. cbn in Hr1.
    destruct (IH w1 b r1 Hr1) as (r' & Hr' & Hrank & Hstart & Hend).
    exists r'. cbn [repo_run]. rewrite (bind_Ret _ _ _ _ _ Hstep).
    split; [done|]. split; [lia|]. split.
    + intros Hnw. rewrite Hstart; [by apply Hstart1|].
      intros Hw. rewrite Hw in Hrank1. destruct (VideoSession.Status r); cbn in *; try lia. done.
    + intros Hc He. apply Hend; [|by apply Hend1].
      rewrite Hc in Hrank1. destruct (VideoSession.Status r1); cbn in *; try lia. done.
Qed.

Section Info.
Context `{!TimeLib} `{!JSON}.

(** GetSessionInfo never changes the state; for a booking without a row
    it returns the error of the repository; and right after an EndSession
    that returned nil it reports the status "completed" and the duration
    that EndSession has computed. *)
Theorem GetSessionInfo_after_EndSession (bookingID : UUID) (reason : string) (w : World) :
  (∀ w0, fst (GetSessionInfo bookingID w0) = w0) ∧
  (video_sessions w !! bookingID = None →
   GetSessionInfo bookingID w = (w, Ret (inr (errors_New "video session not found")))) ∧
  (∀ r, video_sessions w !! bookingID = Some r →
     ∃ w' info,
       (EndSession bookingID reason ;;; GetSessionInfo bookingID) w = (w', Ret (inl info)) ∧
       VideoSessionResponse.Status info = "completed" ∧
       VideoSessionResponse.DurationSeconds info = persisted_duration r (clock w) ∧
       VideoSessionResponse.BookingID info = VideoSession.BookingID r ∧
       VideoSessionResponse.ID info = VideoSession.ID r).
Proof.
  split; [|split].
  - intros w0. unfold GetSessionInfo, Repo_GetByBookingID, bind, get, ret. cbn.
    by destruct (video_sessions w0 !! bookingID).
  - intros Hrow. unfold GetSessionInfo, Repo_GetByBookingID, bind, get, ret. cbn.
    by rewrite Hrow.
  - intros r Hrow.
    unfold EndSession, GetSessionInfo, Repo_GetByBookingID, Repo_EndSession, sql_update,
      time_Now, bind, get, modify, ret. cbn. rewrite Hrow. cbn.
    rewrite lookup_alter_eq, Hrow. cbn. eexists _, _. split; [reflexivity|]. done.
Qed.

End Info.

(** ** The authentication middleware *)

Section Authentication.
Context `{!Collaborators}.

(** The role of a context the middleware lets through. *)
Lemma middleware_derives_role_roles (jwtSecret : string) (mentorRepo : bool)
    (query : string → string) (auth : WebSocketAuthContext.t) :
  WebSocketAuthMiddleware jwtSecret mentorRepo query = Next auth →
  WebSocketAuthContext.Role auth = "mentor" ∨ WebSocketAuthContext.Role auth = "user".
Proof.
  unfold WebSocketAuthMiddleware.
  case_decide as Htok; [done|].
  destruct (ParseAccessToken (query "token") jwtSecret) as [claims|]; [|done].
  case_decide as Hbid; [done|].
  destruct (uuid_Parse (query "booking_id")) as [bookingID|]; [|done].
  destruct (Booking_GetByID bookingID) as [booking|]; [|done].
  cbn zeta.
  set (role1 := if mentorRepo then _ else _).
  assert (Hrole1 : role1 = "mentor" ∨ role1 = "").
  { subst role1. destruct mentorRepo; [|by right].
    destruct (Mentor_FindByUserID (Claims.UserID claims)) as [[mp|] [e|]]; try by right.
    case_decide; [by left|by right]. }
  clearbody role1.
  destruct (User_FindByID (Claims.UserID claims)) as [[user|] [e|]];
    destruct Hrole1 as [->| ->]; repeat case_decide; try done;
    intros [= <-]; cbn; auto.
Qed.

(** A request the middleware lets through carries a context whose role
    is "mentor" or "user" and is derived from the ownership of the booking
    (mentor first: the role is "mentor" exactly when the caller's mentor
    profile is the booking's mentor, else the caller is the booking's
    user), whose user is the one of the token, whose booking is the parsed
    booking_id, and whose user name is the stored one and is not empty. *)
Theorem middleware_derives_role (jwtSecret : string) (mentorRepo : bool)
    (query : string → string) (auth : WebSocketAuthContext.t) :
  WebSocketAuthMiddleware jwtSecret mentorRepo query = Next auth →
  ∃ claims booking,
    ParseAccessToken (query "token") jwtSecret = inl claims ∧
    WebSocketAuthContext.UserID auth = Claims.UserID claims ∧
    uuid_Parse (query "booking_id") = inl (WebSocketAuthContext.BookingID auth) ∧
    Booking_GetByID (WebSocketAuthContext.BookingID auth) = inl booking ∧
    WebSocketAuthContext.MentorID auth = Booking.MentorID booking ∧
    WebSocketAuthContext.Username auth ≠ "" ∧
    User_FindByID (WebSocketAuthContext.UserID auth)
      = (Some (User.mk (WebSocketAuthContext.Username auth)), None) ∧
    ((WebSocketAuthContext.Role auth = "mentor" ∧ mentorRepo = true ∧
      owns_as_mentor (WebSocketAuthContext.UserID auth) booking) ∨
     (WebSocketAuthContext.Role auth = "user" ∧
      Booking.UserID booking = WebSocketAuthContext.UserID auth ∧
      ¬ (mentorRepo = true ∧ owns_as_mentor (WebSocketAuthContext.UserID auth) booking))).
Proof.
  unfold WebSocketAuthMiddleware, owns_as_mentor.
  case_decide as Htok; [done|].
  destruct (ParseAccessToken (query "token") jwtSecret) as [claims|] eqn:Hparse; [|done].
  case_decide as Hbid; [done|].
  destruct (uuid_Parse (query "booking_id")) as [bookingID|] eqn:Huuid; [|done].
  destruct (Booking_GetByID bookingID) as [booking|] eqn:Hbooking; [|done].
  cbn zeta.
  set (role1 := if mentorRepo then _ else _).
  assert (Hrole1 : (role1 = "mentor" ∧ mentorRepo = true ∧
                    ∃ mp, Mentor_FindByUserID (Claims.UserID claims) = (Some mp, None) ∧
                          Booking.MentorID booking = MentorProfile.ID mp) ∨
                   (role1 = "" ∧
                    ¬ (mentorRepo = true ∧
                       ∃ mp, Mentor_FindByUserID (Claims.UserID claims) = (Some mp, None) ∧
                             Booking.MentorID booking = MentorProfile.ID mp))).
  { subst role1. destruct mentorRepo; [|right; split; [done|by intros [? _]]].
    destruct (Mentor_FindByUserID (Claims.UserID claims)) as [[mp|] [e|]] eqn:Hmp;
      try (right; split; [done|]; intros (_ & mp' & Hmp' & _); congruence).
    case_decide as Hown.
    - left. eauto.
    - right. split; [done|]. intros (_ & mp' & Hmp' & Hown'). congruence. }
  clearbody role1.
  destruct (User_FindByID (Claims.UserID claims)) as [[[name]|] [e|]] eqn:Huser;
    destruct Hrole1 as [(-> & Hrepo & Hown)|(-> & Hnot)];
    repeat case_decide; try done;
    intros [= <-]; exists claims, booking; cbn; split_and!; try done;
    intuition (eauto; congruence).
Qed.

(** For a context the middleware lets through, the role the handlers
    relay to is the other of the two roles, and it selects the slot
    opposite to the slot AddClient files the client under: a party never
    relays to itself. *)
Theorem authenticated_role_relays_to_peer (jwtSecret : string) (mentorRepo : bool)
    (query : string → string) (auth : WebSocketAuthContext.t) (se : Session.t) :
  WebSocketAuthMiddleware jwtSecret mentorRepo query = Next auth →
  let role := WebSocketAuthContext.Role auth in
  otherRole_of role ≠ role ∧
  (otherRole_of role = "mentor" ∨ otherRole_of role = "user") ∧
  otherRole_of (otherRole_of role) = role ∧
  slot_of (otherRole_of role) se = opposite_slot role se.
Proof.
  intros Hnext role.
  destruct (middleware_derives_role_roles jwtSecret mentorRepo query auth Hnext) as [Hr|Hr];
    subst role; rewrite Hr; unfold otherRole_of, slot_of, opposite_slot;
    repeat case_decide; try done; auto.
Qed.

End Authentication.
(** ** ValidateAndStartSession *)

Section Validating.
Context `{!Collaborators}.



(** The ownership checks of ValidateAndStartSession: for the role "user"
    a caller who is not the booking's user, and for the role "mentor" a
    caller whose mentor profile is not the booking's mentor (or who has
    none, or whose profile cannot be loaded), gets the error "unauthorized"
    and nothing is changed, whatever the status of the booking, the time
    zone and the time. *)
Theorem ValidateAndStartSession_checks_owner (bookingID userID : UUID)
    (role timezone : string) (id : UUID) (booking : Booking.t) (w : World) :
  Booking_GetByID bookingID = inl booking →
  (role = "user" ∧ Booking.UserID booking ≠ userID) ∨
  (role = "mentor" ∧ ¬ owns_as_mentor userID booking) →
  ValidateAndStartSession bookingID userID role timezone id w
  = (w, Ret (inr (errors_New "unauthorized"))).
Proof.
  intros Hb Hnot. unfold ValidateAndStartSession. rewrite Hb. cbn zeta.
  destruct Hnot as [[-> Huser]|[-> Hmentor]].
  - by rewrite decide_True.
  - rewrite decide_False by (by intros [? _]).
    rewrite decide_True by done.
    destruct (Mentor_FindByUserID userID) as [[mp|] [e|]] eqn:Hmp; try done.
    case_decide as Hown; [done|].
    destruct Hmentor. by exists mp.
Qed.

(** For a role other than "user" and "mentor", ValidateAndStartSession
    makes no ownership check at all: its result and its effect are the same
    for every caller. *)
Theorem ValidateAndStartSession_other_role_unchecked (bookingID userID userID' : UUID)
    (role timezone : string) (id : UUID) (w : World) :
  role ≠ "user" → role ≠ "mentor" →
  ValidateAndStartSession bookingID userID role timezone id w
  = ValidateAndStartSession bookingID userID' role timezone id w.
Proof.
  intros Hu Hm. unfold ValidateAndStartSession.
  destruct (Booking_GetByID bookingID) as [booking|]; [|done].
  cbn zeta.
  rewrite !(decide_False (P := role = "user" ∧ _)) by (by intros [? _]).
  by rewrite !(decide_False (P := role = "mentor")).
Qed.

End Validating.

(** ** Instances of the further properties *)

Lemma sample_buffer_ok : mb_ok sample_arrays sample_buffer.
Proof. exists [zeroMessage; zeroMessage]. repeat split; vm_compute; (reflexivity || lia). Qed.

Lemma MessageBuffer_Size_after_adds_witness :
  ∃ A' mb' added, MessageBuffer_AddAll sample_msgs sample_buffer sample_arrays
                    = (A', Ret (mb', added)) ∧
    MessageBuffer_Size mb' =
      Z.min (MessageBuffer_Size sample_buffer + Z.of_nat (length sample_msgs))
        (MessageBuffer.maxSize sample_buffer) ∧
    MessageBuffer_Size mb' ≤ MessageBuffer.maxSize mb' ∧
    Z.of_nat (length added) = MessageBuffer_Size mb' - MessageBuffer_Size sample_buffer ∧
    (MessageBuffer_IsEmpty mb' = true ↔ MessageBuffer_Size mb' = 0).
Proof.
  apply (MessageBuffer_Size_after_adds sample_arrays sample_buffer sample_msgs).
  exists [zeroMessage; zeroMessage]. repeat split; vm_compute; (reflexivity || lia).
Defined.

Lemma buffering_never_resumes_witness :
  ConnectionState.MessageBufferActive sample_state_final = false ∧
  ∀ msg, BufferMessage msg sample_state_final
           (fst (state_run sample_state_ops (SetPeerConnectionReady true sample_state)
                   sample_arrays))
         = (fst (state_run sample_state_ops (SetPeerConnectionReady true sample_state)
                   sample_arrays),
            Ret (sample_state_final, false)).
Proof.
  apply (buffering_never_resumes sample_state_ops sample_state sample_state_final
           sample_arrays).
  vm_compute. reflexivity.
Defined.

Lemma Hub_AddClient_registers_witness :
  ∃ cl se',
    clients world_two_clients !! 1%positive = Some cl ∧
    clients world_alice_in_slot !! 1%positive = Some cl ∧
    Hub_GetSession booking_X world_alice_in_slot = (world_alice_in_slot, Ret (Some 1%positive)) ∧
    sessions world_alice_in_slot !! 1%positive = Some se' ∧
    slot_of (Client.Role cl) se' = Some 1%positive ∧
    opposite_slot (Client.Role cl) se' =
      match hub world_two_clients !! booking_X with
      | Some s0 => se ← sessions world_two_clients !! s0 ; opposite_slot (Client.Role cl) se
      | None => None
      end ∧
    (∀ s0, hub world_two_clients !! booking_X = Some s0 → 1%positive = s0) ∧
    (∀ b, b ≠ booking_X → hub world_alice_in_slot !! b = hub world_two_clients !! b).
Proof.
  apply (Hub_AddClient_registers booking_X 1%positive 1%positive world_two_clients
           world_alice_in_slot).
  vm_compute. reflexivity.
Defined.

Lemma Hub_AddClient_new_session_witness :
  Hub_AddClient booking_X 1%positive world_two_clients = (world_alice_in_slot, Ret 1%positive) ∧
  sessions world_two_clients !! 1%positive = None.
Proof.
  destruct (Hub_AddClient_new_session booking_X 1%positive
              (sample_client auth_alice 1001%N 1) world_two_clients) as [Hadd Hfresh];
    [vm_compute; reflexivity | vm_compute; reflexivity |].
  split; [|exact Hfresh]. rewrite Hadd. vm_compute. reflexivity.
Defined.

Lemma Hub_RemoveClient_both_unregisters_witness :
  Hub_GetSession booking_X world_slots_emptied = (world_slots_emptied, Ret None) ∧
  clients world_slots_emptied = clients world_in_slots ∧
  (∀ b, b ≠ booking_X → hub world_slots_emptied !! b = hub world_in_slots !! b).
Proof.
  apply (Hub_RemoveClient_both_unregisters booking_X "mentor" "user" world_in_slots
           world_slots_emptied).
  - left. split; [reflexivity|discriminate].
  - vm_compute. reflexivity.
Defined.

Lemma Session_Close_twice_panics_witness :
  Session_Close 1%positive (fst (Session_Close 1%positive world_in_slots))
  = (fst (Session_Close 1%positive world_in_slots), Panic panic_close_closed).
Proof.
  apply (Session_Close_twice_panics 1%positive world_in_slots).
  vm_compute. reflexivity.
Defined.

Lemma Client_IsConnected_after_Close_witness :
  Client_IsConnected 1%positive world_two_clients = (world_two_clients, Ret true) ∧
  Client_IsConnected 1%positive (fst (Client_Close 1%positive world_two_clients))
  = (fst (Client_Close 1%positive world_two_clients), Ret false).
Proof.
  apply (Client_IsConnected_after_Close 1%positive world_two_clients).
  vm_compute. reflexivity.
Defined.

Lemma BothJoined_other_client_witness :
  ∃ c, Session_GetOtherClient 1%positive "mentor" world_in_slots
       = (world_in_slots, Ret (Some c)).
Proof.
  apply (BothJoined_other_client 1%positive "mentor" world_in_slots).
  vm_compute. reflexivity.
Defined.

Lemma MessageBuffer_Flush_twice_witness :
  ∃ A1 mb1 first A2 mb2 second,
    MessageBuffer_Flush sample_buffer sample_arrays = (A1, Ret (mb1, first)) ∧
    MessageBuffer_Flush mb1 A1 = (A2, Ret (mb2, second)) ∧
    contents A1 first = contents sample_arrays (MessageBuffer.messages sample_buffer) ∧
    contents A2 first = contents sample_arrays (MessageBuffer.messages sample_buffer) ∧
    contents A2 second = [] ∧
    MessageBuffer_Size mb2 = 0 ∧
    MessageBuffer.maxSize mb2 = MessageBuffer.maxSize sample_buffer.
Proof.
  apply (MessageBuffer_Flush_twice sample_arrays sample_buffer).
  exists [zeroMessage; zeroMessage]. repeat split; vm_compute; (reflexivity || lia).
Defined.


(** Alice pings once both have joined: her queue holds her notice and
    has room. *)
Lemma ping_answered_with_pong_witness :
  ∃ cl, clients world_both_joined !! 1%positive = Some cl ∧
    @readPump_body sample_json 1%positive 1%positive (ReadJSON "p") world_both_joined =
      if closed (Client.Send cl) then (world_both_joined, Panic panic_send_closed)
      else if chan_full (Client.Send cl) then (world_both_joined, Ret Continue)
      else (set_clients <[1%positive := enqueued pong cl]> world_both_joined, Ret Continue).
Proof.
  eexists. split; [vm_compute; reflexivity|].
  apply (@ping_answered_with_pong sample_json 1%positive 1%positive "p"
           (WebSocketMessage.mk "ping" "") _ world_both_joined);
    vm_compute; reflexivity.
Defined.

(** Alice sends leave_call and then an offer: the offer is not read. *)
Lemma readPump_ends_witness :
  @readPump sample_time sample_json 1%positive 1%positive
     [ReadJSON "l"; ReadJSON "ov=0"] world_both_joined
  = @readPump_deferred sample_time 1%positive world_both_joined.
Proof.
  apply (@readPump_ends sample_time sample_json 1%positive 1%positive (ReadJSON "l")
           [ReadJSON "ov=0"] world_both_joined).
  exists (WebSocketMessage.mk "leave_call" ""). split; reflexivity.
Defined.

(** Bob's write pump once both have joined: his notice is waiting. *)
Lemma writePump_writes_in_order_witness :
  ∃ cl, clients world_both_joined !! 2%positive = Some cl ∧
    writePump 2%positive (replicate (length (pending (Client.Send cl))) SendReady)
      world_both_joined
    = (set_clients <[2%positive := delivered cl]> world_both_joined, Ret tt) ∧
    Conn.written (Client.Conn (delivered cl))
    = Conn.written (Client.Conn cl) ++ map WriteJSON (pending (Client.Send cl)) ∧
    pending (Client.Send (delivered cl)) = [] ∧
    sent (Client.Send (delivered cl)) = sent (Client.Send cl).
Proof.
  eexists. split; [vm_compute; reflexivity|].
  apply (writePump_writes_in_order 2%positive _ world_both_joined); vm_compute; reflexivity.
Defined.

(** Bob's write pump after Alice's departure has closed him, with the
    notice of her departure still in his queue. *)
Lemma writePump_closed_client_stops_witness :
  ∃ cl w' cl',
    clients world_peer_closed !! 2%positive = Some cl ∧
    writePump_loop 2%positive [SendReady; TickerC] world_peer_closed = (w', Ret Return) ∧
    writePump 2%positive [SendReady; TickerC] world_peer_closed
    = (set_clients <[2%positive := cl']> world_peer_closed, Ret tt) ∧
    Conn.written (Client.Conn cl') = Conn.written (Client.Conn cl) ∧
    Conn.closed (Client.Conn cl') = true ∧
    sent (Client.Send cl') = sent (Client.Send cl).
Proof.
  destruct (writePump_closed_client_stops 2%positive
              (default (sample_client auth_bob 1002%N 2) (clients world_peer_closed !! 2%positive))
              SendReady [TickerC] world_peer_closed)
    as (w' & cl' & H1 & H2 & H3 & H4 & H5); try (vm_compute; reflexivity).
  eexists _, w', cl'. split; [vm_compute; reflexivity|]. repeat split; assumption.
Defined.

(** Alice leaves while Bob is in his slot, open. *)
Lemma HandleClientLeft_closes_peer_witness :
  ∃ se ocl,
    sessions world_both_joined !! 1%positive = Some se ∧
    clients world_both_joined !! 2%positive = Some ocl ∧
    @HandleClientLeft sample_time booking_X "mentor" world_both_joined =
      (mkWorld (arrays world_both_joined)
         (<[2%positive := closed_client
              (if chan_full (Client.Send ocl) then ocl
               else enqueued (other_party_left booking_X) ocl)]> (clients world_both_joined))
         (<[1%positive := clear_slot_of "mentor" se]> (sessions world_both_joined))
         (hub world_both_joined)
         (alter (λ r, completed_row (left_row "mentor" (clock world_both_joined) r)
                        (clock world_both_joined)
                        (@persisted_duration sample_time r (clock world_both_joined)))
            booking_X (video_sessions world_both_joined))
         (clock world_both_joined),
       Ret None).
Proof.
  eexists _, _. split; [vm_compute; reflexivity|]. split; [vm_compute; reflexivity|].
  apply (@HandleClientLeft_closes_peer sample_time booking_X "mentor" 1%positive _ 2%positive _
           world_both_joined); vm_compute; reflexivity.
Defined.

(** Bob leaves after Alice has left. *)
Lemma HandleClientLeft_last_party_witness :
  ∃ se,
    sessions world_peer_closed !! 1%positive = Some se ∧
    @HandleClientLeft sample_time booking_X "user" world_peer_closed =
      (mkWorld (arrays world_peer_closed) (clients world_peer_closed)
         (<[1%positive := clear_slot_of "user" se]> (sessions world_peer_closed))
         (delete booking_X (hub world_peer_closed))
         (alter (λ r, completed_row (left_row "user" (clock world_peer_closed) r)
                        (clock world_peer_closed)
                        (@persisted_duration sample_time r (clock world_peer_closed)))
            booking_X (video_sessions world_peer_closed))
         (clock world_peer_closed),
       Ret None).
Proof.
  eexists. split; [vm_compute; reflexivity|].
  apply (@HandleClientLeft_last_party sample_time booking_X "user" 1%positive _
           world_peer_closed); vm_compute; reflexivity.
Defined.

(** A departure for a booking nobody is registered for, with a row that
    is waiting. *)
Lemma HandleClientLeft_unregistered_witness :
  @HandleClientLeft sample_time booking_X "user" (NewWorld {[booking_X := row_waiting]} 5) =
    (set_video_sessions (alter (left_row "user" 5) booking_X)
       (NewWorld {[booking_X := row_waiting]} 5), Ret None).
Proof.
  apply (@HandleClientLeft_unregistered sample_time booking_X "user"
           (NewWorld {[booking_X := row_waiting]} 5)).
  vm_compute. reflexivity.
Defined.

(** Alice is the first to connect. *)
Lemma first_party_waits_witness :
  HandleWebSocket auth_alice 1001%N (NewWorld {[booking_X := row_waiting]} 5) =
    (mkWorld {[1%positive := replicate 100 zeroMessage]}
       {[1%positive := new_client auth_alice 1001%N 1]}
       {[1%positive := Session.mk booking_X (Some 1%positive) None 5 1800 (make_chan 0)]}
       {[booking_X := 1%positive]}
       {[booking_X := joined_row "mentor" 5 row_waiting]}
       5,
     Ret (1%positive, 1%positive)).
Proof.
  rewrite (first_party_waits auth_alice 1001%N (NewWorld {[booking_X := row_waiting]} 5))
    by (vm_compute; reflexivity).
  vm_compute. reflexivity.
Defined.

Lemma closed_connection_stays_silent_witness :
  ∃ cl cl',
    clients world_peer_closed !! 2%positive = Some cl ∧
    clients (fst (sample_run trace_after_close world_peer_closed)) !! 2%positive = Some cl' ∧
    Conn.written (Client.Conn cl) `prefix_of` Conn.written (Client.Conn cl') ∧
    (Conn.closed (Client.Conn cl) = true →
     Conn.closed (Client.Conn cl') = true ∧
     Conn.written (Client.Conn cl') = Conn.written (Client.Conn cl)).
Proof.
  eexists. 
  destruct (@closed_connection_stays_silent sample_time sample_json trace_after_close
              world_peer_closed 2%positive
              (default (sample_client auth_bob 1002%N 2) (clients world_peer_closed !! 2%positive)))
    as (cl' & Hc' & Hrest); [vm_compute; reflexivity|].
  exists cl'. split; [vm_compute; reflexivity|]. split; [exact Hc'|exact Hrest].
Defined.

Lemma queue_history_only_grows_witness :
  ∃ cl cl',
    clients world_both_joined !! 2%positive = Some cl ∧
    clients (fst (sample_run trace_relay world_both_joined)) !! 2%positive = Some cl' ∧
    chan_grows (Client.Send cl) (Client.Send cl') ∧
    chan_grows (Client.Done cl) (Client.Done cl').
Proof.
  eexists.
  destruct (@queue_history_only_grows sample_time sample_json trace_relay
              world_both_joined 2%positive
              (default (sample_client auth_bob 1002%N 2) (clients world_both_joined !! 2%positive)))
    as (cl' & Hc' & Hrest); [vm_compute; reflexivity|].
  exists cl'. split; [vm_compute; reflexivity|]. split; [exact Hc'|exact Hrest].
Defined.

Lemma buffering_is_never_used_witness :
  ∃ cl,
    clients (fst (sample_run trace_peer_closed (NewWorld ∅ 0))) !! 2%positive = Some cl ∧
    IsPeerConnectionReady (Client.ConnectionState cl) = false ∧
    ConnectionState.MessageBufferActive (Client.ConnectionState cl) = true ∧
    MessageBuffer_IsEmpty (ConnectionState.messageBuffer (Client.ConnectionState cl)) = true ∧
    MessageBuffer.maxSize (ConnectionState.messageBuffer (Client.ConnectionState cl)) = 100 ∧
    chan_cap (Client.Send cl) = 256%nat.
Proof.
  eexists. split; [vm_compute; reflexivity|].
  apply (@buffering_is_never_used sample_time sample_json ∅ 0 trace_peer_closed 2%positive).
  vm_compute. reflexivity.
Defined.

Lemma slots_hold_their_roles_witness :
  ∃ se,
    sessions (fst (sample_run trace_both_joined (NewWorld ∅ 0))) !! 1%positive = Some se ∧
    (∀ c, Session.Mentor se = Some c →
       ∃ cl, clients (fst (sample_run trace_both_joined (NewWorld ∅ 0))) !! c = Some cl ∧
             Client.Role cl = "mentor") ∧
    (∀ c, Session.User se = Some c →
       ∃ cl, clients (fst (sample_run trace_both_joined (NewWorld ∅ 0))) !! c = Some cl ∧
             Client.Role cl ≠ "mentor").
Proof.
  eexists. split; [vm_compute; reflexivity|].
  apply (@slots_hold_their_roles sample_time sample_json ∅ 0 trace_both_joined 1%positive).
  vm_compute. reflexivity.
Defined.

Lemma status_never_goes_back_witness :
  ∃ r', video_sessions (fst (repo_run sample_calls (NewWorld {[ booking_X := row_waiting ]} 0)))
          !! booking_X = Some r' ∧
        (status_rank VideoSessionStatusWaiting ≤ status_rank (VideoSession.Status r'))%nat.
Proof.
  destruct (status_never_goes_back sample_calls (NewWorld {[ booking_X := row_waiting ]} 0)
              booking_X row_waiting) as (r' & Hr' & Hrank & _).
  - vm_compute. reflexivity.
  - exists r'. split; [exact Hr'|exact Hrank].
Defined.

Lemma middleware_derives_role_witness :
  @WebSocketAuthMiddleware sample_collaborators "s3cret" true query_alice = Next auth_alice ∧
  WebSocketAuthContext.Username auth_alice ≠ "" ∧
  (WebSocketAuthContext.Role auth_alice = "mentor" ∨
   WebSocketAuthContext.Role auth_alice = "user").
Proof.
  split; [vm_compute; reflexivity|].
  destruct (@middleware_derives_role sample_collaborators "s3cret" true query_alice auth_alice)
    as (claims & booking & _ & _ & _ & _ & _ & Hname & _ & Hrole).
  - vm_compute. reflexivity.
  - split; [exact Hname|]. destruct Hrole as [[Hr _]|[Hr _]]; [by left|by right].
Defined.

Lemma ValidateAndStartSession_checks_owner_witness :
  @Booking_GetByID sample_collaborators booking_X = inl sample_booking ∧
  Booking.UserID sample_booking ≠ 101%N ∧
  @ValidateAndStartSession sample_collaborators booking_X 101%N "user" "Asia/Kolkata" 900%N
    (NewWorld ∅ 36000000000000)
  = (NewWorld ∅ 36000000000000, Ret (inr (errors_New "unauthorized"))).
Proof.
  split; [vm_compute; reflexivity|]. split; [vm_compute; discriminate|].
  apply (@ValidateAndStartSession_checks_owner sample_collaborators booking_X 101%N "user"
           "Asia/Kolkata" 900%N sample_booking).
  - vm_compute. reflexivity.
  - left. split; [reflexivity|]. vm_compute. discriminate.
Defined.

Lemma ValidateAndStartSession_other_role_unchecked_witness :
  @ValidateAndStartSession sample_collaborators booking_X 101%N "guest" "Asia/Kolkata" 900%N
    (NewWorld ∅ 36000000000000)
  = @ValidateAndStartSession sample_collaborators booking_X 4242%N "guest" "Asia/Kolkata" 900%N
      (NewWorld ∅ 36000000000000).
Proof.
  apply (@ValidateAndStartSession_other_role_unchecked sample_collaborators);
    vm_compute; discriminate.
Defined.

Lemma authenticated_role_relays_to_peer_witness :
  otherRole_of (WebSocketAuthContext.Role auth_alice) ≠ WebSocketAuthContext.Role auth_alice.
Proof.
  destruct (@authenticated_role_relays_to_peer sample_collaborators "s3cret" true query_alice
              auth_alice (Session.mk booking_X None None 0 1800 (make_chan 0)))
    as [Hother _].
  - vm_compute. reflexivity.
  - exact Hother.
Defined.
